(** * MeetingPro: the staged audio-processing pipeline

    A shallow embedding of the class [AudioProcessor]
    (services/audioProcessor.ts) and of the component [App] that drives
    it, with the properties of the pipeline's progress reporting,
    cancellation, engine life cycle and error handling.

    The first part is the program: host values (numbers, strings, the
    bitrate pattern, JSON), the environment of a run (the transcoder engine,
    the two services, the consumer), the world a processor lives in (its
    fields, the heap of its progress records, what an observer has seen), a
    state and exception monad with a suspension primitive, the methods of
    the class, and the state, the handlers and the screen of [App].  The
    second part is the vocabulary of the properties, the third the
    properties themselves. *)

From Stdlib Require Import ZArith QArith String Ascii List Lia Bool.
From Stdlib.Strings Require Import Byte.
From stdpp Require Import base option list gmap strings.

Local Open Scope string_scope.
Local Open Scope list_scope.
#[local] Set Warnings "-register-all".

(** ** Host numbers

    A JavaScript number is a double.  The pipeline only compares progress
    values and passes them on, and a comparison of two doubles is exact, so a
    finite value is kept as the rational it denotes; the two infinities
    and NaN are kept apart because [Math.min] and [Math.max] treat them
    specially. *)

Inductive number : Type :=
  | NaN
  | NegInfinity
  | Finite (q : Q)
  | PosInfinity.

Module Num.

(** [a <= b] on numbers; every comparison with NaN is false. *)
Definition leb (a b : number) : bool :=
  match a, b with
  | NaN, _ | _, NaN => false
  | NegInfinity, _ => true
  | _, PosInfinity => true
  | Finite x, Finite y => Qle_bool x y
  | Finite _, NegInfinity => false
  | PosInfinity, (NegInfinity | Finite _) => false
  end.

Definition isNaN (a : number) : bool :=
  match a with NaN => true | _ => false end.

(** [Math.max(a, b)]: NaN if either argument is NaN, else the larger. *)
Definition max (a b : number) : number :=
  if isNaN a || isNaN b then NaN else if leb a b then b else a.

(** [Math.min(a, b)]: NaN if either argument is NaN, else the smaller. *)
Definition min (a b : number) : number :=
  if isNaN a || isNaN b then NaN else if leb a b then a else b.

Definition zero : number := Finite 0.
Definition one : number := Finite 1.
(** The literal [0.1]; only its place strictly between 0 and 1 matters. *)
Definition tenth : number := Finite (1 # 10).

(** Truthiness of a number: [0] and NaN are falsy. *)
Definition truthy (a : number) : bool :=
  match a with
  | NaN => false
  | Finite q => negb (Qeq_bool q 0)
  | _ => true
  end.

(** The closed unit interval. *)
Definition in_unit (a : number) : Prop :=
  match a with
  | Finite q => (0 <= q)%Q /\ (q <= 1)%Q
  | _ => False
  end.

(** [a <= b] as a proposition (false as soon as NaN is involved). *)
Definition le (a b : number) : Prop := leb a b = true.

End Num.

(** [Math.min(1, Math.max(0, value))], the expression of [updateProgress]. *)
Definition clamp (value : number) : number :=
  Num.min Num.one (Num.max Num.zero value).

(** ** Host strings

    Strings are byte strings; the operations below are the ones the source
    calls on them. *)

Module Str.

(** [s.includes(sub)] *)
Fixpoint includes (s sub : string) : bool :=
  String.prefix sub s ||
  match s with
  | EmptyString => false
  | String _ s' => includes s' sub
  end.

(** [s.lastIndexOf(c)] for a one-character [c]; [None] stands for [-1]. *)
Fixpoint lastIndexOf (s : string) (c : ascii) : option nat :=
  match s with
  | EmptyString => None
  | String a s' =>
      match lastIndexOf s' c with
      | Some i => Some (S i)
      | None => if Ascii.eqb a c then Some 0%nat else None
      end
  end.

(** [s.substring(i)] for [0 <= i]. *)
Fixpoint drop (i : nat) (s : string) : string :=
  match i, s with
  | O, _ => s
  | S i', String _ s' => drop i' s'
  | S _, EmptyString => EmptyString
  end.

(** [s.substring(s.lastIndexOf('.'))]: a negative start counts as 0, so a
    name without a dot is returned whole. *)
Definition fromLastDot (s : string) : string :=
  match lastIndexOf s "." with
  | Some i => drop i s
  | None => s
  end.

(** If [p] is a prefix of [s], what follows it. *)
Fixpoint strip (p s : string) : option string :=
  match p, s with
  | EmptyString, _ => Some s
  | String a p', String b s' => if Ascii.eqb a b then strip p' s' else None
  | String _ _, EmptyString => None
  end.

(** The longest prefix whose characters satisfy [f], and the rest. *)
Fixpoint span (f : ascii -> bool) (s : string) : string * string :=
  match s with
  | EmptyString => (EmptyString, EmptyString)
  | String a s' =>
      if f a then let (t, r) := span f s' in (String a t, r)
      else (EmptyString, s)
  end.

Definition isEmpty (s : string) : bool :=
  match s with EmptyString => true | _ => false end.

Definition isDigit (a : ascii) : bool :=
  let n := nat_of_ascii a in (48 <=? n)%nat && (n <=? 57)%nat.

(** [\s] restricted to the one-byte white space characters. *)
Definition isSpace (a : ascii) : bool :=
  let n := nat_of_ascii a in
  ((9 <=? n)%nat && (n <=? 13)%nat) || (n =? 32)%nat.

End Str.

(** ** The bitrate pattern

    [/bitrate=\s*(\d+\.\d+|\d+)\s*kbits\/s/], the pattern of the log
    handler.  The white space and digit runs are followed by characters of
    another class, so the greedy choice is the only one that can succeed and
    no backtracking inside a run is needed; the two alternatives of the
    group are tried in order. *)

Module Bitrate.

(** [\s*kbits\/s] at the start of [s]. *)
Definition unitFollows (s : string) : bool :=
  String.prefix "kbits/s" (snd (Str.span Str.isSpace s)).

(** The pattern anchored at the start of [s]; the result is group 1. *)
Definition matchHere (s : string) : option string :=
  match Str.strip "bitrate=" s with
  | None => None
  | Some r =>
      let (d1, r1) := Str.span Str.isDigit (snd (Str.span Str.isSpace r)) in
      if Str.isEmpty d1 then None
      else
        let decimal :=
          match r1 with
          | String "." r2 =>
              let (d2, r3) := Str.span Str.isDigit r2 in
              if Str.isEmpty d2 then None
              else if unitFollows r3 then Some (d1 +:+ "." +:+ d2)
              else None
          | _ => None
          end in
        match decimal with
        | Some g => Some g
        | None => if unitFollows r1 then Some d1 else None
        end
  end.

(** [message.match(pattern)]: the leftmost match; the result is group 1. *)
Fixpoint search (message : string) : option string :=
  match matchHere message with
  | Some g => Some g
  | None =>
      match message with
      | EmptyString => None
      | String _ rest => search rest
      end
  end.

End Bitrate.

(** ** JSON

    The value [JSON.parse] builds and the grammar it accepts (ECMA-404).
    A number is kept as the rational its literal denotes.  An object is its
    members in insertion order; a repeated key keeps its place and takes the
    last value, as a property assignment does.  A [\uXXXX] escape is stored
    as the UTF-8 bytes of its code unit. *)

Inductive json : Type :=
  | JNull
  | JBool (b : bool)
  | JNumber (q : Q)
  | JString (s : string)
  | JArray (items : list json)
  | JObject (members : list (string * json)).

Module JSON.

Definition isWs (a : ascii) : bool :=
  let n := nat_of_ascii a in
  (n =? 32)%nat || (n =? 9)%nat || (n =? 10)%nat || (n =? 13)%nat.

Definition skipWs (s : string) : string := snd (Str.span isWs s).

(** The quotation mark. *)
Definition quote : ascii := ascii_of_nat 34.

(** A text between quotation marks. *)
Definition quoted (s : string) : string :=
  String quote s +:+ String quote EmptyString.

Definition hexValue (a : ascii) : option nat :=
  let n := nat_of_ascii a in
  if (48 <=? n)%nat && (n <=? 57)%nat then Some (n - 48)%nat
  else if (65 <=? n)%nat && (n <=? 70)%nat then Some (n - 55)%nat
  else if (97 <=? n)%nat && (n <=? 102)%nat then Some (n - 87)%nat
  else None.

(** The UTF-8 bytes of a 16-bit code unit. *)
Definition utf8 (u : nat) : string :=
  let byte (n : nat) := String (ascii_of_nat n) EmptyString in
  if (u <? 128)%nat then byte u
  else if (u <? 2048)%nat then
    byte (192 + u / 64) +:+ byte (128 + u mod 64)
  else
    byte (224 + u / 4096) +:+ byte (128 + (u / 64) mod 64)
      +:+ byte (128 + u mod 64).

(** The characters of a string literal after its opening quote, up to and
    including the closing quote. *)
Fixpoint chars (s : string) : option (string * string) :=
  match s with
  | EmptyString => None
  | String c r =>
      if Ascii.eqb c quote then Some (EmptyString, r)
      else if Ascii.eqb c "\" then
        match r with
        | String e r' =>
            let simple (x : ascii) :=
              match chars r' with
              | Some (t, rest) => Some (String x t, rest)
              | None => None
              end in
            if Ascii.eqb e quote then simple quote
            else if Ascii.eqb e "\" then simple "\"%char
            else if Ascii.eqb e "/" then simple "/"%char
            else if Ascii.eqb e "b" then simple (ascii_of_nat 8)
            else if Ascii.eqb e "f" then simple (ascii_of_nat 12)
            else if Ascii.eqb e "n" then simple (ascii_of_nat 10)
            else if Ascii.eqb e "r" then simple (ascii_of_nat 13)
            else if Ascii.eqb e "t" then simple (ascii_of_nat 9)
            else if Ascii.eqb e "u" then
              match r' with
              | String h1 (String h2 (String h3 (String h4 r''))) =>
                  match hexValue h1, hexValue h2, hexValue h3, hexValue h4,
                        chars r'' with
                  | Some a, Some b, Some c', Some d, Some (t, rest) =>
                      Some (utf8 (((a * 16 + b) * 16 + c') * 16 + d) +:+ t,
                            rest)
                  | _, _, _, _, _ => None
                  end
              | _ => None
              end
            else None
        | EmptyString => None
        end
      else if (nat_of_ascii c <? 32)%nat then None
      else
        match chars r with
        | Some (t, rest) => Some (String c t, rest)
        | None => None
        end
  end.

(** The value of a run of decimal digits. *)
Definition digitsValue (d : string) : Z :=
  fold_left (fun acc a => (acc * 10 + Z.of_nat (nat_of_ascii a - 48))%Z)
            (list_ascii_of_string d) 0%Z.

(** A number literal: an optional minus sign, an integer part without a
    leading zero, an optional fraction and an optional exponent. *)
Definition numberLit (s : string) : option (Q * string) :=
  let (negative, s1) :=
    match s with
    | String "-" r => (true, r)
    | _ => (false, s)
    end in
  let (int, s2) := Str.span Str.isDigit s1 in
  let leadingZero :=
    match int with
    | String "0" (String _ _) => true
    | _ => false
    end in
  if Str.isEmpty int || leadingZero then None
  else
    let fraction :=
      match s2 with
      | String "." r =>
          let (f, s3) := Str.span Str.isDigit r in
          if Str.isEmpty f then None else Some (f, s3)
      | _ => Some (EmptyString, s2)
      end in
    match fraction with
    | None => None
    | Some (frac, s3) =>
        let exponent :=
          match s3 with
          | String x r =>
              if Ascii.eqb x "e" || Ascii.eqb x "E" then
                let (minus, r1) :=
                  match r with
                  | String "-" r' => (true, r')
                  | String "+" r' => (false, r')
                  | _ => (false, r)
                  end in
                let (e, s4) := Str.span Str.isDigit r1 in
                if Str.isEmpty e then None
                else Some (if minus then (- digitsValue e)%Z
                           else digitsValue e, s4)
              else Some (0%Z, s3)
          | EmptyString => Some (0%Z, s3)
          end in
        match exponent with
        | None => None
        | Some (e, s4) =>
            let mantissa := digitsValue (int +:+ frac) in
            let scale := (e - Z.of_nat (String.length frac))%Z in
            let magnitude :=
              Qred (inject_Z mantissa * Qpower (inject_Z 10) scale) in
            Some (if negative then Qopp magnitude else magnitude, s4)
        end
    end.

(** Assign member [k] of an object under construction. *)
Fixpoint assign (k : string) (v : json) (o : list (string * json))
  : list (string * json) :=
  match o with
  | [] => [(k, v)]
  | (k', v') :: o' =>
      if String.eqb k k' then (k', v) :: o' else (k', v') :: assign k v o'
  end.

(** Recursive descent; [fuel] bounds the depth of the calls. *)
Fixpoint value (fuel : nat) (s : string) : option (json * string) :=
  match fuel with
  | O => None
  | S fuel' =>
      match skipWs s with
      | String c r =>
          if Ascii.eqb c "n" then
            option_map (fun r' => (JNull, r')) (Str.strip "ull" r)
          else if Ascii.eqb c "t" then
            option_map (fun r' => (JBool true, r')) (Str.strip "rue" r)
          else if Ascii.eqb c "f" then
            option_map (fun r' => (JBool false, r')) (Str.strip "alse" r)
          else if Ascii.eqb c quote then
            option_map (fun '(t, r') => (JString t, r')) (chars r)
          else if Ascii.eqb c "[" then
            match skipWs r with
            | String "]" r' => Some (JArray [], r')
            | _ => option_map (fun '(l, r') => (JArray l, r'))
                              (elements fuel' r)
            end
          else if Ascii.eqb c "{" then
            match skipWs r with
            | String "}" r' => Some (JObject [], r')
            | _ => option_map (fun '(l, r') => (JObject l, r'))
                              (members fuel' [] r)
            end
          else
            option_map (fun '(q, r') => (JNumber q, r'))
                       (numberLit (String c r))
      | EmptyString => None
      end
  end

(** The elements of a non-empty array, up to its closing bracket. *)
with elements (fuel : nat) (s : string) : option (list json * string) :=
  match fuel with
  | O => None
  | S fuel' =>
      match value fuel' s with
      | None => None
      | Some (v, r) =>
          match skipWs r with
          | String "]" r' => Some ([v], r')
          | String "," r' =>
              option_map (fun '(l, r'') => (v :: l, r'')) (elements fuel' r')
          | _ => None
          end
      end
  end

(** The members of a non-empty object, up to its closing brace. *)
with members (fuel : nat) (acc : list (string * json)) (s : string)
  : option (list (string * json) * string) :=
  match fuel with
  | O => None
  | S fuel' =>
      match skipWs s with
      | String c r =>
          if Ascii.eqb c quote then
            match chars r with
            | None => None
            | Some (k, r1) =>
                match skipWs r1 with
                | String ":" r2 =>
                    match value fuel' r2 with
                    | None => None
                    | Some (v, r3) =>
                        let acc' := assign k v acc in
                        match skipWs r3 with
                        | String "}" r4 => Some (acc', r4)
                        | String "," r4 => members fuel' acc' r4
                        | _ => None
                        end
                    end
                | _ => None
                end
            end
          else None
      | EmptyString => None
      end
  end.

(** [JSON.parse(text)]: the value, or [None] where it throws a
    [SyntaxError]. *)
Definition parse (text : string) : option json :=
  match value (2 * String.length text + 2) text with
  | Some (v, r) => if Str.isEmpty (skipWs r) then Some v else None
  | None => None
  end.

End JSON.

(** ** The data of the source *)

(** [type ProcessStage = 'converting' | 'transcribing' | 'analyzing'] *)
Inductive ProcessStage : Type :=
  | Converting
  | Transcribing
  | Analyzing.

(** [interface ProcessingProgress] *)
Record ProcessingProgress : Type := mkProgress {
  converting : number;
  transcribing : number;
  analyzing : number
}.

(** [interface ProcessingDetails]; an absent field is [None].  The fields
    [size], [format] and [stage] of the source are [byteSize], [container]
    and [stageLabel] here. *)
Record ProcessingDetails : Type := mkDetails {
  bitrate : option string;
  sampleRate : option string;
  duration : option string;
  byteSize : option string;
  container : option string;
  stageLabel : option string
}.

(** [p[stage]] *)
Definition slot (p : ProcessingProgress) (stage : ProcessStage) : number :=
  match stage with
  | Converting => converting p
  | Transcribing => transcribing p
  | Analyzing => analyzing p
  end.

(** [p[stage] = v] *)
Definition setSlot (p : ProcessingProgress) (stage : ProcessStage) (v : number)
  : ProcessingProgress :=
  match stage with
  | Converting => mkProgress v (transcribing p) (analyzing p)
  | Transcribing => mkProgress (converting p) v (analyzing p)
  | Analyzing => mkProgress (converting p) (transcribing p) v
  end.

(** The record the class starts with. *)
Definition noProgress : ProcessingProgress :=
  mkProgress Num.zero Num.zero Num.zero.

(** A [File]: its name and its content. *)
Record File : Type := mkFile {
  fileName : string;
  fileBytes : list Byte.byte
}.

(** A [Blob]: its content and its media type. *)
Record Blob : Type := mkBlob {
  blobBytes : list Byte.byte;
  blobType : string
}.

(** A thrown value: an [Error] (or an instance of a subclass) with its
    message, or a value for which [instanceof Error] is false. *)
Inductive Thrown : Type :=
  | Error (message : string)
  | NonError.

(** How a call ends. *)
Inductive Outcome (A : Type) : Type :=
  | Returned (a : A)
  | Threw (e : Thrown).
Arguments Returned {A} a.
Arguments Threw {A} e.

(** [AbortController]; [aborted] is [signal.aborted]. *)
Record AbortController : Type := mkAbortController {
  aborted : bool
}.

(** ** The environment

    Everything the source does not contain: the transcoder engine, the two
    services, the network and the consumer.  A run meets its environment at
    its suspensions ([await] of an external promise), which are numbered in
    the order they occur. *)

(** What the engine emits on its event streams. *)
Inductive EngineEvent : Type :=
  | ProgressEvent (progress time : number)
  | LogEvent (message : string).

(** What happens while a suspension is pending: the engine emits events,
    and the consumer may call [cancel()]. *)
Record Interlude : Type := mkInterlude {
  emitted : list EngineEvent;
  cancelRequested : bool
}.

(** The answer of the analysis service: [choices[i].message.content] is
    the [content] of the choice [i]; [None] is [null]. *)
Record ChatChoice : Type := mkChoice {
  content : option string
}.

Record ChatCompletion : Type := mkCompletion {
  choices : list ChatChoice
}.

Record Env : Type := mkEnv {
  (** [import.meta.env.VITE_OPENAI_API_KEY] *)
  apiKey : option string;
  (** what happens while suspension [n] is pending *)
  interlude : nat -> Interlude;
  (** whether the external call awaited at suspension [n] fails, and with
      what *)
  fault : nat -> option Thrown;
  (** the output the transcode awaited at suspension [n] leaves in working
      storage, if any *)
  execOutput : nat -> option (list Byte.byte);
  (** the text the transcription service answers at suspension [n] *)
  transcriptionText : nat -> string;
  (** the answer of the analysis service at suspension [n] *)
  completion : nat -> ChatCompletion;
  (** what the engine rejects a pending call with when it is terminated *)
  terminatedError : Thrown;
  (** what the engine rejects a call with when it is not loaded *)
  notLoadedError : Thrown;
  (** what the engine rejects a read of a missing entry with *)
  noEntryError : Thrown;
  (** the message of the [SyntaxError] of [JSON.parse] on an invalid text *)
  syntaxErrorMessage : string -> string;
  (** the host's rendering of [Math.round(time * 100) / 100] *)
  roundedText : number -> string
}.

(** ** The world *)

(** An instance of the transcoder engine: whether it is loaded, whether
    the handlers of [ensureFFmpeg] are registered on it, and its working
    storage.  [serial] tells the instances apart. *)
Record FFmpeg : Type := mkFFmpeg {
  serial : nat;
  loaded : bool;
  listening : bool;
  files : gmap string (list Byte.byte)
}.

(** What an observer of a run sees, in order. *)
Inductive Event : Type :=
  | NewFFmpeg (serial : nat)
  | Fetch (url : string)
  | Load
  | WriteFile (name : string)
  | Exec (args : list string)
  | ReadFile (name : string)
  | Terminate
  | TranscriptionRequest (file : Blob) (model language : string)
  | ChatRequest (model system user : string)
  | Callback (stage : ProcessStage) (snapshot : nat)
             (details : option ProcessingDetails).

(** The fields of an [AudioProcessor] ([ffmpeg], [initialized],
    [abortController], [progress]), the heap its progress records live
    in, and the run so far.  [progress] is a reference into [heap]; so is
    the snapshot of a [Callback]. *)
Record World : Type := mkWorld {
  env : Env;
  clock : nat;
  ffmpeg : FFmpeg;
  initialized : bool;
  abortController : option AbortController;
  progress : nat;
  heap : list ProcessingProgress;
  trace : list Event
}.

Definition setClock (n : nat) (w : World) : World :=
  mkWorld (env w) n (ffmpeg w) (initialized w) (abortController w)
          (progress w) (heap w) (trace w).

Definition setFFmpeg (f : FFmpeg) (w : World) : World :=
  mkWorld (env w) (clock w) f (initialized w) (abortController w)
          (progress w) (heap w) (trace w).

Definition setInitialized (b : bool) (w : World) : World :=
  mkWorld (env w) (clock w) (ffmpeg w) b (abortController w)
          (progress w) (heap w) (trace w).

Definition setAbortController (c : option AbortController) (w : World)
  : World :=
  mkWorld (env w) (clock w) (ffmpeg w) (initialized w) c
          (progress w) (heap w) (trace w).

Definition setHeap (h : list ProcessingProgress) (w : World) : World :=
  mkWorld (env w) (clock w) (ffmpeg w) (initialized w) (abortController w)
          (progress w) h (trace w).

Definition record (e : Event) (w : World) : World :=
  mkWorld (env w) (clock w) (ffmpeg w) (initialized w) (abortController w)
          (progress w) (heap w) (trace w ++ [e]).

(** The record at a reference. *)
Definition deref (h : list ProcessingProgress) (l : nat)
  : ProcessingProgress :=
  default noProgress (h !! l).

(** [new FFmpeg()] *)
Definition freshFFmpeg (n : nat) : FFmpeg := mkFFmpeg n false false ∅.

(** [new AudioProcessor(onProgress)]: the field initialisers and the
    constructor.  The callback is the observer of the [Callback] events: it
    reads what it is given and returns. *)
Definition newAudioProcessor (e : Env) : World :=
  mkWorld e 0 (freshFFmpeg 0) false None 0 [noProgress] [NewFFmpeg 0].

(** ** Computations

    A method is a function of the world that returns or throws. *)

Definition M (A : Type) : Type := World -> Outcome A * World.

Definition ret {A : Type} (a : A) : M A := fun w => (Returned a, w).

Definition throw {A : Type} (e : Thrown) : M A := fun w => (Threw e, w).

Definition bind {A B : Type} (m : M A) (k : A -> M B) : M B :=
  fun w =>
    match m w with
    | (Returned a, w') => k a w'
    | (Threw e, w') => (Threw e, w')
    end.

(** [try { body } catch (error) { handler }] *)
Definition tryCatch {A : Type} (body : M A) (handler : Thrown -> M A) : M A :=
  fun w =>
    match body w with
    | (Returned a, w') => (Returned a, w')
    | (Threw e, w') => handler e w'
    end.

Definition get : M World := fun w => (Returned w, w).

Definition modify (f : World -> World) : M unit :=
  fun w => (Returned tt, f w).

Declare Scope proc_scope.
Delimit Scope proc_scope with proc.
Notation "'let*' x ':=' m 'in' k" := (bind m (fun x => k))
  (at level 10, x name, m at level 100, k at level 200) : proc_scope.
Notation "m ';;' k" := (bind m (fun _ => k))
  (at level 100, k at level 200, right associativity) : proc_scope.
Local Open Scope proc_scope.

(** ** Progress reporting *)

(** [updateProgress(stage, value, details)]: the assignment writes the
    record [this.progress] refers to; the spread [{ ...this.progress }]
    allocates a new record with the same three slots, and the callback
    receives the reference to that one. *)
Definition updateProgress (stage : ProcessStage) (value : number)
    (details : option ProcessingDetails) : M unit :=
  fun w =>
    let l := progress w in
    let h := <[l := setSlot (deref (heap w) l) stage (clamp value)]> (heap w) in
    let snapshot := length h in
    (Returned tt,
     record (Callback stage snapshot details)
            (setHeap (h ++ [deref h l]) w)).

(** ** Cancellation *)

(** [ffmpeg.terminate()]: the worker goes, and its working storage with
    it; the registered handlers stay on the object. *)
Definition terminate : M unit :=
  modify (fun w =>
    let f := ffmpeg w in
    record Terminate
           (setFFmpeg (mkFFmpeg (serial f) false (listening f) ∅) w)).

(** [cancel()] up to its [await]: the token, if there is one, is signalled
    and dropped, and the engine is terminated.  The field [ffmpeg] always
    holds an object, so the second test succeeds. *)
Definition cancelBegin : M unit :=
  let* w := get in
  match abortController w with
  | Some _ =>
      modify (setAbortController (Some (mkAbortController true)));;
      modify (setAbortController None)
  | None => ret tt
  end;;
  terminate.

(** [cancel()] from its [await] on. *)
Definition cancelEnd : M unit :=
  modify (setInitialized false).

(** [cancel()], from the call to the end.  [terminate()] returns at once, so
    the [await] lasts one turn of the job queue.  A method of the processor
    that is suspended meanwhile resumes at the earliest in that turn, in
    its [catch] clause, which neither reads nor writes the flag; so for a
    call that is awaited, and for a call made while a method is suspended,
    the two parts act as one step.  A caller that does not await
    [cancel()] and calls a method in the same turn has that method start
    between the two parts. *)
Definition cancel : M unit :=
  cancelBegin;;
  cancelEnd.

(** ** The engine's events *)

Definition processingAudio : string := "Processing audio".

(** The handler of ['progress']. *)
Definition onEngineProgress (value time : number) : M unit :=
  let* w := get in
  updateProgress Converting value
    (Some (mkDetails None None
             (if Num.truthy time
              then Some (roundedText (env w) time +:+ "s processed")
              else None)
             None None (Some processingAudio))).

(** The handler of ['log']. *)
Definition onEngineLog (message : string) : M unit :=
  match Bitrate.search message with
  | Some g =>
      let* w := get in
      updateProgress Converting (converting (deref (heap w) (progress w)))
        (Some (mkDetails (Some (g +:+ " kbps")) None None None None
                         (Some processingAudio)))
  | None => ret tt
  end.

(** An event reaches the handlers if they are registered on the engine. *)
Definition deliver (e : EngineEvent) : M unit :=
  let* w := get in
  if listening (ffmpeg w) then
    match e with
    | ProgressEvent value time => onEngineProgress value time
    | LogEvent message => onEngineLog message
    end
  else ret tt.

Fixpoint deliverAll (es : list EngineEvent) : M unit :=
  match es with
  | [] => ret tt
  | e :: es' => deliver e;; deliverAll es'
  end.

(** ** Suspensions and external calls *)

(** The method waits for an external promise.  Meanwhile the engine's events
    are delivered and, if the consumer asks for it, [cancel()] runs.  The
    result is the number of the suspension and whether [cancel()] ran. *)
Definition suspend : M (nat * bool) :=
  let* w := get in
  let n := clock w in
  let i := interlude (env w) n in
  modify (setClock (S n));;
  deliverAll (emitted i);;
  (if cancelRequested i then cancel else ret tt);;
  ret (n, cancelRequested i).

(** The promise awaited at suspension [n] rejects if the environment says
    so; otherwise it fulfils with what [value] computes. *)
Definition settle {A : Type} (n : nat) (value : M A) : M A :=
  let* w := get in
  match fault (env w) n with
  | Some e => throw e
  | None => value
  end.

(** A call that goes over the network or reads the input: [cancel()] does
    not reach it. *)
Definition remoteCall {A : Type} (value : nat -> M A) : M A :=
  let* s := suspend in
  settle (fst s) (value (fst s)).

(** A call to the engine.  An engine that is not loaded rejects it at once
    (unless the call is [load] itself); an engine terminated while the call
    is pending rejects it. *)
Definition engineCall {A : Type} (e : Event) (needsLoaded : bool)
    (perform : nat -> M A) : M A :=
  modify (record e);;
  let* w := get in
  if needsLoaded && negb (loaded (ffmpeg w)) then throw (notLoadedError (env w))
  else
    let* s := suspend in
    if snd s then throw (terminatedError (env w))
    else settle (fst s) (perform (fst s)).

Definition setFiles (fs : gmap string (list Byte.byte)) (w : World) : World :=
  let f := ffmpeg w in
  setFFmpeg (mkFFmpeg (serial f) (loaded f) (listening f) fs) w.

(** [toBlobURL(url, mimeType)] *)
Definition toBlobURL (url mimeType : string) : M string :=
  modify (record (Fetch url));;
  remoteCall (fun _ => ret ("blob:" +:+ url)).

(** [fetchFile(file)] *)
Definition fetchFile (file : File) : M (list Byte.byte) :=
  remoteCall (fun _ => ret (fileBytes file)).

(** [ffmpeg.load({ coreURL, wasmURL, workerURL })] *)
Definition load (coreURL wasmURL workerURL : string) : M unit :=
  engineCall Load false (fun _ =>
    modify (fun w =>
      let f := ffmpeg w in
      setFFmpeg (mkFFmpeg (serial f) true (listening f) (files f)) w)).

(** [ffmpeg.writeFile(name, data)] *)
Definition writeFile (name : string) (data : list Byte.byte) : M unit :=
  engineCall (WriteFile name) true (fun _ =>
    modify (fun w => setFiles (<[name := data]> (files (ffmpeg w))) w)).

(** [ffmpeg.exec(args)]: the output path is the last argument.  The source
    does not look at the exit code. *)
Definition exec (args : list string) : M unit :=
  engineCall (Exec args) true (fun n =>
    let* w := get in
    match execOutput (env w) n with
    | Some out =>
        modify (setFiles (<[List.last args EmptyString := out]> (files (ffmpeg w))))
    | None => ret tt
    end).

(** [ffmpeg.readFile(name)] *)
Definition readFile (name : string) : M (list Byte.byte) :=
  engineCall (ReadFile name) true (fun _ =>
    let* w := get in
    match files (ffmpeg w) !! name with
    | Some d => ret d
    | None => throw (noEntryError (env w))
    end).

(** The message of the [TypeError] of the call [ffmpeg.rm(...)]; the
    wording is the host's. *)
Definition rmIsNotAFunction : string := "ffmpeg.rm is not a function".

(** [ffmpeg.rm(name)].  The class [FFmpeg] of the package the source imports
    removes an entry with [deleteFile]; it has no property [rm].  The call
    throws a [TypeError] before anything is asked of the engine. *)
Definition rm (name : string) : M unit :=
  throw (Error rmIsNotAFunction).

(** [openai.audio.transcriptions.create({ file, model, language })]; the
    result is the [text] of the answer. *)
Definition transcriptionsCreate (file : Blob) (model language : string)
  : M string :=
  modify (record (TranscriptionRequest file model language));;
  remoteCall (fun n => let* w := get in ret (transcriptionText (env w) n)).

(** [openai.chat.completions.create({ model, messages, response_format })] *)
Definition chatCompletionsCreate (model system user : string)
  : M ChatCompletion :=
  modify (record (ChatRequest model system user));;
  remoteCall (fun n => let* w := get in ret (completion (env w) n)).

(** ** The methods of [AudioProcessor] *)

Definition FFMPEG_CORE_VERSION : string := "0.12.6".

Definition operationCancelled : string := "Operation cancelled".

Definition loadFailedOffline : string :=
  "Failed to load audio processing components. Please check your internet connection.".

Definition loadFailed : string :=
  "Failed to initialize audio processing. Please try again.".

Definition invalidApiKey : string :=
  "Invalid or missing OpenAI API key. Please check your environment variables.".

(** The messages of the [TypeError]s of a property read on [null] and on
    [undefined]; the wording is the host's. *)
Definition readSignalOfNull : string :=
  "Cannot read properties of null (reading 'signal')".

Definition readMessageOfUndefined : string :=
  "Cannot read properties of undefined (reading 'message')".

(** [error instanceof Error ? error.message : 'Unknown error'] *)
Definition messageOrUnknown (error : Thrown) : string :=
  match error with
  | Error m => m
  | NonError => "Unknown error"
  end.

(** [error instanceof Error && error.message === text] *)
Definition messageIs (error : Thrown) (text : string) : bool :=
  match error with
  | Error m => String.eqb m text
  | NonError => false
  end.

(** [error instanceof Error && error.message.includes(text)] *)
Definition messageIncludes (error : Thrown) (text : string) : bool :=
  match error with
  | Error m => Str.includes m text
  | NonError => false
  end.

(** [ensureFFmpeg()].  The caller uses the returned object only as
    [this.ffmpeg], which no other method assigns, so the result is left
    out. *)
Definition ensureFFmpeg : M unit :=
  let* w := get in
  if initialized w then ret tt
  else
    tryCatch
      (let n := S (serial (ffmpeg w)) in
       modify (fun w => record (NewFFmpeg n) (setFFmpeg (freshFFmpeg n) w));;
       modify (fun w =>
         let f := ffmpeg w in
         setFFmpeg (mkFFmpeg (serial f) (loaded f) true (files f)) w);;
       let baseURL :=
         "https://unpkg.com/@ffmpeg/core@" +:+ FFMPEG_CORE_VERSION
           +:+ "/dist/umd" in
       let* coreURL :=
         toBlobURL (baseURL +:+ "/ffmpeg-core.js") "text/javascript" in
       let* wasmURL :=
         toBlobURL (baseURL +:+ "/ffmpeg-core.wasm") "application/wasm" in
       let* workerURL :=
         toBlobURL (baseURL +:+ "/ffmpeg-core.worker.js") "text/javascript" in
       load coreURL wasmURL workerURL;;
       modify (setInitialized true))
      (fun error =>
         if messageIncludes error "aborted"
         then throw (Error operationCancelled)
         else if messageIncludes error "failed to fetch"
         then throw (Error loadFailedOffline)
         else throw (Error loadFailed)).

(** ['input' + name.substring(name.lastIndexOf('.'))] *)
Definition inputFileNameOf (audioFile : File) : string :=
  "input" +:+ Str.fromLastDot (fileName audioFile).

Definition outputFileName : string := "output.wav".

Definition execArgs (inputFileName : string) : list string :=
  ["-i"; inputFileName; "-ar"; "16000"; "-ac"; "1"; "-c:a"; "pcm_s16le";
   "-progress"; "pipe:1"; outputFileName].

(** The statements of [convertToWav] after the test of the token: the
    input goes into working storage, the engine transcodes it, the result
    is read back, and the removal of the two entries is attempted. *)
Definition transcode (audioFile : File) : M Blob :=
  let inputFileName := inputFileNameOf audioFile in
  let* bytes := fetchFile audioFile in
  writeFile inputFileName bytes;;
  exec (execArgs inputFileName);;
  let* outputData := readFile outputFileName in
  rm inputFileName;;
  rm outputFileName;;
  ret (mkBlob outputData "audio/wav").

(** [convertToWav(audioFile)] *)
Definition convertToWav (audioFile : File) : M Blob :=
  modify (setAbortController (Some (mkAbortController false)));;
  tryCatch
    (ensureFFmpeg;;
     let* w := get in
     match abortController w with
     | None => throw (Error readSignalOfNull)
     | Some c =>
         if aborted c then throw (Error operationCancelled)
         else transcode audioFile
     end)
    (fun error =>
       if messageIs error operationCancelled then throw error
       else throw (Error ("Failed to convert audio: "
                            +:+ messageOrUnknown error))).

(** [this.abortController?.signal.aborted] as a condition. *)
Definition signalled (w : World) : bool :=
  match abortController w with
  | Some c => aborted c
  | None => false
  end.

(** [transcribeAudio(audioBlob)] *)
Definition transcribeAudio (audioBlob : Blob) : M string :=
  let* w := get in
  if signalled w then throw (Error operationCancelled)
  else
    tryCatch
      (updateProgress Transcribing Num.tenth None;;
       let* text := transcriptionsCreate audioBlob "whisper-1" "auto" in
       updateProgress Transcribing Num.one None;;
       ret text)
      (fun error =>
         if messageIncludes error "API key" then throw (Error invalidApiKey)
         else throw (Error ("Failed to transcribe audio: "
                              +:+ messageOrUnknown error))).

Definition systemPrompt : string :=
  "You are a meeting minutes expert. Analyze the transcription and segment it into topics, identifying action items and key points. Support both English and Spanish content.".

Definition userPrompt (transcription : string) : string :=
  "Please analyze this meeting transcription and return a JSON with topics, key points, and action items: "
    +:+ transcription.

(** [JSON.parse(response.choices[0].message.content)]; a [null] content is
    converted to the text [null] before it is parsed. *)
Definition parseFirstChoice (response : ChatCompletion) : M json :=
  match choices response with
  | [] => throw (Error readMessageOfUndefined)
  | c :: _ =>
      let text := default "null" (content c) in
      match JSON.parse text with
      | Some v => ret v
      | None =>
          let* w := get in throw (Error (syntaxErrorMessage (env w) text))
      end
  end.

(** [segmentByTopics(transcription)] *)
Definition segmentByTopics (transcription : string) : M json :=
  let* w := get in
  if signalled w then throw (Error operationCancelled)
  else
    tryCatch
      (updateProgress Analyzing Num.tenth None;;
       let* response :=
         chatCompletionsCreate "gpt-4" systemPrompt
                               (userPrompt transcription) in
       updateProgress Analyzing Num.one None;;
       parseFirstChoice response)
      (fun error =>
         if messageIncludes error "API key" then throw (Error invalidApiKey)
         else throw (Error ("Failed to analyze transcription: "
                              +:+ messageOrUnknown error))).

(** ** The consumer *)

(** What [handleClientFormSubmit] leaves on the screen. *)
Inductive Submission : Type :=
  | ErrorShown (message : string)
  | StateReset
  | MinutesShown (minutes : json).

Definition keyNotConfigured : string :=
  "OpenAI API key is not configured. Please add it to your .env file.".

(** [!import.meta.env.VITE_OPENAI_API_KEY] *)
Definition keyMissing (e : Env) : bool :=
  match apiKey e with
  | None => true
  | Some k => Str.isEmpty k
  end.

(** The three calls of [handleClientFormSubmit]. *)
Definition pipeline (audioFile : File) : M json :=
  let* wavBlob := convertToWav audioFile in
  let* transcription := transcribeAudio wavBlob in
  segmentByTopics transcription.

(** [err instanceof Error ? err.message : 'An error occurred'] *)
Definition errorMessageOf (err : Thrown) : string :=
  match err with
  | Error m => m
  | NonError => "An error occurred"
  end.

(** [handleClientFormSubmit(data)] of [App], for the selected [audioFile]:
    what it shows, and the run of the processor it created (no run when it
    created none). *)
Definition handleClientFormSubmit (e : Env) (audioFile : File)
  : Submission * list Event :=
  if keyMissing e then (ErrorShown keyNotConfigured, [])
  else
    match pipeline audioFile (newAudioProcessor e) with
    | (Returned processedMinutes, w) => (MinutesShown processedMinutes, trace w)
    | (Threw err, w) =>
        let errorMessage := errorMessageOf err in
        if String.eqb errorMessage operationCancelled then (StateReset, trace w)
        else (ErrorShown errorMessage, trace w)
    end.

(** * The components

    [AudioUploader], [ClientForm] and [App]: the state of [App], its
    handlers and what it renders.  A handler runs to its end before the
    next one starts, except [handleClientFormSubmit]: while it is
    suspended the callbacks of the processor set the progress status, and
    a click on the cancel button runs [handleCancel]. *)

Module App.

(** [ClientData] *)
Record ClientData : Type := mkClientData {
  clientName : string;
  meetingTitle : string;
  date : string
}.

(** [ProgressStatus] *)
Record ProgressStatus : Type := mkProgressStatus {
  stage : ProcessStage;
  progress : ProcessingProgress;
  details : option ProcessingDetails
}.

(** The state of [App], a field for each [useState].  Of the processor
    only whether there is one is kept: its own state is the world of its
    run. *)
Record State : Type := mkState {
  audioFile : option File;
  clientData : option ClientData;
  minutes : option json;
  processing : bool;
  error : option string;
  step : nat;
  audioProcessor : bool;
  progressStatus : ProgressStatus
}.

Definition initialProgressStatus : ProgressStatus :=
  mkProgressStatus Converting noProgress None.

(** The initial values of the eight [useState]. *)
Definition initialState : State :=
  mkState None None None false None 1 false initialProgressStatus.

Definition setMinutes (m : option json) (s : State) : State :=
  mkState (audioFile s) (clientData s) m (processing s) (error s) (step s)
          (audioProcessor s) (progressStatus s).

Definition setProcessing (b : bool) (s : State) : State :=
  mkState (audioFile s) (clientData s) (minutes s) b (error s) (step s)
          (audioProcessor s) (progressStatus s).

Definition setError (m : option string) (s : State) : State :=
  mkState (audioFile s) (clientData s) (minutes s) (processing s) m (step s)
          (audioProcessor s) (progressStatus s).

Definition setProgressStatus (p : ProgressStatus) (s : State) : State :=
  mkState (audioFile s) (clientData s) (minutes s) (processing s) (error s)
          (step s) (audioProcessor s) p.

(** [handleFileSelect(file)] *)
Definition handleFileSelect (file : File) (s : State) : State :=
  mkState (Some file) (clientData s) (minutes s) (processing s) None 2
          (audioProcessor s) (progressStatus s).

(** [resetState()] *)
Definition resetState (s : State) : State :=
  mkState None None None false None 1 false
          (mkProgressStatus Converting (mkProgress Num.zero Num.zero Num.zero)
                            None).

(** [handleCancel()], as far as the state of [App] goes; the call of
    [cancel()] on the processor is part of the run. *)
Definition handleCancel (s : State) : State :=
  if audioProcessor s then resetState s else s.

(** What happens in [App] while [handleClientFormSubmit] is suspended, for
    an event of the run of its processor: a callback sets the progress
    status to what it is given; the engine is terminated by [cancel()],
    which only [handleCancel] calls. *)
Definition observe (h : list ProcessingProgress) (s : State) (ev : Event)
  : State :=
  match ev with
  | Callback stage l details =>
      setProgressStatus (mkProgressStatus stage (deref h l) details) s
  | Terminate => handleCancel s
  | _ => s
  end.

(** [handleClientFormSubmit(data)], for the [audioFile] of the state the
    form was rendered in. *)
Definition handleClientFormSubmit (e : Env) (data : ClientData)
    (audioFile : File) (s : State) : State :=
  if keyMissing e then setError (Some keyNotConfigured) s
  else
    let s1 :=
      mkState (App.audioFile s) (Some data) (minutes s) true None 3 true
              (progressStatus s) in
    let run := pipeline audioFile (newAudioProcessor e) in
    let s2 := fold_left (observe (heap (snd run))) (trace (snd run)) s1 in
    match fst run with
    | Returned processedMinutes =>
        setProcessing false (setMinutes (Some processedMinutes) s2)
    | Threw err =>
        let errorMessage := errorMessageOf err in
        if String.eqb errorMessage operationCancelled then resetState s2
        else setProcessing false (setError (Some errorMessage) s2)
    end.

(** What [App] renders below its title and its three step marks. *)
Inductive Panel : Type :=
  | ConfigurationRequired
  | ErrorBanner (message : string)
  | AudioUploaderPanel
  | ReviewPanel (audioFile : File)
  | ProgressPanel (status : ProgressStatus)
  | MinutesDisplayPanel (minutes : json) (data : ClientData).

(** A condition [x && ...] of the markup. *)
Definition when {A : Type} (b : bool) (l : list A) : list A :=
  if b then l else [].

(** The [return] statements of [App]: the screen about the key, or the
    error, if it is a non-empty text, and the panel of the step. *)
Definition render (e : Env) (s : State) : list Panel :=
  if keyMissing e then [ConfigurationRequired]
  else
    match error s with
    | Some m => when (negb (Str.isEmpty m)) [ErrorBanner m]
    | None => []
    end
    ++ when (step s =? 1)%nat [AudioUploaderPanel]
    ++ when (step s =? 2)%nat
         match audioFile s with
         | Some f => [ReviewPanel f]
         | None => []
         end
    ++ when ((step s =? 3)%nat && processing s)
         [ProgressPanel (progressStatus s)]
    ++ when ((step s =? 3)%nat && negb (processing s))
         match minutes s, clientData s with
         | Some m, Some d => [MinutesDisplayPanel m d]
         | _, _ => []
         end.

(** [onDrop(acceptedFiles)] of [AudioUploader], with [handleFileSelect] as
    [onFileSelect]. *)
Definition onDrop (acceptedFiles : list File) (s : State) : State :=
  match acceptedFiles with
  | file :: _ => handleFileSelect file s
  | [] => s
  end.

(** What the user does between two runs: drop files on the uploader, or
    submit the form.  The cancel button is there only during a run. *)
Inductive Action : Type :=
  | Drop (acceptedFiles : list File)
  | Submit (data : ClientData).

(** The file of the review panel, if the panel is rendered. *)
Definition reviewed (panels : list Panel) : option File :=
  List.fold_right (fun p r =>
                     match p with
                     | ReviewPanel f => Some f
                     | _ => r
                     end)
                  None panels.

Definition uploaderShown (panels : list Panel) : bool :=
  List.existsb (fun p =>
                  match p with
                  | AudioUploaderPanel => true
                  | _ => false
                  end)
               panels.

(** An action on the screen rendered in an environment: it has an effect
    only through a panel that is rendered. *)
Definition act (e : Env) (a : Action) (s : State) : State :=
  match a with
  | Drop acceptedFiles =>
      if uploaderShown (render e s) then onDrop acceptedFiles s else s
  | Submit data =>
      match reviewed (render e s) with
      | Some f => handleClientFormSubmit e data f s
      | None => s
      end
  end.

(** A session: the actions of a user, each in the environment it meets. *)
Definition session (as_ : list (Env * Action)) (s : State) : State :=
  fold_left (fun s ea => act (fst ea) (snd ea) s) as_ s.

End App.

(** * The vocabulary of the properties *)

(** ** Worlds after a step *)

(** The world after [updateProgress(stage, value, details)]. *)
Definition published (stage : ProcessStage) (value : number)
    (details : option ProcessingDetails) (w : World) : World :=
  snd (updateProgress stage value details w).

(** The world after the handlers have seen the events [es]. *)
Definition delivered (es : list EngineEvent) (w : World) : World :=
  snd (deliverAll es w).

(** The world after [cancel()]. *)
Definition cancelled (w : World) : World := snd (cancel w).

(** The world in which a method resumes after a suspension. *)
Definition resumed (w : World) : World :=
  let i := interlude (env w) (clock w) in
  let w1 := delivered (emitted i) (setClock (S (clock w)) w) in
  if cancelRequested i then cancelled w1 else w1.

(** The record [this.progress] refers to. *)
Definition own (w : World) : ProcessingProgress :=
  deref (heap w) (progress w).

(** [this.progress] refers to a record of the heap. *)
Definition wf (w : World) : Prop := (progress w < length (heap w))%nat.

(** Two worlds that differ at most in the heap and in the trace. *)
Definition sameControl (w w' : World) : Prop :=
  env w' = env w /\ clock w' = clock w /\ ffmpeg w' = ffmpeg w
  /\ initialized w' = initialized w
  /\ abortController w' = abortController w /\ progress w' = progress w.

(** The fresh token of [convertToWav]. *)
Definition freshToken : option AbortController :=
  Some (mkAbortController false).

(** [f] with another working storage. *)
Definition withFiles (fs : gmap string (list Byte.byte)) (f : FFmpeg) : FFmpeg :=
  mkFFmpeg (serial f) (loaded f) (listening f) fs.

(** The fields of a world that steer a method. *)
Definition controls (w : World) (e : Env) (n : nat) (f : FFmpeg) (i : bool)
    (a : option AbortController) : Prop :=
  env w = e /\ clock w = n /\ ffmpeg w = f /\ initialized w = i
  /\ abortController w = a.

(** ** The errors of the [catch] clauses *)

(** What the [catch] clause of [convertToWav] throws for [error]. *)
Definition conversionError (error : Thrown) : Thrown :=
  if messageIs error operationCancelled then error
  else Error ("Failed to convert audio: " +:+ messageOrUnknown error).

(** What the [catch] clause of [transcribeAudio] throws for [error]. *)
Definition transcriptionError (error : Thrown) : Thrown :=
  if messageIncludes error "API key" then Error invalidApiKey
  else Error ("Failed to transcribe audio: " +:+ messageOrUnknown error).

(** What the [catch] clause of [segmentByTopics] throws for [error]. *)
Definition analysisError (error : Thrown) : Thrown :=
  if messageIncludes error "API key" then Error invalidApiKey
  else Error ("Failed to analyze transcription: " +:+ messageOrUnknown error).

(** The wrapper of the failures of the third stage. *)
Definition isAnalysisError (x : Thrown) : Prop :=
  exists m, x = Error ("Failed to analyze transcription: " +:+ m).

(** Why the third stage fails, if it does: the request, or the reading of
    its answer. *)
Definition analysisCause (w : World) : option Thrown :=
  match fault (env w) (clock w) with
  | Some x => Some x
  | None =>
      match choices (completion (env w) (clock w)) with
      | [] => Some (Error readMessageOfUndefined)
      | c :: _ =>
          match JSON.parse (default "null" (content c)) with
          | Some _ => None
          | None =>
              Some (Error (syntaxErrorMessage (env w)
                             (default "null" (content c))))
          end
      end
  end.

(** ** Slots and snapshots *)

(** A value the clamp leaves alone: what a slot holds after any update. *)
Definition settled (v : number) : Prop := clamp v = v.

(** A record of settled values. *)
Definition settledRecord (p : ProcessingProgress) : Prop :=
  settled (converting p) /\ settled (transcribing p) /\ settled (analyzing p).

(** A record of values of the unit interval. *)
Definition unitRecord (p : ProcessingProgress) : Prop :=
  Num.in_unit (converting p) /\ Num.in_unit (transcribing p)
  /\ Num.in_unit (analyzing p).

(** The records the callbacks of a run received, in the order of the
    calls. *)
Definition snapshots (w : World) : list ProcessingProgress :=
  flat_map (fun ev =>
              match ev with
              | Callback _ l _ => [deref (heap w) l]
              | _ => []
              end)
           (trace w).

(** No element is followed by a smaller one. *)
Fixpoint nondecreasing (l : list number) : bool :=
  match l with
  | a :: t =>
      match t with
      | b :: _ => Num.leb a b && nondecreasing t
      | [] => true
      end
  | [] => true
  end.

(** A call of [updateProgress]: its three arguments. *)
Definition Update : Type :=
  (ProcessStage * number * option ProcessingDetails)%type.

(** The world after a sequence of calls of [updateProgress]. *)
Fixpoint publishedAll (us : list Update) (w : World) : World :=
  match us with
  | [] => w
  | (stage, value, details) :: us' =>
      publishedAll us' (published stage value details w)
  end.

(** The detail the handler of the log attaches to a bitrate. *)
Definition bitrateDetails (g : string) : ProcessingDetails :=
  mkDetails (Some (g +:+ " kbps")) None None None None (Some processingAudio).

(** ** Relations between the worlds of a run *)

(** Every run of [m] relates the world it starts in to the world it ends
    in. *)
Definition respects {A : Type} (R : World -> World -> Prop) (m : M A) : Prop :=
  forall w, R w (snd (m w)).

(** A value the engine's handlers can call [updateProgress] with in a
    world: the converting slot the world already holds, or a value an
    engine event carries. *)
Definition forwardable (w : World) (v : number) : Prop :=
  v = converting (own w)
  \/ exists n time, In (ProgressEvent v time) (emitted (interlude (env w) n)).

(** The steps of a suspension: the clock advances, a progress value is
    forwarded from the engine, [cancel()] runs. *)
Class Quiescent (R : World -> World -> Prop) : Prop := {
  quiescent_preorder :: PreOrder R;
  step_clock : forall (w : World) n, R w (setClock n w);
  step_forward :
    forall (w : World) value details,
      forwardable w value -> R w (published Converting value details w);
  step_cancel : forall w : World, R w (cancelled w)
}.

(** The other steps of a method that has its engine: an event an observer
    may see, a report of the second or third stage, a write to the working
    storage, a fresh token. *)
Class Stepwise (R : World -> World -> Prop) (visible : Event -> Prop)
  : Prop := {
  stepwise_quiescent :: Quiescent R;
  step_record :
    forall (w : World) (e : Event), visible e -> R w (record e w);
  step_report :
    forall (w : World) stage value,
      stage <> Converting -> value = Num.tenth \/ value = Num.one ->
      R w (published stage value None w);
  step_files :
    forall (w : World) fs, R w (setFiles fs w);
  step_newToken :
    forall w : World,
      R w (setAbortController (Some (mkAbortController false)) w)
}.

(** The steps of the initialisation of the engine: a write to the field
    [ffmpeg] or to the flag. *)
Class Initialising (R : World -> World -> Prop) : Prop := {
  step_ffmpeg : forall (w : World) f, R w (setFFmpeg f w);
  step_initialized : forall (w : World) b, R w (setInitialized b w)
}.

(** The frame of the heap: a step allocates records and writes the one
    [this.progress] refers to; every other record stays as it is. *)
Definition frame (w w' : World) : Prop :=
  progress w' = progress w
  /\ (length (heap w) <= length (heap w'))%nat
  /\ forall l, (l < length (heap w))%nat -> l <> progress w ->
               heap w' !! l = heap w !! l.

(** The preorder of an invariant. *)
Definition keeps (I : World -> Prop) (w w' : World) : Prop := I w -> I w'.

(** No restriction on the events of a run. *)
Definition anyEvent (e : Event) : Prop := True.

(** The trace only grows, and by events of a given kind. *)
Definition extends (P : Event -> Prop) (w w' : World) : Prop :=
  exists s, trace w' = trace w ++ s /\ Forall P s.

(** An event that is not part of the initialisation of an engine. *)
Definition notInitialization (ev : Event) : Prop :=
  match ev with
  | NewFFmpeg _ | Fetch _ | Load => False
  | _ => True
  end.

(** From [w] to [w'] the trace only grows. *)
Definition grows (w w' : World) : Prop :=
  exists s, trace w' = trace w ++ s.

(** The run from [w] to [w'] shows [ev]: the event is among those the
    trace has grown by. *)
Definition shows (ev : Event) (w w' : World) : Prop :=
  exists s, trace w' = trace w ++ s /\ In ev s.

(** ** Invariants *)

(** No token the processor holds is signalled. *)
Definition unsignalled (w : World) : Prop := signalled w = false.

(** Every record of the heap holds settled values. *)
Definition settledHeap (w : World) : Prop := Forall settledRecord (heap w).

(** No progress event carries NaN. *)
Definition numericEvent (e : EngineEvent) : Prop :=
  match e with
  | ProgressEvent value _ => value <> NaN
  | LogEvent _ => True
  end.

(** No progress event of the environment carries NaN. *)
Definition numericEnv (e : Env) : Prop :=
  forall n, Forall numericEvent (emitted (interlude e n)).

(** The engine reports numbers, and every record of the heap holds values of
    the unit interval. *)
Definition unitHeap (w : World) : Prop :=
  numericEnv (env w) /\ Forall unitRecord (heap w).

(** ** What an observer sees of a stage *)

(** The request of the second stage. *)
Definition transcriptionRequest (audioBlob : Blob) : Event :=
  TranscriptionRequest audioBlob "whisper-1" "auto".

(** The request of the third stage. *)
Definition chatRequest (transcription : string) : Event :=
  ChatRequest "gpt-4" systemPrompt (userPrompt transcription).

(** What an observer sees while a method is suspended: callbacks of the
    first stage whose snapshots carry the other two slots of the world, and
    the engine being terminated. *)
Definition bystander (w w' : World) (ev : Event) : Prop :=
  match ev with
  | Callback stage l _ =>
      stage = Converting
      /\ (length (heap w) <= l < length (heap w'))%nat
      /\ forall s, s <> Converting ->
                   slot (deref (heap w') l) s = slot (own w) s
  | Terminate => True
  | _ => False
  end.

(** A suspension, seen from a world whose [this.progress] is in the heap:
    the heap is framed, the second and third slot stay, the trace grows by
    what a bystander sees. *)
Definition aside (w w' : World) : Prop :=
  wf w ->
  frame w w'
  /\ (forall s, s <> Converting -> slot (own w') s = slot (own w) s)
  /\ exists mid, trace w' = trace w ++ mid /\ Forall (bystander w w') mid.



(** How many times an engine was loaded in a run. *)
Definition loads (t : list Event) : nat :=
  length (List.filter (fun ev => match ev with Load => true | _ => false end)
                      t).

(** ** Environments that leave a method alone *)

(** Nobody cancels and nothing fails at suspension [n]. *)
Definition quiet (e : Env) (n : nat) : Prop :=
  cancelRequested (interlude e n) = false /\ fault e n = None.

(** From suspension [n] on, for [k] suspensions, nobody cancels and no
    call fails. *)
Definition undisturbed (e : Env) (n k : nat) : Prop :=
  forall j, (j < k)%nat -> quiet e (j + n).

(** Nobody cancels and nothing fails at the next suspension of a world. *)
Definition quietAt (w : World) : Prop := quiet (env w) (clock w).

(** The working storage after a conversion that nothing disturbs: the
    input and the output are both still there. *)
Definition storageAfter (audioFile : File) (out : list Byte.byte)
    (fs : gmap string (list Byte.byte)) : gmap string (list Byte.byte) :=
  <[outputFileName := out]>
    (<[inputFileNameOf audioFile := fileBytes audioFile]> fs).

(** What a conversion throws when its clean-up is reached. *)
Definition cleanupError : Thrown :=
  Error ("Failed to convert audio: " +:+ rmIsNotAFunction).

(** ** Sample inputs and environments *)

(** No event, no cancellation. *)
Definition quietly : nat -> Interlude := fun _ => mkInterlude [] false.

(** The bytes the sample transcode leaves: RIFF. *)
Definition sampleWav : list Byte.byte := [x52; x49; x46; x46].

(** The sample input: a file named meeting.mp3. *)
Definition sampleFile : File := mkFile "meeting.mp3" [x49; x44; x33].

(** The output of the sample transcode as audio/wav. *)
Definition sampleBlob : Blob := mkBlob sampleWav "audio/wav".

(** The transcript of the example of the specification. *)
Definition sampleTranscript : string :=
  "We discussed the budget and agreed to send a proposal by Friday.".

(** The answer of the stub analysis service of the specification. *)
Definition budgetText : string :=
  "{" +:+ JSON.quoted "topics" +:+ ":[{"
    +:+ JSON.quoted "title" +:+ ":" +:+ JSON.quoted "Budget" +:+ ","
    +:+ JSON.quoted "keyPoints" +:+ ":[" +:+ JSON.quoted "Discussed budget"
    +:+ "],"
    +:+ JSON.quoted "actionItems" +:+ ":["
    +:+ JSON.quoted "Send proposal by Friday" +:+ "]}]}".

(** The minutes the specification expects for it. *)
Definition budgetMinutes : json :=
  JObject
    [("topics",
      JArray
        [JObject
           [("title", JString "Budget");
            ("keyPoints", JArray [JString "Discussed budget"]);
            ("actionItems", JArray [JString "Send proposal by Friday"])]])].

(** A payload without any of the expected members, and an empty
    transcript. *)
Definition shapelessText : string := "{" +:+ JSON.quoted "note" +:+ ":42}".

(** An environment in which nothing goes wrong: the engine is silent, the
    consumer does not cancel, every call succeeds. *)
Definition sampleEnv : Env :=
  mkEnv (Some "sk-sample") quietly (fun _ => None) (fun _ => Some sampleWav)
        (fun _ => sampleTranscript)
        (fun _ => mkCompletion [mkChoice (Some budgetText)])
        (Error "called FFmpeg.terminate()")
        (Error "ffmpeg is not loaded, call `await ffmpeg.load()` first")
        NonError
        (fun _ => "Unexpected token in JSON")
        (fun _ => "8.19").

(** The environment [e] with interlude [i] at suspension [n]. *)
Definition during (n : nat) (i : Interlude) (e : Env) : Env :=
  mkEnv (apiKey e) (fun k => if (k =? n)%nat then i else interlude e k)
        (fault e) (execOutput e) (transcriptionText e) (completion e)
        (terminatedError e) (notLoadedError e) (noEntryError e)
        (syntaxErrorMessage e) (roundedText e).

(** The environment [e] with the call awaited at suspension [n] failing
    with [x]. *)
Definition failing (n : nat) (x : Thrown) (e : Env) : Env :=
  mkEnv (apiKey e) (interlude e)
        (fun k => if (k =? n)%nat then Some x else fault e k)
        (execOutput e) (transcriptionText e) (completion e)
        (terminatedError e) (notLoadedError e) (noEntryError e)
        (syntaxErrorMessage e) (roundedText e).

(** The environment [e] with the analysis service answering [c]. *)
Definition answering (c : ChatCompletion) (e : Env) : Env :=
  mkEnv (apiKey e) (interlude e) (fault e) (execOutput e)
        (transcriptionText e) (fun _ => c)
        (terminatedError e) (notLoadedError e) (noEntryError e)
        (syntaxErrorMessage e) (roundedText e).

(** The environment [e] without a credential. *)
Definition withoutKey (e : Env) : Env :=
  mkEnv None (interlude e) (fault e) (execOutput e)
        (transcriptionText e) (completion e)
        (terminatedError e) (notLoadedError e) (noEntryError e)
        (syntaxErrorMessage e) (roundedText e).

(** An engine that reports a half and then a quarter while it transcodes
    (suspension 6 of the first conversion of a processor). *)
Definition droppingEnv : Env :=
  during 6 (mkInterlude [ProgressEvent (Finite (1 # 2)) (Finite 4);
                         ProgressEvent (Finite (1 # 4)) (Finite 5)] false)
         sampleEnv.

(** An engine that reports NaN. *)
Definition nanEnv : Env :=
  during 6 (mkInterlude [ProgressEvent NaN (Finite 4)] false) sampleEnv.

(** An engine that reports values outside the unit interval. *)
Definition wildEnv : Env :=
  during 6 (mkInterlude [ProgressEvent (Finite (-1 # 2)) (Finite 4);
                         ProgressEvent (Finite (3 # 2)) (Finite 5);
                         ProgressEvent PosInfinity (Finite 6);
                         ProgressEvent NegInfinity (Finite 7)] false)
         sampleEnv.

(** The consumer cancels while the transcode is pending (suspension 6 of
    the first conversion of a processor). *)
Definition cancelDuringExec : Env :=
  during 6 (mkInterlude [] true) sampleEnv.

(** The consumer cancels while the first component of the engine is being
    fetched (suspension 0). *)
Definition cancelDuringFetch : Env :=
  during 0 (mkInterlude [] true) sampleEnv.

(** The transcode fails (suspension 6). *)
Definition execFails : Env :=
  failing 6 (Error "Conversion failed") sampleEnv.

(** The transcode leaves no output, so that the read-back fails. *)
Definition noOutput : Env :=
  mkEnv (apiKey sampleEnv) (interlude sampleEnv) (fault sampleEnv)
        (fun _ => None) (transcriptionText sampleEnv) (completion sampleEnv)
        (terminatedError sampleEnv) (notLoadedError sampleEnv)
        (noEntryError sampleEnv) (syntaxErrorMessage sampleEnv)
        (roundedText sampleEnv).

(** An engine that reports the transcode complete. *)
Definition completingEnv : Env :=
  during 6 (mkInterlude [ProgressEvent (Finite (1 # 2)) (Finite 4);
                         LogEvent "size=128kB time=00:00:08.19 bitrate= 128.0kbits/s";
                         ProgressEvent (Finite 1) (Finite 8)] false)
         sampleEnv.

(** ** Numerals and white space *)

(** Every character of [s] satisfies [f]. *)
Fixpoint every (f : ascii -> bool) (s : string) : bool :=
  match s with
  | EmptyString => true
  | String a s' => f a && every f s'
  end.

(** A run of at least one digit. *)
Definition isDigits (s : string) : bool :=
  negb (Str.isEmpty s) && every Str.isDigit s.

(** What the group of the bitrate pattern matches: digits, or digits, a dot
    and digits. *)
Definition isNumeral (g : string) : bool :=
  let (a, r) := Str.span Str.isDigit g in
  negb (Str.isEmpty a) &&
  match r with
  | EmptyString => true
  | String c b => Ascii.eqb c "." && isDigits b
  end.

(** A character below 128. *)
Definition isAscii (a : ascii) : bool := (nat_of_ascii a <? 128)%nat.

(** The first character of [s], if any, fails [f]. *)
Definition stops (f : ascii -> bool) (s : string) : Prop :=
  match s with
  | String a _ => f a = false
  | EmptyString => True
  end.

(** ** Sequences of calls *)

(** The calls a consumer can make on a processor. *)
Inductive Call : Type :=
  | CallCancel
  | CallConvertToWav (audioFile : File)
  | CallTranscribeAudio (audioBlob : Blob)
  | CallSegmentByTopics (transcription : string).

(** The world after a call has ended, whichever way. *)
Definition after (c : Call) (w : World) : World :=
  match c with
  | CallCancel => snd (cancel w)
  | CallConvertToWav audioFile => snd (convertToWav audioFile w)
  | CallTranscribeAudio audioBlob => snd (transcribeAudio audioBlob w)
  | CallSegmentByTopics transcription => snd (segmentByTopics transcription w)
  end.

(** The world after a sequence of calls, each made when the one before has
    ended. *)
Definition afterAll (cs : list Call) (w : World) : World :=
  fold_left (fun w c => after c w) cs w.

(** ** Relations a run respects, one suspension at a time *)

(** An event a method records when it calls the engine, the network or a
    service. *)
Definition isCall (ev : Event) : Prop :=
  match ev with
  | Callback _ _ _ | Terminate => False
  | _ => True
  end.

(** The steps of a method when a suspension counts as one step, so that a
    relation may tell what the environment did during it: a suspension, an
    event an observer may be shown, a report of a stage that may be
    reported, a write to the field [ffmpeg], the flag set, a fresh
    token. *)
Class Run (R : World -> World -> Prop) (visible : Event -> Prop)
    (reported : ProcessStage -> Prop) : Prop := {
  run_preorder :: PreOrder R;
  run_suspension : forall w : World, R w (resumed w);
  run_record : forall (w : World) (e : Event), visible e -> R w (record e w);
  run_report :
    forall (w : World) stage value,
      reported stage -> value = Num.tenth \/ value = Num.one ->
      R w (published stage value None w);
  run_ffmpeg : forall (w : World) f, R w (setFFmpeg f w);
  run_initialized : forall w : World, R w (setInitialized true w);
  run_newToken :
    forall w : World,
      R w (setAbortController (Some (mkAbortController false)) w)
}.

(** A report made by one of the two handlers of the engine's events. *)
Definition engineReport (ev : Event) : Prop :=
  match ev with
  | Callback stage _ (Some details) =>
      stage = Converting /\ stageLabel details = Some processingAudio
  | _ => False
  end.

(** What an observer may see of a conversion: its calls to the network and
    to the engine, the engine's reports, the engine being terminated. *)
Definition conversionEvent (ev : Event) : Prop :=
  match ev with
  | TranscriptionRequest _ _ _ | ChatRequest _ _ _ => False
  | Callback _ _ _ => engineReport ev
  | _ => True
  end.

(** Only the slots of the stages [changed] differ. *)
Definition onlyStages (changed : ProcessStage -> Prop) (w w' : World) : Prop :=
  wf w ->
  wf w' /\ forall s, ~ changed s -> slot (own w') s = slot (own w) s.

(** The engine emits nothing. *)
Definition silent (e : Env) : Prop := forall n, emitted (interlude e n) = [].

(** An event that is no call of the consumer's callback. *)
Definition notCallback (ev : Event) : Prop :=
  match ev with
  | Callback _ _ _ => False
  | _ => True
  end.

(** With a silent engine nothing is reported and no record is written or
    allocated. *)
Definition unreported (w w' : World) : Prop :=
  env w' = env w
  /\ (silent (env w) ->
      heap w' = heap w /\ progress w' = progress w
      /\ extends notCallback w w').

(** The engine is terminated exactly when the consumer cancels: between
    [w] and [w'] the trace gains an event [Terminate] if and only if a
    cancellation was requested at one of the suspensions met. *)
Definition cancelMarked (w w' : World) : Prop :=
  env w' = env w /\ (clock w <= clock w')%nat
  /\ exists s,
       trace w' = trace w ++ s
       /\ (In Terminate s
           <-> exists n, (clock w <= n < clock w')%nat
                         /\ cancelRequested (interlude (env w) n) = true).

(** ** The values a slot shows *)

(** The values of the slot of [stage] in the records the callbacks
    received, in the order of the calls. *)
Definition shown (stage : ProcessStage) (w : World) : list number :=
  map (fun p => slot p stage) (snapshots w).

(** [this.progress] refers to a record of the heap, and every record a
    callback received is another record of the heap. *)
Definition handedOut (w : World) : Prop :=
  wf w
  /\ forall stage l details,
       In (Callback stage l details) (trace w) ->
       (l < length (heap w))%nat /\ l <> progress w.

(** What an observer sees while the slot of [stage] is not written:
    callbacks whose records are new and carry the slot as the world had it,
    and events that are no callback. *)
Definition showing (stage : ProcessStage) (w w' : World) (ev : Event) : Prop :=
  match ev with
  | Callback _ l _ =>
      (length (heap w) <= l < length (heap w'))%nat
      /\ slot (deref (heap w') l) stage = slot (own w) stage
  | _ => True
  end.

(** From [w] to [w'] the slot of [stage] is not written: it stays, and
    every callback in between is shown it as it was. *)
Definition slotKept (stage : ProcessStage) (w w' : World) : Prop :=
  wf w ->
  frame w w'
  /\ slot (own w') stage = slot (own w) stage
  /\ exists mid, trace w' = trace w ++ mid /\ Forall (showing stage w w') mid.

(** The slot of [stage] has not gone down so far: the values the callbacks
    were shown, followed by the value the slot holds, never decrease. *)
Definition rising (stage : ProcessStage) (w : World) : Prop :=
  handedOut w
  /\ slot (own w) stage <> NaN
  /\ nondecreasing (shown stage w ++ [slot (own w) stage]) = true.

(** [c] is a call of the method of [stage]. *)
Definition callsStage (stage : ProcessStage) (c : Call) : bool :=
  match stage, c with
  | Converting, CallConvertToWav _
  | Transcribing, CallTranscribeAudio _
  | Analyzing, CallSegmentByTopics _ => true
  | _, _ => false
  end.

(** How many times the method of [stage] is called in [cs]. *)
Definition timesCalled (stage : ProcessStage) (cs : list Call) : nat :=
  length (List.filter (callsStage stage) cs).

(** The records the callbacks of the events [t] received, read in the heap
    [h]. *)
Definition received (h : list ProcessingProgress) (t : list Event)
  : list ProcessingProgress :=
  flat_map (fun ev =>
              match ev with
              | Callback _ l _ => [deref h l]
              | _ => []
              end)
           t.

(** ** The flag of the engine *)

(** Nobody cancels from suspension [n] on. *)
Definition uncancelledFrom (e : Env) (n : nat) : Prop :=
  forall k, (n <= k)%nat -> cancelRequested (interlude e k) = false.


(** * Properties *)

(** ** Clamping *)

Section Clamp.

Lemma clamp_NaN : clamp NaN = NaN.
Proof. reflexivity. Qed.

(** The clamp of a finite value, case by case. *)
Lemma clamp_Finite (q : Q) :
  clamp (Finite q) =
  if Qle_bool 0 q then (if Qle_bool 1 q then Num.one else Finite q)
  else Num.zero.
Proof.
  unfold clamp, Num.max; cbn [Num.isNaN orb Num.leb Num.zero].
  destruct (Qle_bool 0 q) eqn:H0; unfold Num.min;
    cbn [Num.isNaN orb Num.leb Num.one]; reflexivity.
Qed.

(** Whatever is not NaN lands in the unit interval. *)
Lemma clamp_in_unit (v : number) : v <> NaN -> Num.in_unit (clamp v).
Proof.
  intros Hv. destruct v as [| |q|]; try congruence;
    try (cbn; split; discriminate).
  rewrite clamp_Finite.
  destruct (Qle_bool 0 q) eqn:H0; [|cbn; split; discriminate].
  destruct (Qle_bool 1 q) eqn:H1; [cbn; split; discriminate|].
  cbn. apply Qle_bool_iff in H0. split; [exact H0|].
  destruct (Qlt_le_dec q 1) as [Hlt|Hge].
  - apply Qlt_le_weak; exact Hlt.
  - apply Qle_bool_iff in Hge. congruence.
Qed.

(** Clamping twice is clamping once. *)
Lemma clamp_idem (v : number) : clamp (clamp v) = clamp v.
Proof.
  destruct v as [| |q|]; try reflexivity.
  rewrite clamp_Finite.
  destruct (Qle_bool 0 q) eqn:H0; [|reflexivity].
  destruct (Qle_bool 1 q) eqn:H1; [reflexivity|].
  rewrite clamp_Finite, H0, H1. reflexivity.
Qed.

(** The two values the source reports itself. *)
Lemma clamp_tenth : clamp Num.tenth = Num.tenth.
Proof. reflexivity. Qed.

Lemma clamp_one : clamp Num.one = Num.one.
Proof. reflexivity. Qed.

End Clamp.

Lemma slot_setSlot_same (p : ProcessingProgress) (s : ProcessStage) (v : number) :
  slot (setSlot p s v) s = v.
Proof. destruct s; reflexivity. Qed.

Lemma slot_setSlot_other (p : ProcessingProgress) (s s' : ProcessStage)
    (v : number) :
  s <> s' -> slot (setSlot p s v) s' = slot p s'.
Proof. destruct s, s'; intros H; try reflexivity; congruence. Qed.

Lemma settledRecord_setSlot (p : ProcessingProgress) (s : ProcessStage)
    (v : number) :
  settledRecord p -> settled v -> settledRecord (setSlot p s v).
Proof.
  intros (Hc & Ht & Ha) Hv. destruct s; repeat split; assumption.
Qed.

Lemma unitRecord_setSlot (p : ProcessingProgress) (s : ProcessStage)
    (v : number) :
  unitRecord p -> Num.in_unit v -> unitRecord (setSlot p s v).
Proof.
  intros (Hc & Ht & Ha) Hv. destruct s; repeat split; assumption.
Qed.

Lemma settledRecord_noProgress : settledRecord noProgress.
Proof. repeat split. Qed.

Lemma unitRecord_noProgress : unitRecord noProgress.
Proof. repeat split; discriminate. Qed.

(** ** What a suspension does to the world *)

Lemma sameControl_refl (w : World) : sameControl w w.
Proof. repeat split. Qed.

Lemma sameControl_trans (w1 w2 w3 : World) :
  sameControl w1 w2 -> sameControl w2 w3 -> sameControl w1 w3.
Proof.
  unfold sameControl. intros (?&?&?&?&?&?) (?&?&?&?&?&?).
  repeat split; congruence.
Qed.

Lemma updateProgress_eq stage value details (w : World) :
  updateProgress stage value details w
  = (Returned tt, published stage value details w).
Proof. reflexivity. Qed.

Lemma deliver_eq (e : EngineEvent) (w : World) :
  fst (deliver e w) = Returned tt /\ sameControl w (snd (deliver e w)).
Proof.
  unfold deliver, bind, get. destruct (listening (ffmpeg w)).
  - destruct e as [value time|message].
    + split; [reflexivity|repeat split].
    + unfold onEngineLog. destruct (Bitrate.search message).
      * split; [reflexivity|repeat split].
      * split; [reflexivity|repeat split].
  - split; [reflexivity|repeat split].
Qed.

Lemma deliverAll_eq (es : list EngineEvent) (w : World) :
  deliverAll es w = (Returned tt, delivered es w)
  /\ sameControl w (delivered es w).
Proof.
  unfold delivered. revert w.
  induction es as [|e es IH]; intros w.
  - split; [reflexivity|apply sameControl_refl].
  - cbn [deliverAll]. unfold bind.
    destruct (deliver_eq e w) as [He Hc].
    destruct (deliver e w) as [o w1]. cbn [fst snd] in He, Hc. subst o.
    destruct (IH w1) as [Hes Hcs].
    split; [exact Hes|].
    eapply sameControl_trans; eassumption.
Qed.

Lemma cancel_eq (w : World) :
  cancel w =
  (Returned tt,
   mkWorld (env w) (clock w)
           (mkFFmpeg (serial (ffmpeg w)) false (listening (ffmpeg w)) ∅)
           false None (progress w) (heap w) (trace w ++ [Terminate])).
Proof.
  unfold cancel, bind, get, terminate, modify, ret.
  destruct w as [e c f i a p h t]. destruct a; reflexivity.
Qed.

Lemma cancelled_eq (w : World) :
  cancelled w =
  mkWorld (env w) (clock w)
          (mkFFmpeg (serial (ffmpeg w)) false (listening (ffmpeg w)) ∅)
          false None (progress w) (heap w) (trace w ++ [Terminate]).
Proof. unfold cancelled. rewrite cancel_eq. reflexivity. Qed.

Lemma suspend_eq (w : World) :
  suspend w
  = (Returned (clock w, cancelRequested (interlude (env w) (clock w))),
     resumed w).
Proof.
  unfold suspend, resumed, bind at 1, get.
  unfold bind at 1, modify.
  unfold bind at 1.
  destruct (deliverAll_eq (emitted (interlude (env w) (clock w)))
                          (setClock (S (clock w)) w)) as [Hd _].
  rewrite Hd. unfold bind.
  destruct (cancelRequested (interlude (env w) (clock w))).
  - unfold cancelled. rewrite cancel_eq. reflexivity.
  - reflexivity.
Qed.

Lemma resumed_env (w : World) : env (resumed w) = env w.
Proof.
  unfold resumed.
  destruct (deliverAll_eq (emitted (interlude (env w) (clock w)))
                          (setClock (S (clock w)) w)) as [_ (He&_)].
  destruct (cancelRequested _); [rewrite cancelled_eq|]; exact He.
Qed.

Lemma resumed_clock (w : World) : clock (resumed w) = S (clock w).
Proof.
  unfold resumed.
  destruct (deliverAll_eq (emitted (interlude (env w) (clock w)))
                          (setClock (S (clock w)) w)) as [_ (_&Hc&_)].
  destruct (cancelRequested _); [rewrite cancelled_eq|]; exact Hc.
Qed.

Lemma resumed_progress (w : World) : progress (resumed w) = progress w.
Proof.
  unfold resumed.
  destruct (deliverAll_eq (emitted (interlude (env w) (clock w)))
                          (setClock (S (clock w)) w)) as [_ (_&_&_&_&_&Hp)].
  destruct (cancelRequested _); [rewrite cancelled_eq|]; exact Hp.
Qed.

(** A suspension during which nobody cancels leaves the engine, the flag
    and the token as they were. *)
Lemma resumed_undisturbed (w : World) :
  cancelRequested (interlude (env w) (clock w)) = false ->
  ffmpeg (resumed w) = ffmpeg w
  /\ initialized (resumed w) = initialized w
  /\ abortController (resumed w) = abortController w.
Proof.
  intros Hq. unfold resumed. rewrite Hq.
  destruct (deliverAll_eq (emitted (interlude (env w) (clock w)))
                          (setClock (S (clock w)) w))
    as [_ (_&_&Hf&Hi&Ha&_)].
  repeat split; assumption.
Qed.

(** A suspension during which the consumer cancels. *)
Lemma resumed_cancelled (w : World) :
  cancelRequested (interlude (env w) (clock w)) = true ->
  loaded (ffmpeg (resumed w)) = false
  /\ files (ffmpeg (resumed w)) = ∅
  /\ serial (ffmpeg (resumed w)) = serial (ffmpeg w)
  /\ initialized (resumed w) = false
  /\ abortController (resumed w) = None.
Proof.
  intros Hq. unfold resumed. rewrite Hq, cancelled_eq. cbn.
  destruct (deliverAll_eq (emitted (interlude (env w) (clock w)))
                          (setClock (S (clock w)) w))
    as [_ (_&_&Hf&_)].
  rewrite Hf. repeat split.
Qed.

(** ** Relations every step respects

    Most properties of a run are preorders on worlds that each primitive
    step respects; a method then respects them by composition. *)

Section Suspension.

Context (R : World -> World -> Prop) `{!Quiescent R}.

Lemma step_deliver (e : EngineEvent) (w : World) :
  (forall v t, e = ProgressEvent v t -> forwardable w v) ->
  R w (snd (deliver e w)).
Proof.
  intros He. unfold deliver, bind, get.
  destruct (listening (ffmpeg w)); [|reflexivity].
  destruct e as [value time|message].
  - apply step_forward. eapply He; reflexivity.
  - unfold onEngineLog. destruct (Bitrate.search message); [|reflexivity].
    apply step_forward. left; reflexivity.
Qed.

Lemma step_delivered (es : list EngineEvent) (w : World) :
  (forall v t, In (ProgressEvent v t) es ->
               exists n, In (ProgressEvent v t)
                            (emitted (interlude (env w) n))) ->
  R w (delivered es w).
Proof.
  unfold delivered. revert w.
  induction es as [|e es IH]; intros w Hes; [reflexivity|].
  cbn [deliverAll]. unfold bind.
  destruct (deliver_eq e w) as [He (Henv&_)].
  pose proof (step_deliver e w) as Hstep.
  destruct (deliver e w) as [o w1]. cbn [fst snd] in *. subst o.
  etransitivity.
  - apply Hstep. intros v t ->. right.
    destruct (Hes v t) as [n Hn]; [left; reflexivity|]. eauto.
  - apply IH. intros v t Hin. rewrite Henv. apply Hes. right. exact Hin.
Qed.

Lemma step_resumed (w : World) : R w (resumed w).
Proof.
  unfold resumed.
  set (i := interlude (env w) (clock w)).
  assert (Hd : R w (delivered (emitted i) (setClock (S (clock w)) w))).
  { etransitivity.
    - apply (step_clock w (S (clock w))).
    - apply step_delivered. intros v t Hin. exists (clock w). exact Hin. }
  destruct (cancelRequested i); [|exact Hd].
  etransitivity; [exact Hd|apply step_cancel].
Qed.

End Suspension.

Section Respects.

Context (R : World -> World -> Prop) (visible : Event -> Prop)
        `{!Stepwise R visible}.

Lemma respects_ret {A : Type} (a : A) : respects R (ret a).
Proof. intros w. reflexivity. Qed.

Lemma respects_throw {A : Type} (e : Thrown) : respects R (@throw A e).
Proof. intros w. reflexivity. Qed.

Lemma respects_get : respects R get.
Proof. intros w. reflexivity. Qed.

Lemma respects_modify (f : World -> World) :
  (forall w, R w (f w)) -> respects R (modify f).
Proof. intros H w. apply H. Qed.

Lemma respects_bind {A B : Type} (m : M A) (k : A -> M B) :
  respects R m -> (forall a, respects R (k a)) -> respects R (bind m k).
Proof.
  intros Hm Hk w. unfold bind. specialize (Hm w).
  destruct (m w) as [[a|e] w1]; cbn [snd] in *.
  - etransitivity; [exact Hm|apply Hk].
  - exact Hm.
Qed.

Lemma respects_tryCatch {A : Type} (body : M A) (handler : Thrown -> M A) :
  respects R body -> (forall e, respects R (handler e)) ->
  respects R (tryCatch body handler).
Proof.
  intros Hb Hh w. unfold tryCatch. specialize (Hb w).
  destruct (body w) as [[a|e] w1]; cbn [snd] in *.
  - exact Hb.
  - etransitivity; [exact Hb|apply Hh].
Qed.

Lemma respects_cancel : respects R cancel.
Proof. intros w. apply step_cancel. Qed.

Lemma respects_updateProgress stage value :
  stage <> Converting -> value = Num.tenth \/ value = Num.one ->
  respects R (updateProgress stage value None).
Proof. intros Hs Hv w. apply step_report; assumption. Qed.

Lemma respects_suspend : respects R suspend.
Proof. intros w. rewrite suspend_eq. apply (step_resumed R). Qed.

Ltac respects_step :=
  lazymatch goal with
  | |- respects _ (bind _ _) => apply respects_bind; [|intros ?]
  | |- respects _ (tryCatch _ _) => apply respects_tryCatch; [|intros ?]
  | |- respects _ (ret _) => apply respects_ret
  | |- respects _ (throw _) => apply respects_throw
  | |- respects _ get => apply respects_get
  | |- respects _ suspend => apply respects_suspend
  | |- respects _ (updateProgress _ _ _) =>
      apply respects_updateProgress; [discriminate|auto]
  | |- respects _ (modify (record _)) =>
      apply respects_modify; intros ?; apply step_record
  | |- respects _ (modify _) =>
      apply respects_modify; intros ?;
      first [apply step_files | apply step_newToken]
  | |- respects _ (match ?x with _ => _ end) => destruct x
  end.

Lemma respects_settle {A : Type} (n : nat) (value : M A) :
  respects R value -> respects R (settle n value).
Proof. intros Hv. unfold settle. repeat respects_step. exact Hv. Qed.

Lemma respects_remoteCall {A : Type} (value : nat -> M A) :
  (forall n, respects R (value n)) -> respects R (remoteCall value).
Proof.
  intros Hv. unfold remoteCall. repeat respects_step.
  apply respects_settle, Hv.
Qed.

Lemma respects_engineCall {A : Type} (e : Event) (needsLoaded : bool)
    (perform : nat -> M A) :
  visible e -> (forall n, respects R (perform n)) ->
  respects R (engineCall e needsLoaded perform).
Proof.
  intros He Hv. unfold engineCall. repeat respects_step; [exact He|].
  apply respects_settle, Hv.
Qed.

Lemma respects_fetchFile (file : File) : respects R (fetchFile file).
Proof.
  unfold fetchFile. apply respects_remoteCall. intros n. respects_step.
Qed.

Lemma respects_toBlobURL (url mimeType : string) :
  visible (Fetch url) -> respects R (toBlobURL url mimeType).
Proof.
  intros Hv. unfold toBlobURL. repeat respects_step; [exact Hv|].
  apply respects_remoteCall. intros n. respects_step.
Qed.

Lemma respects_writeFile (name : string) (data : list Byte.byte) :
  visible (WriteFile name) -> respects R (writeFile name data).
Proof.
  intros Hv. unfold writeFile. apply respects_engineCall; [exact Hv|].
  intros n. repeat respects_step.
Qed.

Lemma respects_exec (args : list string) :
  visible (Exec args) -> respects R (exec args).
Proof.
  intros Hv. unfold exec. apply respects_engineCall; [exact Hv|].
  intros n. repeat respects_step.
Qed.

Lemma respects_readFile (name : string) :
  visible (ReadFile name) -> respects R (readFile name).
Proof.
  intros Hv. unfold readFile. apply respects_engineCall; [exact Hv|].
  intros n. repeat respects_step.
Qed.

Lemma respects_rm (name : string) : respects R (rm name).
Proof. unfold rm. apply respects_throw. Qed.

(** [convertToWav] once the engine is there: what follows the test of the
    token. *)
Lemma respects_transcode (audioFile : File) :
  visible (WriteFile (inputFileNameOf audioFile)) ->
  visible (Exec (execArgs (inputFileNameOf audioFile))) ->
  visible (ReadFile outputFileName) ->
  respects R (transcode audioFile).
Proof.
  intros Hw He Hr. unfold transcode.
  apply respects_bind; [apply respects_fetchFile|intros bytes].
  apply respects_bind; [apply respects_writeFile, Hw|intros _].
  apply respects_bind; [apply respects_exec, He|intros _].
  apply respects_bind; [apply respects_readFile, Hr|intros outputData].
  apply respects_bind; [apply respects_rm|intros _].
  apply respects_bind; [apply respects_rm|intros _].
  apply respects_ret.
Qed.

Lemma respects_transcribeAudio (audioBlob : Blob) :
  visible (transcriptionRequest audioBlob) ->
  respects R (transcribeAudio audioBlob).
Proof.
  intros Hv. unfold transcribeAudio, transcriptionsCreate.
  apply respects_bind; [apply respects_get|intros w].
  destruct (signalled w); [apply respects_throw|].
  apply respects_tryCatch.
  - repeat respects_step; [exact Hv|].
    apply respects_remoteCall. intros n. repeat respects_step.
  - intros e. destruct e as [m|]; repeat respects_step.
Qed.

Lemma respects_segmentByTopics (transcription : string) :
  visible (chatRequest transcription) ->
  respects R (segmentByTopics transcription).
Proof.
  intros Hv. unfold segmentByTopics, chatCompletionsCreate, parseFirstChoice.
  apply respects_bind; [apply respects_get|intros w].
  destruct (signalled w); [apply respects_throw|].
  apply respects_tryCatch.
  - repeat respects_step; try exact Hv.
    apply respects_remoteCall. intros n. repeat respects_step.
  - intros e. destruct e as [m|]; repeat respects_step.
Qed.

(** With the steps of the initialisation, the whole class. *)
Context `{!Initialising R}.

Hypothesis all_visible : forall e : Event, visible e.

Lemma respects_load (coreURL wasmURL workerURL : string) :
  respects R (load coreURL wasmURL workerURL).
Proof.
  unfold load. apply respects_engineCall; [apply all_visible|].
  intros n. apply respects_modify. intros w. apply step_ffmpeg.
Qed.

Lemma respects_ensureFFmpeg : respects R ensureFFmpeg.
Proof.
  unfold ensureFFmpeg. apply respects_bind; [apply respects_get|intros w].
  destruct (initialized w); [apply respects_ret|].
  apply respects_tryCatch.
  - apply respects_bind.
    { apply respects_modify. intros w1. etransitivity.
      - apply step_ffmpeg.
      - apply step_record, all_visible. }
    intros _. apply respects_bind.
    { apply respects_modify. intros w1. apply step_ffmpeg. }
    intros _.
    apply respects_bind; [apply respects_toBlobURL, all_visible|intros ?].
    apply respects_bind; [apply respects_toBlobURL, all_visible|intros ?].
    apply respects_bind; [apply respects_toBlobURL, all_visible|intros ?].
    apply respects_bind; [apply respects_load|intros ?].
    apply respects_modify. intros w1. apply step_initialized.
  - intros e. destruct e as [m|]; repeat respects_step.
Qed.

Lemma respects_convertToWav (audioFile : File) :
  respects R (convertToWav audioFile).
Proof.
  unfold convertToWav.
  apply respects_bind; [repeat respects_step|intros _].
  apply respects_tryCatch.
  - apply respects_bind; [apply respects_ensureFFmpeg|intros _].
    apply respects_bind; [apply respects_get|intros w].
    destruct (abortController w) as [c|]; [|apply respects_throw].
    destruct (aborted c); [apply respects_throw|].
    apply respects_transcode; apply all_visible.
  - intros e. destruct e as [m|]; repeat respects_step.
Qed.

(** Every method respects a preorder all the steps respect. *)
Lemma respects_pipeline (audioFile : File) :
  respects R (pipeline audioFile).
Proof.
  unfold pipeline.
  apply respects_bind; [apply respects_convertToWav|intros wavBlob].
  apply respects_bind;
    [apply respects_transcribeAudio, all_visible|intros t].
  apply respects_segmentByTopics, all_visible.
Qed.

End Respects.

(** ** A progress report, field by field *)

Lemma published_trace stage value details (w : World) :
  trace (published stage value details w)
  = trace w ++ [Callback stage (length (heap w)) details].
Proof.
  unfold published, updateProgress. cbn [snd trace record setHeap].
  rewrite length_insert. reflexivity.
Qed.

Lemma published_length stage value details (w : World) :
  length (heap (published stage value details w)) = S (length (heap w)).
Proof.
  unfold published, updateProgress. cbn [snd heap record setHeap].
  rewrite length_app, length_insert. cbn [length]. lia.
Qed.

Lemma published_old stage value details (w : World) (l : nat) :
  (l < length (heap w))%nat -> l <> progress w ->
  heap (published stage value details w) !! l = heap w !! l.
Proof.
  intros Hl Hne. unfold published, updateProgress.
  cbn [snd heap record setHeap progress].
  rewrite lookup_app_l by (rewrite length_insert; exact Hl).
  apply list_lookup_insert_ne. congruence.
Qed.

Lemma published_own stage value details (w : World) :
  wf w ->
  own (published stage value details w)
  = setSlot (own w) stage (clamp value).
Proof.
  intros Hwf. unfold published, updateProgress, own, deref.
  cbn [snd heap record setHeap progress].
  rewrite lookup_app_l by (rewrite length_insert; exact Hwf).
  rewrite list_lookup_insert_eq by exact Hwf. reflexivity.
Qed.

Lemma published_snapshot stage value details (w : World) :
  wf w ->
  heap (published stage value details w) !! length (heap w)
  = Some (setSlot (own w) stage (clamp value)).
Proof.
  intros Hwf. unfold published, updateProgress, own, deref.
  cbn [snd heap record setHeap progress].
  rewrite lookup_app_r by (rewrite length_insert; lia).
  rewrite length_insert, Nat.sub_diag. cbn [lookup list_lookup].
  rewrite list_lookup_insert_eq by exact Hwf. reflexivity.
Qed.

(** ** The frame of the heap

    A step allocates records and writes the one [this.progress] refers
    to; every other record stays as it is. *)

#[local] Instance frame_preorder : PreOrder frame.
Proof.
  split.
  - intros w. repeat split; auto.
  - intros w1 w2 w3 (Hp1 & Hl1 & Hf1) (Hp2 & Hl2 & Hf2).
    split; [congruence|]. split; [lia|].
    intros l Hl Hne. rewrite Hf2; [apply Hf1; assumption|lia|congruence].
Qed.

Lemma frame_control (w : World) n f i a :
  frame w (mkWorld (env w) n f i a (progress w) (heap w) (trace w)).
Proof. repeat split; auto. Qed.

Lemma frame_record (w : World) (e : Event) : frame w (record e w).
Proof. repeat split; auto. Qed.

Lemma frame_published stage value details (w : World) :
  frame w (published stage value details w).
Proof.
  split; [reflexivity|]. split; [rewrite published_length; lia|].
  intros l Hl Hne. apply published_old; assumption.
Qed.

Lemma frame_cancelled (w : World) : frame w (cancelled w).
Proof. rewrite cancelled_eq. repeat split; auto. Qed.

Lemma frame_wf (w w' : World) : frame w w' -> wf w -> wf w'.
Proof. unfold wf. intros (Hp & Hl & _) Hwf. rewrite Hp. lia. Qed.

(** ** Invariants *)

#[local] Instance keeps_preorder (I : World -> Prop) : PreOrder (keeps I).
Proof. split; unfold keeps; [intros w; auto|intros w1 w2 w3; auto]. Qed.

Lemma own_Forall (P : ProcessingProgress -> Prop) (w : World) :
  P noProgress -> Forall P (heap w) -> P (own w).
Proof.
  intros H0 Hh. unfold own, deref.
  destruct (heap w !! progress w) as [p|] eqn:Hl; [|exact H0].
  cbn. eapply Forall_lookup_1; eassumption.
Qed.

Lemma deref_Forall (P : ProcessingProgress -> Prop)
    (h : list ProcessingProgress) (l : nat) :
  P noProgress -> Forall P h -> P (deref h l).
Proof.
  intros H0 Hh. unfold deref. destruct (h !! l) as [p|] eqn:Hl; [|exact H0].
  cbn. eapply Forall_lookup_1; eassumption.
Qed.

Lemma published_Forall (P : ProcessingProgress -> Prop) stage value details
    (w : World) :
  P noProgress -> Forall P (heap w) ->
  P (setSlot (own w) stage (clamp value)) ->
  Forall P (heap (published stage value details w)).
Proof.
  intros H0 Hh Hnew. unfold published, updateProgress.
  cbn [snd heap record setHeap progress].
  assert (Hins : Forall P (<[progress w := setSlot (deref (heap w) (progress w))
                                               stage (clamp value)]> (heap w))).
  { apply Forall_insert; assumption. }
  apply Forall_app. split; [exact Hins|].
  constructor; [|constructor]. apply deref_Forall; assumption.
Qed.

Lemma settledHeap_published stage value details (w : World) :
  keeps settledHeap w (published stage value details w).
Proof.
  intros Hh. apply published_Forall; [apply settledRecord_noProgress|exact Hh|].
  apply settledRecord_setSlot.
  - apply own_Forall; [apply settledRecord_noProgress|exact Hh].
  - apply clamp_idem.
Qed.

Lemma unitHeap_forward value details (w : World) :
  forwardable w value ->
  keeps unitHeap w (published Converting value details w).
Proof.
  intros Hv (Henv & Hh). split; [exact Henv|].
  assert (Hown : unitRecord (own w))
    by (apply own_Forall; [apply unitRecord_noProgress|exact Hh]).
  apply published_Forall; [apply unitRecord_noProgress|exact Hh|].
  apply unitRecord_setSlot; [exact Hown|].
  apply clamp_in_unit. destruct Hv as [->|(n & time & Hin)].
  - destruct Hown as [Hc _]. destruct (converting (own w)); cbn in Hc;
      congruence || contradiction.
  - exact (proj1 (List.Forall_forall _ _) (Henv n) _ Hin).
Qed.

Lemma unitHeap_report stage value (w : World) :
  value = Num.tenth \/ value = Num.one ->
  keeps unitHeap w (published stage value None w).
Proof.
  intros Hv (Henv & Hh). split; [exact Henv|].
  apply published_Forall; [apply unitRecord_noProgress|exact Hh|].
  apply unitRecord_setSlot.
  - apply own_Forall; [apply unitRecord_noProgress|exact Hh].
  - apply clamp_in_unit. destruct Hv as [->| ->]; discriminate.
Qed.

(** ** The relations the methods respect *)

#[local] Instance frame_quiescent : Quiescent frame.
Proof.
  split.
  - apply frame_preorder.
  - intros w n. apply frame_control.
  - intros w value details _. apply frame_published.
  - apply frame_cancelled.
Qed.

#[local] Instance frame_stepwise : Stepwise frame anyEvent.
Proof.
  split.
  - apply frame_quiescent.
  - intros w e _. apply frame_record.
  - intros w stage value _ _. apply frame_published.
  - intros w fs. apply frame_control.
  - intros w. apply frame_control.
Qed.

#[local] Instance frame_initialising : Initialising frame.
Proof. split; intros; apply frame_control. Qed.

(** An invariant of the heap alone: the writes to the other fields keep
    it. *)
Lemma heap_invariant_stepwise (I : World -> Prop) :
  (forall w n f i a t,
      I w -> I (mkWorld (env w) n f i a (progress w) (heap w) t)) ->
  (forall w value details,
      forwardable w value -> I w -> I (published Converting value details w)) ->
  (forall w stage value,
      value = Num.tenth \/ value = Num.one ->
      I w -> I (published stage value None w)) ->
  Stepwise (keeps I) anyEvent /\ Initialising (keeps I).
Proof.
  intros Hcontrol Hforward Hreport.
  assert (Hc : forall w n f i a t,
             keeps I w (mkWorld (env w) n f i a (progress w) (heap w) t))
    by (intros w n f i a t Hw; apply Hcontrol, Hw).
  split; [split; [split|..]|split].
  - apply keeps_preorder.
  - intros w n. apply (Hc w n (ffmpeg w) (initialized w) (abortController w)).
  - intros w value details Hv Hw. apply Hforward; assumption.
  - intros w. rewrite cancelled_eq. apply Hc.
  - intros w e _. apply (Hc w (clock w) (ffmpeg w) (initialized w)
                            (abortController w)).
  - intros w stage value _ Hv Hw. apply Hreport; assumption.
  - intros w fs. apply (Hc w (clock w) _ (initialized w) (abortController w)).
  - intros w. apply (Hc w (clock w) (ffmpeg w) (initialized w)).
  - intros w f. apply (Hc w (clock w) f (initialized w) (abortController w)).
  - intros w b. apply (Hc w (clock w) (ffmpeg w) b (abortController w)).
Qed.

Lemma wf_steps : Stepwise (keeps wf) anyEvent /\ Initialising (keeps wf).
Proof.
  apply heap_invariant_stepwise.
  - intros w n f i a t Hwf. exact Hwf.
  - intros w value details _. exact (frame_wf _ _ (frame_published _ _ _ w)).
  - intros w stage value _. exact (frame_wf _ _ (frame_published _ _ _ w)).
Qed.

#[local] Instance wf_stepwise : Stepwise (keeps wf) anyEvent :=
  proj1 wf_steps.
#[local] Instance wf_initialising : Initialising (keeps wf) :=
  proj2 wf_steps.

Lemma settledHeap_steps :
  Stepwise (keeps settledHeap) anyEvent /\ Initialising (keeps settledHeap).
Proof.
  apply heap_invariant_stepwise.
  - intros w n f i a t Hh. exact Hh.
  - intros w value details _. apply settledHeap_published.
  - intros w stage value _. apply settledHeap_published.
Qed.

#[local] Instance settledHeap_stepwise
  : Stepwise (keeps settledHeap) anyEvent := proj1 settledHeap_steps.
#[local] Instance settledHeap_initialising
  : Initialising (keeps settledHeap) := proj2 settledHeap_steps.

Lemma unitHeap_steps :
  Stepwise (keeps unitHeap) anyEvent /\ Initialising (keeps unitHeap).
Proof.
  apply heap_invariant_stepwise.
  - intros w n f i a t Hh. exact Hh.
  - intros w value details Hv. apply unitHeap_forward, Hv.
  - intros w stage value Hv. apply unitHeap_report, Hv.
Qed.

#[local] Instance unitHeap_stepwise
  : Stepwise (keeps unitHeap) anyEvent := proj1 unitHeap_steps.
#[local] Instance unitHeap_initialising
  : Initialising (keeps unitHeap) := proj2 unitHeap_steps.

#[local] Instance unsignalled_stepwise : Stepwise (keeps unsignalled) anyEvent.
Proof.
  split; [split|..].
  - apply keeps_preorder.
  - intros w n Hs. exact Hs.
  - intros w value details _ Hs. exact Hs.
  - intros w _. rewrite cancelled_eq. reflexivity.
  - intros w e _ Hs. exact Hs.
  - intros w stage value _ _ Hs. exact Hs.
  - intros w fs Hs. exact Hs.
  - intros w _. reflexivity.
Qed.

#[local] Instance unsignalled_initialising : Initialising (keeps unsignalled).
Proof. split; intros w x Hs; exact Hs. Qed.

#[local] Instance extends_preorder (P : Event -> Prop) : PreOrder (extends P).
Proof.
  split.
  - intros w. exists []. split; [symmetry; apply app_nil_r|constructor].
  - intros w1 w2 w3 (s1 & H1 & F1) (s2 & H2 & F2). exists (s1 ++ s2).
    split; [rewrite H2, H1, app_assoc; reflexivity|].
    apply Forall_app; split; assumption.
Qed.

Lemma extends_stepwise (P : Event -> Prop) :
  (forall stage l details, P (Callback stage l details)) -> P Terminate ->
  Stepwise (extends P) P.
Proof.
  intros Hcb Hterm.
  assert (Hsame : forall (w w' : World), trace w' = trace w -> extends P w w').
  { intros w w' Ht. exists []. split; [rewrite app_nil_r; exact Ht|constructor]. }
  assert (Hpub : forall w stage value details,
             extends P w (published stage value details w)).
  { intros w stage value details. eexists. split; [apply published_trace|].
    constructor; [apply Hcb|constructor]. }
  split; [split|..].
  - apply extends_preorder.
  - intros w n. apply Hsame. reflexivity.
  - intros w value details _. apply Hpub.
  - intros w. rewrite cancelled_eq. eexists. split; [reflexivity|].
    constructor; [exact Hterm|constructor].
  - intros w e He. eexists. split; [reflexivity|].
    constructor; [exact He|constructor].
  - intros w stage value _ _. apply Hpub.
  - intros w fs. apply Hsame. reflexivity.
  - intros w. apply Hsame. reflexivity.
Qed.

Lemma extends_initialising (P : Event -> Prop) : Initialising (extends P).
Proof.
  split; intros; exists []; (split; [rewrite app_nil_r; reflexivity|constructor]).
Qed.

(** ** What an observer sees during a suspension

    While a method is suspended, only the handlers of the engine and
    [cancel()] run: the callbacks are those of the first stage, their
    snapshots carry the second and third slots the world had, and those
    two slots stay as they were. *)

Lemma frame_deref (w w' : World) (l : nat) :
  frame w w' -> (l < length (heap w))%nat -> l <> progress w ->
  deref (heap w') l = deref (heap w) l.
Proof. intros (_ & _ & Hf) Hl Hne. unfold deref. rewrite Hf; auto. Qed.

#[local] Instance aside_preorder : PreOrder aside.
Proof.
  split.
  - intros w Hwf. split; [reflexivity|]. split; [reflexivity|].
    exists []. split; [symmetry; apply app_nil_r|constructor].
  - intros w1 w2 w3 H12 H23 Hwf1.
    destruct (H12 Hwf1) as (F12 & Hs12 & mid1 & Htr1 & Hm1).
    pose proof (frame_wf _ _ F12 Hwf1) as Hwf2.
    destruct (H23 Hwf2) as (F23 & Hs23 & mid2 & Htr2 & Hm2).
    split; [etransitivity; eassumption|].
    split; [intros s Hs; rewrite Hs23, Hs12; auto|].
    exists (mid1 ++ mid2). split; [rewrite Htr2, Htr1, app_assoc; reflexivity|].
    destruct F12 as (Hp12 & Hl12 & Hf12). pose proof F23 as (Hp23 & Hl23 & Hf23).
    apply Forall_app. split.
    + eapply Forall_impl; [exact Hm1|]. intros ev Hev.
      destruct ev; cbn [bystander] in *; try assumption.
      destruct Hev as (Hs & Hl & Hsl).
      assert (Hd : deref (heap w3) snapshot = deref (heap w2) snapshot).
      { apply frame_deref; [exact F23|lia|]. unfold wf in Hwf1. lia. }
      rewrite Hd. repeat split; try assumption; lia.
    + eapply Forall_impl; [exact Hm2|]. intros ev Hev.
      destruct ev; cbn [bystander] in *; try assumption.
      destruct Hev as (Hs & Hl & Hsl).
      split; [exact Hs|]. split; [lia|].
      intros s Hne. rewrite Hsl, Hs12; auto.
Qed.

#[local] Instance aside_quiescent : Quiescent aside.
Proof.
  split.
  - apply aside_preorder.
  - intros w n Hwf. split; [apply frame_control|].
    split; [reflexivity|].
    exists []. split; [symmetry; apply app_nil_r|constructor].
  - intros w value details _ Hwf. split; [apply frame_published|].
    rewrite published_own by exact Hwf.
    split; [intros s Hs; apply slot_setSlot_other; congruence|].
    eexists. split; [apply published_trace|].
    constructor; [|constructor]. cbn [bystander]. split; [reflexivity|].
    split; [rewrite published_length; lia|].
    unfold deref. rewrite published_snapshot by exact Hwf.
    intros s Hs. apply slot_setSlot_other; congruence.
  - intros w Hwf. split; [apply frame_cancelled|].
    rewrite cancelled_eq. split; [reflexivity|].
    eexists. split; [reflexivity|]. constructor; [exact I|constructor].
Qed.

Lemma aside_resumed (w : World) : aside w (resumed w).
Proof. apply (step_resumed aside). Qed.

(** ** Reading a field after a step *)

Lemma env_published stage value details (w : World) :
  env (published stage value details w) = env w.
Proof. reflexivity. Qed.

Lemma clock_published stage value details (w : World) :
  clock (published stage value details w) = clock w.
Proof. reflexivity. Qed.

Lemma ffmpeg_published stage value details (w : World) :
  ffmpeg (published stage value details w) = ffmpeg w.
Proof. reflexivity. Qed.

Lemma initialized_published stage value details (w : World) :
  initialized (published stage value details w) = initialized w.
Proof. reflexivity. Qed.

Lemma abortController_published stage value details (w : World) :
  abortController (published stage value details w) = abortController w.
Proof. reflexivity. Qed.

Lemma progress_published stage value details (w : World) :
  progress (published stage value details w) = progress w.
Proof. reflexivity. Qed.

Lemma signalled_published stage value details (w : World) :
  signalled (published stage value details w) = signalled w.
Proof. reflexivity. Qed.

Create Rewrite HintDb world.
#[local] Hint Rewrite env_published clock_published ffmpeg_published
  initialized_published abortController_published progress_published
  signalled_published resumed_env resumed_clock resumed_progress : world.

(** Project through the setters and the steps. *)
Ltac world :=
  repeat (progress (autorewrite with world;
                    cbn [env clock ffmpeg initialized abortController progress
                         heap trace record setClock setFFmpeg setInitialized
                         setAbortController setHeap setFiles
                         serial loaded listening files fst snd])).

(** ** The calls, step by step *)

Lemma remoteCall_eq {A : Type} (value : nat -> M A) (w : World) :
  remoteCall value w =
  match fault (env w) (clock w) with
  | Some e => (Threw e, resumed w)
  | None => value (clock w) (resumed w)
  end.
Proof.
  unfold remoteCall, bind. rewrite suspend_eq. cbn [fst].
  unfold settle, bind, get. rewrite resumed_env.
  destruct (fault (env w) (clock w)); reflexivity.
Qed.

Lemma engineCall_eq {A : Type} (e : Event) (needsLoaded : bool)
    (perform : nat -> M A) (w : World) :
  engineCall e needsLoaded perform w =
  if needsLoaded && negb (loaded (ffmpeg w))
  then (Threw (notLoadedError (env w)), record e w)
  else if cancelRequested (interlude (env w) (clock w))
  then (Threw (terminatedError (env w)), resumed (record e w))
  else
    match fault (env w) (clock w) with
    | Some x => (Threw x, resumed (record e w))
    | None => perform (clock w) (resumed (record e w))
    end.
Proof.
  unfold engineCall, bind at 1, modify. unfold bind at 1, get.
  cbn [ffmpeg record env].
  destruct (needsLoaded && negb (loaded (ffmpeg w))); [reflexivity|].
  unfold bind. rewrite suspend_eq. cbn [fst snd clock env record].
  destruct (cancelRequested (interlude (env w) (clock w))); [reflexivity|].
  unfold settle, bind, get. rewrite resumed_env. cbn [env record].
  destruct (fault (env w) (clock w)); reflexivity.
Qed.

(** [transcribeAudio] when the check at its entry passes. *)
Lemma transcribeAudio_eq (audioBlob : Blob) (w : World) :
  signalled w = false ->
  transcribeAudio audioBlob w =
  let w2 := record (transcriptionRequest audioBlob)
                   (published Transcribing Num.tenth None w) in
  match fault (env w) (clock w) with
  | Some e => (Threw (transcriptionError e), resumed w2)
  | None =>
      (Returned (transcriptionText (env w) (clock w)),
       published Transcribing Num.one None (resumed w2))
  end.
Proof.
  intros Hs. unfold transcribeAudio, bind at 1, get. rewrite Hs.
  unfold tryCatch, bind at 1. rewrite updateProgress_eq.
  unfold bind at 1, transcriptionsCreate, bind at 1, modify.
  rewrite remoteCall_eq. world.
  destruct (fault (env w) (clock w)) as [e|].
  - destruct e as [m|];
      unfold transcriptionError; cbn [messageIncludes messageOrUnknown].
    + destruct (Str.includes m "API key"); reflexivity.
    + reflexivity.
  - unfold bind, get, ret. world. reflexivity.
Qed.

(** [segmentByTopics] when the check at its entry passes. *)
Lemma segmentByTopics_eq (transcription : string) (w : World) :
  signalled w = false ->
  segmentByTopics transcription w =
  let w2 := record (chatRequest transcription)
                   (published Analyzing Num.tenth None w) in
  match fault (env w) (clock w) with
  | Some e => (Threw (analysisError e), resumed w2)
  | None =>
      let w4 := published Analyzing Num.one None (resumed w2) in
      match choices (completion (env w) (clock w)) with
      | [] => (Threw (analysisError (Error readMessageOfUndefined)), w4)
      | c :: _ =>
          let text := default "null" (content c) in
          match JSON.parse text with
          | Some v => (Returned v, w4)
          | None =>
              (Threw (analysisError
                        (Error (syntaxErrorMessage (env w) text))), w4)
          end
      end
  end.
Proof.
  intros Hs. unfold segmentByTopics, bind at 1, get. rewrite Hs.
  unfold tryCatch, bind at 1. rewrite updateProgress_eq.
  unfold bind at 1, chatCompletionsCreate, bind at 1, modify.
  rewrite remoteCall_eq. world.
  destruct (fault (env w) (clock w)) as [e|].
  - destruct e as [m|];
      unfold analysisError; cbn [messageIncludes messageOrUnknown].
    + destruct (Str.includes m "API key"); reflexivity.
    + reflexivity.
  - unfold bind at 1, get, ret. world.
    unfold bind at 1. rewrite updateProgress_eq.
    unfold parseFirstChoice.
    destruct (choices (completion (env w) (clock w))) as [|c rest].
    + unfold throw at 1.
    unfold analysisError; cbn [messageIncludes messageOrUnknown].
      destruct (Str.includes readMessageOfUndefined "API key") eqn:Hi;
        [vm_compute in Hi; discriminate|reflexivity].
    + cbv zeta. destruct (JSON.parse (default "null" (content c))) as [v|].
      * reflexivity.
      * unfold bind, get, throw. world.
    unfold analysisError; cbn [messageIncludes messageOrUnknown].
        destruct (Str.includes _ "API key"); reflexivity.
Qed.

(** ** The second and third stage: pending, then complete *)


Lemma wf_newAudioProcessor (e : Env) : wf (newAudioProcessor e).
Proof. unfold wf. cbn. lia. Qed.





(** ** The example of the specification *)

(** The run of the specification's example. *)
Example budget_parses : JSON.parse budgetText = Some budgetMinutes.
Proof. vm_compute. reflexivity. Qed.

(** The analysis stage returns the minutes of the example. *)
Example budget_minutes :
  fst (segmentByTopics sampleTranscript (newAudioProcessor sampleEnv))
  = Returned budgetMinutes.
Proof. vm_compute. reflexivity. Qed.

(** The consumer does not get that far: the conversion ends in the error of
    its clean-up. *)
Example budget_run_fails_at_cleanup :
  fst (handleClientFormSubmit sampleEnv sampleFile)
  = ErrorShown "Failed to convert audio: ffmpeg.rm is not a function".
Proof. vm_compute. reflexivity. Qed.

(** The analyzing slot ends at 1. *)
Example budget_analyzing_complete :
  analyzing (own (snd (segmentByTopics sampleTranscript
                                       (newAudioProcessor sampleEnv))))
  = Num.one.
Proof. vm_compute. reflexivity. Qed.

(** The bitrate of a log line reaches the consumer as a detail. *)
Example bitrate_surfaces :
  In (Callback Converting 2 (Some (bitrateDetails "128.0")))
     (trace (snd (convertToWav sampleFile (newAudioProcessor completingEnv)))).
Proof. vm_compute. repeat (first [left; reflexivity | right]). Qed.

(** ** The analysis stage: what it returns and how it fails *)

(** C10: past the check at its entry, [segmentByTopics] returns whatever
    [JSON.parse] makes of the content of the first choice, whatever the
    shape of the value and whatever the transcript, the empty one
    included. *)
Theorem analyze_returns_parsed_value :
  forall (w : World) (transcription text : string) (rest : list ChatChoice)
         (v : json),
    signalled w = false ->
    fault (env w) (clock w) = None ->
    choices (completion (env w) (clock w)) = mkChoice (Some text) :: rest ->
    JSON.parse text = Some v ->
    fst (segmentByTopics transcription w) = Returned v.
Proof.
  intros w transcription text rest v Hs Hf Hc Hp.
  rewrite segmentByTopics_eq by exact Hs. cbv zeta.
  rewrite Hf, Hc. cbn [content default from_option id]. rewrite Hp. reflexivity.
Qed.

Lemma analyze_returns_parsed_value_witness :
  let w := newAudioProcessor
             (answering (mkCompletion [mkChoice (Some shapelessText)])
                        sampleEnv) in
  fst (segmentByTopics EmptyString w)
  = Returned (JObject [("note", JNumber (inject_Z 42))]).
Proof.
  intros w.
  apply (analyze_returns_parsed_value w EmptyString shapelessText []).
  - reflexivity.
  - reflexivity.
  - reflexivity.
  - vm_compute. reflexivity.
Defined.

(** C5, as stated, fails: a payload that cannot be parsed makes
    [segmentByTopics] throw the wrapper of all the failures of the stage,
    and the error is the very one a failed request with the same message
    gives. *)
Lemma malformed_payload_is_analysis_error :
  let malformed :=
    newAudioProcessor
      (answering (mkCompletion [mkChoice (Some "not json")]) sampleEnv) in
  let unreachable :=
    newAudioProcessor (failing 0 (Error "Unexpected token in JSON") sampleEnv) in
  JSON.parse "not json" = None
  /\ fst (segmentByTopics sampleTranscript malformed)
     = Threw (Error "Failed to analyze transcription: Unexpected token in JSON")
  /\ isAnalysisError (Error "Failed to analyze transcription: Unexpected token in JSON")
  /\ fst (segmentByTopics sampleTranscript malformed)
     = fst (segmentByTopics sampleTranscript unreachable).
Proof.
  cbv zeta. split; [vm_compute; reflexivity|].
  split; [vm_compute; reflexivity|].
  split; [exists "Unexpected token in JSON"; reflexivity|].
  vm_compute. reflexivity.
Qed.

(** C5, amended: the failure of the parse goes through the [catch] clause
    of the stage like the failure of the request, and comes out as the
    same kind of error. *)
Theorem analyze_malformed_payload :
  forall (w : World) (transcription : string),
    signalled w = false ->
    (forall x, fault (env w) (clock w) = Some x ->
               fst (segmentByTopics transcription w)
               = Threw (analysisError x))
    /\ (forall c rest,
           fault (env w) (clock w) = None ->
           choices (completion (env w) (clock w)) = c :: rest ->
           JSON.parse (default "null" (content c)) = None ->
           fst (segmentByTopics transcription w)
           = Threw (analysisError
                      (Error (syntaxErrorMessage (env w)
                                (default "null" (content c)))))).
Proof.
  intros w transcription Hs. split.
  - intros x Hf. rewrite segmentByTopics_eq by exact Hs. cbv zeta.
    rewrite Hf. reflexivity.
  - intros c rest Hf Hc Hp. rewrite segmentByTopics_eq by exact Hs.
    cbv zeta. rewrite Hf, Hc, Hp. reflexivity.
Qed.

Lemma analyze_malformed_payload_witness :
  let e := answering (mkCompletion [mkChoice (Some "not json")]) sampleEnv in
  fst (segmentByTopics sampleTranscript (newAudioProcessor e))
  = Threw (analysisError (Error (syntaxErrorMessage e "not json")))
  /\ fst (segmentByTopics sampleTranscript
            (newAudioProcessor (failing 0 NonError e)))
     = Threw (analysisError NonError).
Proof.
  intros e. split.
  - apply (proj2 (analyze_malformed_payload (newAudioProcessor e)
                    sampleTranscript eq_refl)
                 (mkChoice (Some "not json")) []).
    + reflexivity.
    + reflexivity.
    + vm_compute. reflexivity.
  - apply (proj1 (analyze_malformed_payload
                    (newAudioProcessor (failing 0 NonError e))
                    sampleTranscript eq_refl)).
    reflexivity.
Defined.

(** ** The credential *)

#[local] Instance extends_any : Stepwise (extends anyEvent) anyEvent.
Proof. apply extends_stepwise; intros; exact I. Qed.

Lemma resumed_keeps_trace (w : World) (ev : Event) :
  In ev (trace w) -> In ev (trace (resumed w)).
Proof.
  intros Hin. destruct (step_resumed (extends anyEvent) w) as (s & -> & _).
  apply in_or_app. left. exact Hin.
Qed.

Lemma published_keeps_trace stage value details (w : World) (ev : Event) :
  In ev (trace w) -> In ev (trace (published stage value details w)).
Proof.
  intros Hin. rewrite published_trace. apply in_or_app. left. exact Hin.
Qed.

Lemma record_in_trace (w : World) (ev : Event) : In ev (trace (record ev w)).
Proof. cbn [trace record]. apply in_or_app. right. left. reflexivity. Qed.

Lemma segmentByTopics_cause (transcription : string) (w : World) :
  signalled w = false ->
  match analysisCause w with
  | Some x => fst (segmentByTopics transcription w) = Threw (analysisError x)
  | None => exists v, fst (segmentByTopics transcription w) = Returned v
  end.
Proof.
  intros Hs. rewrite segmentByTopics_eq by exact Hs. cbv zeta.
  unfold analysisCause.
  destruct (fault (env w) (clock w)); [reflexivity|].
  destruct (choices (completion (env w) (clock w))) as [|c rest];
    [reflexivity|].
  destruct (JSON.parse (default "null" (content c))) as [v|];
    [exists v|]; reflexivity.
Qed.

(** The error is the one of a credential exactly when the cause is an
    [Error] whose message mentions the key. *)
Lemma transcriptionError_credential (x : Thrown) :
  transcriptionError x = Error invalidApiKey
  <-> exists m, x = Error m /\ Str.includes m "API key" = true.
Proof.
  split.
  - destruct x as [m|];
      unfold transcriptionError; cbn [messageIncludes messageOrUnknown]; [|discriminate].
    destruct (Str.includes m "API key") eqn:Hi; [eauto|discriminate].
  - intros (m & -> & Hi).
    unfold transcriptionError; cbn [messageIncludes messageOrUnknown]. rewrite Hi. reflexivity.
Qed.

Lemma analysisError_credential (x : Thrown) :
  analysisError x = Error invalidApiKey
  <-> exists m, x = Error m /\ Str.includes m "API key" = true.
Proof.
  split.
  - destruct x as [m|];
      unfold analysisError; cbn [messageIncludes messageOrUnknown]; [|discriminate].
    destruct (Str.includes m "API key") eqn:Hi; [eauto|discriminate].
  - intros (m & -> & Hi).
    unfold analysisError; cbn [messageIncludes messageOrUnknown]. rewrite Hi. reflexivity.
Qed.

(** C4, as stated, fails: without a credential, and with a service that
    rejects the request for that reason, both methods do throw the error of
    a credential, but only after they have issued the request. *)
Lemma missing_key_request_issued :
  let w :=
    newAudioProcessor
      (withoutKey
         (failing 0 (Error "401 You didn't provide an API key.") sampleEnv)) in
  apiKey (env w) = None
  /\ fst (transcribeAudio sampleBlob w) = Threw (Error invalidApiKey)
  /\ In (transcriptionRequest sampleBlob)
        (trace (snd (transcribeAudio sampleBlob w)))
  /\ fst (segmentByTopics sampleTranscript w) = Threw (Error invalidApiKey)
  /\ In (chatRequest sampleTranscript)
        (trace (snd (segmentByTopics sampleTranscript w))).
Proof.
  cbv zeta. split; [reflexivity|].
  split; [vm_compute; reflexivity|].
  split; [vm_compute; right; right; left; reflexivity|].
  split; [vm_compute; reflexivity|].
  vm_compute. right; right; left; reflexivity.
Qed.

(** C4, amended: the consumer checks the credential before it creates the
    processor; the two methods do not look at it, issue the request in any
    case, and throw the error of a credential exactly when the cause of
    their failure is an [Error] whose message mentions the key. *)
Theorem credential_checked_by_consumer :
  (forall (e : Env) (audioFile : File),
      keyMissing e = true ->
      handleClientFormSubmit e audioFile = (ErrorShown keyNotConfigured, []))
  /\ (forall (w : World) (audioBlob : Blob),
         signalled w = false ->
         In (transcriptionRequest audioBlob)
            (trace (snd (transcribeAudio audioBlob w)))
         /\ (fst (transcribeAudio audioBlob w) = Threw (Error invalidApiKey)
             <-> exists m, fault (env w) (clock w) = Some (Error m)
                           /\ Str.includes m "API key" = true))
  /\ (forall (w : World) (transcription : string),
         signalled w = false ->
         In (chatRequest transcription)
            (trace (snd (segmentByTopics transcription w)))
         /\ (fst (segmentByTopics transcription w) = Threw (Error invalidApiKey)
             <-> exists m, analysisCause w = Some (Error m)
                           /\ Str.includes m "API key" = true)).
Proof.
  split; [|split].
  - intros e audioFile Hk. unfold handleClientFormSubmit. rewrite Hk.
    reflexivity.
  - intros w audioBlob Hs. rewrite transcribeAudio_eq by exact Hs. cbv zeta.
    destruct (fault (env w) (clock w)) as [x|]; cbn [fst snd].
    + split; [apply resumed_keeps_trace, record_in_trace|].
      split.
      * intros H. injection H as H.
        apply transcriptionError_credential in H.
        destruct H as (m & -> & Hi). eauto.
      * intros (m & Hm & Hi). injection Hm as ->. f_equal.
        apply transcriptionError_credential. eauto.
    + split; [apply published_keeps_trace, resumed_keeps_trace,
              record_in_trace|].
      split; [discriminate|intros (m & Hm & _); discriminate].
  - intros w transcription Hs. split.
    + rewrite segmentByTopics_eq by exact Hs. cbv zeta.
      destruct (fault (env w) (clock w)) as [x|]; cbn [snd].
      * apply resumed_keeps_trace, record_in_trace.
      * destruct (choices (completion (env w) (clock w))) as [|c rest];
          [|destruct (JSON.parse (default "null" (content c)))];
          cbn [snd];
          apply published_keeps_trace, resumed_keeps_trace, record_in_trace.
    + pose proof (segmentByTopics_cause transcription w Hs) as Hc.
      destruct (analysisCause w) as [x|].
      * rewrite Hc. split.
        -- intros H. injection H as H. apply analysisError_credential in H.
           destruct H as (m & -> & Hi). eauto.
        -- intros (m & Hm & Hi). injection Hm as ->. f_equal.
           apply analysisError_credential. eauto.
      * destruct Hc as (v & ->).
        split; [discriminate|intros (m & Hm & _); discriminate].
Qed.

Lemma credential_checked_by_consumer_witness :
  let e :=
    withoutKey
      (failing 0 (Error "401 You didn't provide an API key.") sampleEnv) in
  handleClientFormSubmit e sampleFile = (ErrorShown keyNotConfigured, [])
  /\ In (transcriptionRequest sampleBlob)
        (trace (snd (transcribeAudio sampleBlob (newAudioProcessor e))))
  /\ In (chatRequest sampleTranscript)
        (trace (snd (segmentByTopics sampleTranscript (newAudioProcessor e)))).
Proof.
  intros e.
  destruct credential_checked_by_consumer as (Hconsumer & Hfirst & Hsecond).
  split; [apply Hconsumer; reflexivity|].
  split.
  - apply (Hfirst (newAudioProcessor e) sampleBlob). reflexivity.
  - apply (Hsecond (newAudioProcessor e) sampleTranscript). reflexivity.
Defined.

(** ** Runs, one suspension at a time

    A relation between worlds that every suspension respects as a whole may
    depend on what the environment did during it.  A method respects such a
    relation if its other steps do. *)

Section Runs.

Context (R : World -> World -> Prop) (visible : Event -> Prop)
        (reported : ProcessStage -> Prop) `{!Run R visible reported}.

Lemma runs_ret {A : Type} (a : A) : respects R (ret a).
Proof. intros w. reflexivity. Qed.

Lemma runs_throw {A : Type} (e : Thrown) : respects R (@throw A e).
Proof. intros w. reflexivity. Qed.

Lemma runs_get : respects R get.
Proof. intros w. reflexivity. Qed.

Lemma runs_bind {A B : Type} (m : M A) (k : A -> M B) :
  respects R m -> (forall a, respects R (k a)) -> respects R (bind m k).
Proof.
  intros Hm Hk w. unfold bind. specialize (Hm w).
  destruct (m w) as [[a|e] w1]; cbn [snd] in *; [|exact Hm].
  etransitivity; [exact Hm|apply Hk].
Qed.

Lemma runs_tryCatch {A : Type} (body : M A) (handler : Thrown -> M A) :
  respects R body -> (forall e, respects R (handler e)) ->
  respects R (tryCatch body handler).
Proof.
  intros Hb Hh w. unfold tryCatch. specialize (Hb w).
  destruct (body w) as [[a|e] w1]; cbn [snd] in *; [exact Hb|].
  etransitivity; [exact Hb|apply Hh].
Qed.

Lemma runs_record (e : Event) : visible e -> respects R (modify (record e)).
Proof. intros He w. apply run_record, He. Qed.

(** A write to the field [ffmpeg]. *)
Lemma runs_ffmpeg (f : World -> FFmpeg) :
  respects R (modify (fun w => setFFmpeg (f w) w)).
Proof. intros w. apply run_ffmpeg. Qed.

Lemma runs_suspend : respects R suspend.
Proof. intros w. rewrite suspend_eq. apply run_suspension. Qed.

Lemma runs_remoteCall {A : Type} (value : nat -> M A) :
  (forall n, respects R (value n)) -> respects R (remoteCall value).
Proof.
  intros Hv w. rewrite remoteCall_eq.
  destruct (fault (env w) (clock w)); cbn [snd]; [apply run_suspension|].
  etransitivity; [apply run_suspension|apply Hv].
Qed.

Lemma runs_engineCall {A : Type} (e : Event) (needsLoaded : bool)
    (perform : nat -> M A) :
  visible e -> (forall n, respects R (perform n)) ->
  respects R (engineCall e needsLoaded perform).
Proof.
  intros He Hv w. rewrite engineCall_eq.
  assert (Hs : R w (resumed (record e w))).
  { etransitivity; [apply run_record, He|apply run_suspension]. }
  destruct (needsLoaded && negb (loaded (ffmpeg w)));
    [apply run_record, He|].
  destruct (cancelRequested (interlude (env w) (clock w))); [exact Hs|].
  destruct (fault (env w) (clock w)); [exact Hs|].
  etransitivity; [exact Hs|apply Hv].
Qed.

Lemma runs_setFiles (fs : World -> gmap string (list Byte.byte)) :
  respects R (modify (fun w => setFiles (fs w) w)).
Proof. intros w. apply run_ffmpeg. Qed.

Ltac runs_step :=
  lazymatch goal with
  | |- respects _ (bind _ _) => apply runs_bind; [|intros ?]
  | |- respects _ (tryCatch _ _) => apply runs_tryCatch; [|intros ?]
  | |- respects _ (ret _) => apply runs_ret
  | |- respects _ (throw _) => apply runs_throw
  | |- respects _ get => apply runs_get
  | |- respects _ (modify (record _)) => apply runs_record
  | |- respects _ (match ?x with _ => _ end) => destruct x
  end.

Lemma runs_toBlobURL (url mimeType : string) :
  visible (Fetch url) -> respects R (toBlobURL url mimeType).
Proof.
  intros Hv. unfold toBlobURL. repeat runs_step; [exact Hv|].
  apply runs_remoteCall. intros n. runs_step.
Qed.

Lemma runs_fetchFile (file : File) : respects R (fetchFile file).
Proof. unfold fetchFile. apply runs_remoteCall. intros n. runs_step. Qed.

Lemma runs_load (coreURL wasmURL workerURL : string) :
  visible Load -> respects R (load coreURL wasmURL workerURL).
Proof.
  intros Hv. unfold load. apply runs_engineCall; [exact Hv|]. intros n.
  apply (runs_ffmpeg (fun w => mkFFmpeg _ _ _ _)).
Qed.

Lemma runs_writeFile (name : string) (data : list Byte.byte) :
  visible (WriteFile name) -> respects R (writeFile name data).
Proof.
  intros Hv. unfold writeFile. apply runs_engineCall; [exact Hv|]. intros n.
  apply (runs_setFiles (fun w => <[name := data]> (files (ffmpeg w)))).
Qed.

Lemma runs_exec (args : list string) :
  visible (Exec args) -> respects R (exec args).
Proof.
  intros Hv. unfold exec. apply runs_engineCall; [exact Hv|]. intros n.
  repeat runs_step. apply (runs_setFiles (fun _ => _)).
Qed.

Lemma runs_readFile (name : string) :
  visible (ReadFile name) -> respects R (readFile name).
Proof.
  intros Hv. unfold readFile. apply runs_engineCall; [exact Hv|]. intros n.
  repeat runs_step.
Qed.

Lemma runs_rm (name : string) : respects R (rm name).
Proof. unfold rm. apply runs_throw. Qed.

Lemma runs_updateProgress stage value :
  reported stage -> value = Num.tenth \/ value = Num.one ->
  respects R (updateProgress stage value None).
Proof. intros Hs Hv w. apply run_report; assumption. Qed.

Lemma runs_transcribeAudio (audioBlob : Blob) :
  visible (transcriptionRequest audioBlob) -> reported Transcribing ->
  respects R (transcribeAudio audioBlob).
Proof.
  intros Hv Hr. unfold transcribeAudio. runs_step; [runs_step|].
  runs_step; [runs_step|]. runs_step.
  - runs_step; [apply runs_updateProgress; auto|].
    runs_step.
    + unfold transcriptionsCreate. runs_step; [runs_step; exact Hv|].
      apply runs_remoteCall. intros n. repeat runs_step.
    + runs_step; [apply runs_updateProgress; auto|]. runs_step.
  - repeat runs_step.
Qed.

Lemma runs_segmentByTopics (transcription : string) :
  visible (chatRequest transcription) -> reported Analyzing ->
  respects R (segmentByTopics transcription).
Proof.
  intros Hv Hr. unfold segmentByTopics. runs_step; [runs_step|].
  runs_step; [runs_step|]. runs_step.
  - runs_step; [apply runs_updateProgress; auto|].
    runs_step.
    + unfold chatCompletionsCreate. runs_step; [runs_step; exact Hv|].
      apply runs_remoteCall. intros n. repeat runs_step.
    + runs_step; [apply runs_updateProgress; auto|].
      unfold parseFirstChoice. repeat runs_step.
  - repeat runs_step.
Qed.

(** The events of a conversion may be shown. *)
Hypothesis conversion_visible :
  forall e : Event, isCall e -> conversionEvent e -> visible e.

Lemma runs_ensureFFmpeg : respects R ensureFFmpeg.
Proof.
  unfold ensureFFmpeg. apply runs_bind; [apply runs_get|intros w].
  destruct (initialized w); [apply runs_ret|].
  runs_step.
  - runs_step.
    { intros w1. cbn [modify snd]. etransitivity.
      - apply (run_ffmpeg w1 (freshFFmpeg (S (serial (ffmpeg w))))).
      - apply run_record, conversion_visible; exact I. }
    runs_step.
    { apply (runs_ffmpeg (fun w => mkFFmpeg _ _ _ _)). }
    runs_step; [apply runs_toBlobURL, conversion_visible; exact I|].
    runs_step; [apply runs_toBlobURL, conversion_visible; exact I|].
    runs_step; [apply runs_toBlobURL, conversion_visible; exact I|].
    runs_step; [apply runs_load, conversion_visible; exact I|].
    intros w1. apply run_initialized.
  - repeat runs_step.
Qed.

Lemma runs_transcode (audioFile : File) : respects R (transcode audioFile).
Proof.
  unfold transcode. cbv zeta.
  runs_step; [apply runs_fetchFile|].
  runs_step; [apply runs_writeFile, conversion_visible; exact I|].
  runs_step; [apply runs_exec, conversion_visible; exact I|].
  runs_step; [apply runs_readFile, conversion_visible; exact I|].
  runs_step; [apply runs_rm|].
  runs_step; [apply runs_rm|].
  runs_step.
Qed.

Lemma runs_convertToWav (audioFile : File) :
  respects R (convertToWav audioFile).
Proof.
  unfold convertToWav. runs_step.
  { intros w. apply run_newToken. }
  runs_step.
  - runs_step; [apply runs_ensureFFmpeg|].
    apply runs_bind; [apply runs_get|intros w].
    destruct (abortController w) as [c|]; [|runs_step].
    destruct (aborted c); [runs_step|apply runs_transcode].
  - repeat runs_step.
Qed.

End Runs.

(** ** What a suspension adds to the trace *)

Lemma deliver_trace (e : EngineEvent) (w : World) :
  exists t, trace (snd (deliver e w)) = trace w ++ t /\ Forall engineReport t.
Proof.
  assert (Hnone : exists t, trace w = trace w ++ t /\ Forall engineReport t)
    by (exists []; split; [symmetry; apply app_nil_r|constructor]).
  unfold deliver, bind, get. destruct (listening (ffmpeg w)); [|exact Hnone].
  destruct e as [value time|message].
  - unfold onEngineProgress, bind, get. rewrite updateProgress_eq. cbn [snd].
    eexists. split; [apply published_trace|].
    constructor; [|constructor]. split; reflexivity.
  - unfold onEngineLog. destruct (Bitrate.search message); [|exact Hnone].
    unfold bind, get. rewrite updateProgress_eq. cbn [snd].
    eexists. split; [apply published_trace|].
    constructor; [|constructor]. split; reflexivity.
Qed.

Lemma delivered_trace (es : list EngineEvent) (w : World) :
  exists t, trace (delivered es w) = trace w ++ t /\ Forall engineReport t.
Proof.
  unfold delivered. revert w. induction es as [|e es IH]; intros w.
  - exists []. split; [symmetry; apply app_nil_r|constructor].
  - cbn [deliverAll]. unfold bind.
    destruct (deliver_eq e w) as [He _].
    destruct (deliver_trace e w) as (t1 & H1 & F1).
    destruct (deliver e w) as [o w1]. cbn [fst snd] in *. subst o.
    destruct (IH w1) as (t2 & H2 & F2). exists (t1 ++ t2).
    split; [rewrite H2, H1, app_assoc; reflexivity|].
    apply Forall_app; split; assumption.
Qed.

(** What a suspension adds: the reports of the engine's handlers, and the
    termination of the engine if the consumer cancels. *)
Lemma resumed_trace (w : World) :
  exists t,
    Forall engineReport t
    /\ trace (resumed w)
       = trace w ++ t
           ++ (if cancelRequested (interlude (env w) (clock w))
               then [Terminate] else []).
Proof.
  unfold resumed.
  destruct (delivered_trace (emitted (interlude (env w) (clock w)))
                            (setClock (S (clock w)) w)) as (t & Ht & Ft).
  exists t. split; [exact Ft|].
  destruct (cancelRequested (interlude (env w) (clock w))).
  - rewrite cancelled_eq. cbn [trace]. rewrite Ht, app_assoc. reflexivity.
  - rewrite Ht, app_nil_r. reflexivity.
Qed.

(** A suspension during which the engine emits nothing. *)
Lemma resumed_silent (w : World) :
  emitted (interlude (env w) (clock w)) = [] ->
  heap (resumed w) = heap w
  /\ trace (resumed w)
     = trace w ++ (if cancelRequested (interlude (env w) (clock w))
                   then [Terminate] else []).
Proof.
  intros He. unfold resumed. rewrite He.
  change (delivered [] (setClock (S (clock w)) w))
    with (setClock (S (clock w)) w).
  destruct (cancelRequested (interlude (env w) (clock w))).
  - rewrite cancelled_eq. split; reflexivity.
  - split; [reflexivity|]. symmetry. apply app_nil_r.
Qed.

(** ** Relations of runs *)

Lemma extends_same (P : Event -> Prop) (w w' : World) :
  trace w' = trace w -> extends P w w'.
Proof.
  intros Ht. exists []. split; [rewrite app_nil_r; exact Ht|constructor].
Qed.

Lemma extends_run (P visible : Event -> Prop) (reported : ProcessStage -> Prop) :
  (forall ev, engineReport ev -> P ev) -> P Terminate ->
  (forall ev, visible ev -> P ev) ->
  (forall stage l, reported stage -> P (Callback stage l None)) ->
  Run (extends P) visible reported.
Proof.
  intros Hengine Hterm Hvis Hrep. split.
  - apply extends_preorder.
  - intros w. destruct (resumed_trace w) as (t & Ft & Ht).
    eexists. split; [exact Ht|]. apply Forall_app. split.
    + eapply Forall_impl; [exact Ft|]. exact Hengine.
    + destruct (cancelRequested (interlude (env w) (clock w)));
        repeat constructor. exact Hterm.
  - intros w e He. eexists. split; [reflexivity|].
    constructor; [apply Hvis, He|constructor].
  - intros w stage value Hs _. eexists. split; [apply published_trace|].
    constructor; [apply Hrep, Hs|constructor].
  - intros w f. apply extends_same. reflexivity.
  - intros w. apply extends_same. reflexivity.
  - intros w. apply extends_same. reflexivity.
Qed.

#[local] Instance onlyStages_preorder (changed : ProcessStage -> Prop) :
  PreOrder (onlyStages changed).
Proof.
  split.
  - intros w Hwf. split; [exact Hwf|reflexivity].
  - intros w1 w2 w3 H12 H23 Hwf. destruct (H12 Hwf) as [Hwf2 Hs12].
    destruct (H23 Hwf2) as [Hwf3 Hs23]. split; [exact Hwf3|].
    intros s Hs. rewrite Hs23, Hs12; auto.
Qed.

Lemma onlyStages_run (changed : ProcessStage -> Prop) :
  changed Converting -> Run (onlyStages changed) anyEvent changed.
Proof.
  intros Hconv. split.
  - apply onlyStages_preorder.
  - intros w Hwf. destruct (aside_resumed w Hwf) as (F & Hs & _).
    split; [eapply frame_wf; eassumption|].
    intros s Hn. apply Hs. intros ->. exact (Hn Hconv).
  - intros w e _ Hwf. split; [exact Hwf|reflexivity].
  - intros w stage value Hst _ Hwf.
    split; [eapply frame_wf; [apply frame_published|exact Hwf]|].
    intros s Hn. rewrite published_own by exact Hwf.
    apply slot_setSlot_other. intros ->. exact (Hn Hst).
  - intros w f Hwf. split; [exact Hwf|reflexivity].
  - intros w Hwf. split; [exact Hwf|reflexivity].
  - intros w Hwf. split; [exact Hwf|reflexivity].
Qed.

#[local] Instance unreported_preorder : PreOrder unreported.
Proof.
  split.
  - intros w. split; [reflexivity|]. intros _. repeat split.
    apply extends_same. reflexivity.
  - intros w1 w2 w3 [E12 H12] [E23 H23]. split; [congruence|]. intros Hs.
    destruct (H12 Hs) as (Hh12 & Hp12 & X12).
    rewrite <- E12 in Hs. destruct (H23 Hs) as (Hh23 & Hp23 & X23).
    split; [congruence|]. split; [congruence|].
    etransitivity; eassumption.
Qed.

Lemma unreported_run : Run unreported isCall (fun _ => False).
Proof.
  split.
  - apply unreported_preorder.
  - intros w. split; [apply resumed_env|]. intros Hs.
    destruct (resumed_silent w (Hs (clock w))) as [Hh Ht].
    split; [exact Hh|]. split; [apply resumed_progress|].
    eexists. split; [exact Ht|].
    destruct (cancelRequested (interlude (env w) (clock w)));
      repeat constructor.
  - intros w e He. split; [reflexivity|]. intros _. repeat split.
    eexists. split; [reflexivity|]. constructor; [|constructor].
    destruct e; try exact I; destruct He.
  - intros w stage value [].
  - intros w f. split; [reflexivity|]. intros _. repeat split.
    apply extends_same. reflexivity.
  - intros w. split; [reflexivity|]. intros _. repeat split.
    apply extends_same. reflexivity.
  - intros w. split; [reflexivity|]. intros _. repeat split.
    apply extends_same. reflexivity.
Qed.

#[local] Instance cancelMarked_preorder : PreOrder cancelMarked.
Proof.
  split.
  - intros w. split; [reflexivity|]. split; [lia|]. exists [].
    split; [symmetry; apply app_nil_r|]. split; [intros []|].
    intros (n & Hn & _). lia.
  - intros w1 w2 w3 (E12 & C12 & s1 & T12 & M12) (E23 & C23 & s2 & T23 & M23).
    split; [congruence|]. split; [lia|]. exists (s1 ++ s2).
    split; [rewrite T23, T12, app_assoc; reflexivity|].
    rewrite in_app_iff, M12, M23, E12. split.
    + intros [(n & Hn & Hq)|(n & Hn & Hq)]; exists n; (split; [lia|exact Hq]).
    + intros (n & Hn & Hq). destruct (Nat.lt_ge_cases n (clock w2)).
      * left. exists n. split; [lia|exact Hq].
      * right. exists n. split; [lia|exact Hq].
Qed.

Lemma engineReport_not_Terminate (t : list Event) :
  Forall engineReport t -> ~ In Terminate t.
Proof.
  intros Ft Hin. rewrite List.Forall_forall in Ft. exact (Ft _ Hin).
Qed.

Lemma cancelMarked_run : Run cancelMarked isCall (fun _ => True).
Proof.
  assert (Hsame : forall (w w' : World),
             env w' = env w -> clock w' = clock w -> trace w' = trace w ->
             cancelMarked w w').
  { intros w w' He Hc Ht. split; [exact He|]. split; [lia|]. exists [].
    split; [rewrite app_nil_r; exact Ht|]. split; [intros []|].
    intros (n & Hn & _). lia. }
  assert (Hone : forall (w w' : World) (ev : Event),
             env w' = env w -> clock w' = clock w ->
             trace w' = trace w ++ [ev] -> ev <> Terminate ->
             cancelMarked w w').
  { intros w w' ev He Hc Ht Hev. split; [exact He|]. split; [lia|].
    exists [ev]. split; [exact Ht|]. split.
    - intros [H|[]]. congruence.
    - intros (n & Hn & _). lia. }
  split.
  - apply cancelMarked_preorder.
  - intros w. split; [apply resumed_env|].
    split; [rewrite resumed_clock; lia|].
    destruct (resumed_trace w) as (t & Ft & Ht). eexists.
    split; [exact Ht|]. rewrite resumed_clock, in_app_iff. split.
    + intros [H|H]; [destruct (engineReport_not_Terminate _ Ft H)|].
      exists (clock w). split; [lia|].
      destruct (cancelRequested (interlude (env w) (clock w)));
        [reflexivity|destruct H].
    + intros (n & Hn & Hq). right.
      replace n with (clock w) in Hq by lia. rewrite Hq. left. reflexivity.
  - intros w e He. apply (Hone w (record e w) e); try reflexivity.
    intros ->. exact He.
  - intros w stage value _ _.
    apply (Hone w _ (Callback stage (length (heap w)) None));
      [reflexivity|reflexivity|apply published_trace|discriminate].
  - intros w f. apply Hsame; reflexivity.
  - intros w. apply Hsame; reflexivity.
  - intros w. apply Hsame; reflexivity.
Qed.

(** ** The bounds of the slots *)

Lemma snapshots_Forall (P : ProcessingProgress -> Prop) (w : World) :
  (forall l, P (deref (heap w) l)) -> Forall P (snapshots w).
Proof.
  intros H. unfold snapshots.
  induction (trace w) as [|ev t IH]; [constructor|].
  cbn [flat_map]. apply Forall_app. split; [|exact IH].
  destruct ev; try constructor; [apply H|constructor].
Qed.

Lemma numericEnv_during (n : nat) (i : Interlude) (e : Env) :
  Forall numericEvent (emitted i) -> numericEnv e ->
  numericEnv (during n i e).
Proof.
  intros Hi He k. unfold during. cbn [interlude].
  destruct (k =? n)%nat; [exact Hi|apply He].
Qed.

Lemma numericEnv_sampleEnv : numericEnv sampleEnv.
Proof. intros n. constructor. Qed.

(** ** The order of the values a slot shows *)

Lemma leb_refl (a : number) : a <> NaN -> Num.leb a a = true.
Proof.
  destruct a; cbn; try congruence. intros _. apply Qle_bool_iff, Qle_refl.
Qed.

Lemma leb_trans (a b c : number) :
  Num.leb a b = true -> Num.leb b c = true -> Num.leb a c = true.
Proof.
  destruct a, b, c; cbn; try congruence. rewrite !Qle_bool_iff.
  apply Qle_trans.
Qed.

Lemma leb_right (a b : number) : Num.leb a b = true -> b <> NaN.
Proof. destruct a, b; cbn; congruence. Qed.

Lemma nondecreasing_cons (a b : number) (t : list number) :
  nondecreasing (a :: b :: t) = Num.leb a b && nondecreasing (b :: t).
Proof. reflexivity. Qed.

Lemma nondecreasing_init (l : list number) (a : number) :
  nondecreasing (l ++ [a]) = true -> nondecreasing l = true.
Proof.
  induction l as [|x l IH]; [reflexivity|].
  destruct l as [|y l]; [reflexivity|].
  change (nondecreasing (x :: y :: (l ++ [a])) = true ->
          nondecreasing (x :: y :: l) = true).
  rewrite !nondecreasing_cons, !andb_true_iff. intros [H1 H2].
  split; [exact H1|apply IH, H2].
Qed.

Lemma nondecreasing_snoc (l : list number) (a b : number) :
  nondecreasing (l ++ [a]) = true -> Num.leb a b = true ->
  nondecreasing ((l ++ [a]) ++ [b]) = true.
Proof.
  intros Hl Hab. induction l as [|x l IH].
  - cbn. rewrite Hab. reflexivity.
  - destruct l as [|y l].
    + change (nondecreasing [x; a] = true) in Hl.
      change (nondecreasing [x; a; b] = true).
      rewrite nondecreasing_cons in Hl. rewrite !nondecreasing_cons.
      rewrite andb_true_iff in Hl. destruct Hl as [Hxa _].
      rewrite Hxa, Hab. reflexivity.
    + change (nondecreasing (x :: y :: (l ++ [a])) = true) in Hl.
      change (nondecreasing (x :: y :: ((l ++ [a]) ++ [b])) = true).
      rewrite nondecreasing_cons, andb_true_iff in Hl. destruct Hl as [Hxy Hl].
      rewrite nondecreasing_cons, Hxy. apply IH, Hl.
Qed.

Lemma nondecreasing_last (l : list number) (a b : number) :
  nondecreasing (l ++ [a]) = true -> Num.leb a b = true ->
  nondecreasing (l ++ [b]) = true.
Proof.
  intros Hl Hab. induction l as [|x l IH]; [reflexivity|].
  destruct l as [|y l].
  - change (nondecreasing [x; a] = true) in Hl.
    change (nondecreasing [x; b] = true).
    rewrite nondecreasing_cons, andb_true_iff in Hl. destruct Hl as [Hxa _].
    rewrite nondecreasing_cons, (leb_trans _ _ _ Hxa Hab). reflexivity.
  - change (nondecreasing (x :: y :: (l ++ [a])) = true) in Hl.
    change (nondecreasing (x :: y :: (l ++ [b])) = true).
    rewrite nondecreasing_cons, andb_true_iff in Hl. destruct Hl as [Hxy Hl].
    rewrite nondecreasing_cons, Hxy. apply IH, Hl.
Qed.

(** The value a slot holds is shown again. *)
Lemma nondecreasing_repeat (l : list number) (a : number) (k : nat) :
  a <> NaN -> nondecreasing (l ++ [a]) = true ->
  nondecreasing ((l ++ repeat a k) ++ [a]) = true.
Proof.
  intros Ha Hl. induction k as [|k IH].
  - cbn [repeat]. rewrite app_nil_r. exact Hl.
  - cbn [repeat]. rewrite repeat_cons, app_assoc.
    apply nondecreasing_snoc; [exact IH|].
    apply leb_refl, Ha.
Qed.

(** The slot is raised, and the new value shown. *)
Lemma nondecreasing_raise (l : list number) (a b : number) :
  nondecreasing (l ++ [a]) = true -> Num.leb a b = true ->
  nondecreasing ((l ++ [b]) ++ [b]) = true.
Proof.
  intros Hl Hab. apply nondecreasing_snoc.
  - eapply nondecreasing_last; eassumption.
  - apply leb_refl. eapply leb_right, Hab.
Qed.

(** ** The records the callbacks received *)

Lemma received_app (h : list ProcessingProgress) (t1 t2 : list Event) :
  received h (t1 ++ t2) = received h t1 ++ received h t2.
Proof. apply flat_map_app. Qed.

(** A record handed out is read the same after a step. *)
Lemma received_frame (w w' : World) (t : list Event) :
  frame w w' ->
  (forall stage l details,
      In (Callback stage l details) t ->
      (l < length (heap w))%nat /\ l <> progress w) ->
  received (heap w') t = received (heap w) t.
Proof.
  intros F. induction t as [|ev t IH]; intros Ht; [reflexivity|].
  cbn [received flat_map]. fold (received (heap w') t) (received (heap w) t).
  rewrite IH by (intros stage l d Hin; apply (Ht stage l d); right; exact Hin).
  destruct ev; try reflexivity.
  destruct (Ht stage snapshot details (or_introl eq_refl)) as [Hl Hne].
  rewrite (frame_deref w w' snapshot F Hl Hne). reflexivity.
Qed.

Lemma received_showing (stage : ProcessStage) (w w' : World)
    (mid : list Event) :
  Forall (showing stage w w') mid ->
  exists k,
    map (fun p => slot p stage) (received (heap w') mid)
    = repeat (slot (own w) stage) k.
Proof.
  induction 1 as [|ev mid Hev _ (k & IH)]; [exists 0%nat; reflexivity|].
  cbn [received flat_map]. fold (received (heap w') mid).
  rewrite map_app, IH.
  destruct ev; try (exists k; reflexivity).
  destruct Hev as [_ Hs]. exists (S k). cbn [map app repeat]. rewrite Hs.
  reflexivity.
Qed.

(** What a step adds to the values shown, when its callbacks receive new
    records. *)
Lemma shown_extends (stage : ProcessStage) (w w' : World) (mid : list Event) :
  frame w w' -> handedOut w -> trace w' = trace w ++ mid ->
  (forall s l details,
      In (Callback s l details) mid ->
      (length (heap w) <= l < length (heap w'))%nat) ->
  handedOut w'
  /\ shown stage w'
     = shown stage w
         ++ map (fun p => slot p stage) (received (heap w') mid).
Proof.
  intros F [Hwf Hold] Ht Hmid. pose proof F as (Hp & Hlen & _). split.
  - split; [eapply frame_wf; eassumption|].
    intros s l d. rewrite Ht, in_app_iff. intros [Hin|Hin].
    + destruct (Hold s l d Hin). rewrite Hp. split; [lia|assumption].
    + specialize (Hmid s l d Hin). unfold wf in Hwf. rewrite Hp.
      split; lia.
  - unfold shown, snapshots. fold (received (heap w') (trace w'))
                                  (received (heap w) (trace w)).
    rewrite Ht, received_app, map_app.
    rewrite (received_frame w w' (trace w) F Hold). reflexivity.
Qed.

(** ** A slot that is not written *)

#[local] Instance slotKept_preorder (stage : ProcessStage) :
  PreOrder (slotKept stage).
Proof.
  split.
  - intros w Hwf. split; [reflexivity|]. split; [reflexivity|].
    exists []. split; [symmetry; apply app_nil_r|constructor].
  - intros w1 w2 w3 H12 H23 Hwf1.
    destruct (H12 Hwf1) as (F12 & Hs12 & mid1 & Htr1 & Hm1).
    pose proof (frame_wf _ _ F12 Hwf1) as Hwf2.
    destruct (H23 Hwf2) as (F23 & Hs23 & mid2 & Htr2 & Hm2).
    split; [etransitivity; eassumption|].
    split; [rewrite Hs23, Hs12; reflexivity|].
    exists (mid1 ++ mid2). split; [rewrite Htr2, Htr1, app_assoc; reflexivity|].
    destruct F12 as (Hp12 & Hl12 & Hf12). pose proof F23 as (Hp23 & Hl23 & Hf23).
    apply Forall_app. split.
    + eapply Forall_impl; [exact Hm1|]. intros ev Hev.
      destruct ev; cbn [showing] in *; try exact I.
      destruct Hev as (Hl & Hsl).
      assert (Hd : deref (heap w3) snapshot = deref (heap w2) snapshot).
      { apply frame_deref; [exact F23|lia|]. unfold wf in Hwf1. lia. }
      rewrite Hd. split; [lia|exact Hsl].
    + eapply Forall_impl; [exact Hm2|]. intros ev Hev.
      destruct ev; cbn [showing] in *; try exact I.
      destruct Hev as (Hl & Hsl). split; [lia|].
      rewrite Hsl, Hs12. reflexivity.
Qed.

Lemma slotKept_same (stage : ProcessStage) (w w' : World) :
  heap w' = heap w -> progress w' = progress w ->
  (exists ev, trace w' = trace w ++ ev /\ Forall notCallback ev) ->
  slotKept stage w w'.
Proof.
  intros Hh Hp (ev & Ht & Hev) Hwf. split.
  - split; [exact Hp|]. rewrite Hh. split; [lia|reflexivity].
  - split; [unfold own; rewrite Hh, Hp; reflexivity|].
    exists ev. split; [exact Ht|].
    eapply Forall_impl; [exact Hev|]. intros x Hx.
    destruct x; try exact I. destruct Hx.
Qed.

(** The methods that report other stages, and the suspensions, keep the
    slot of the second and of the third stage. *)
Lemma slotKept_run (stage : ProcessStage) :
  stage <> Converting ->
  Run (slotKept stage) notCallback (fun s => s <> stage).
Proof.
  intros Hstage.
  assert (Hfields : forall (w w' : World),
             heap w' = heap w -> progress w' = progress w ->
             trace w' = trace w -> slotKept stage w w').
  { intros w w' Hh Hp Ht. apply slotKept_same; [exact Hh|exact Hp|].
    exists []. split; [rewrite app_nil_r; exact Ht|constructor]. }
  split.
  - apply slotKept_preorder.
  - intros w Hwf. destruct (aside_resumed w Hwf) as (F & Hs & mid & Ht & Hm).
    split; [exact F|]. split; [apply Hs, Hstage|].
    exists mid. split; [exact Ht|].
    eapply Forall_impl; [exact Hm|]. intros ev Hev.
    destruct ev; cbn [bystander showing] in *; try exact I.
    destruct Hev as (_ & Hl & Hsl). split; [exact Hl|apply Hsl, Hstage].
  - intros w e He. apply slotKept_same; [reflexivity|reflexivity|].
    exists [e]. split; [reflexivity|]. constructor; [exact He|constructor].
  - intros w s value Hs _ Hwf. split; [apply frame_published|].
    rewrite published_own by exact Hwf.
    split; [apply slot_setSlot_other; congruence|].
    eexists. split; [apply published_trace|].
    constructor; [|constructor]. cbn [showing].
    split; [rewrite published_length; lia|].
    unfold deref. rewrite published_snapshot by exact Hwf.
    apply slot_setSlot_other. congruence.
  - intros w f. apply Hfields; reflexivity.
  - intros w. apply Hfields; reflexivity.
  - intros w. apply Hfields; reflexivity.
Qed.

Lemma slotKept_cancelled (stage : ProcessStage) (w : World) :
  slotKept stage w (cancelled w).
Proof.
  rewrite cancelled_eq. apply slotKept_same; [reflexivity|reflexivity|].
  exists [Terminate]. split; [reflexivity|]. repeat constructor.
Qed.

(** While the slot is not written the callbacks are shown the value it
    holds. *)
Lemma slotKept_shown (stage : ProcessStage) (w w' : World) :
  slotKept stage w w' -> handedOut w ->
  handedOut w'
  /\ slot (own w') stage = slot (own w) stage
  /\ exists k, shown stage w' = shown stage w ++ repeat (slot (own w) stage) k.
Proof.
  intros Hk Hw. destruct (Hk (proj1 Hw)) as (F & Hs & mid & Ht & Hm).
  destruct (shown_extends stage w w' mid F Hw Ht) as [Hw' Hsh].
  { intros s l d Hin. rewrite List.Forall_forall in Hm.
    exact (proj1 (Hm _ Hin)). }
  split; [exact Hw'|]. split; [exact Hs|].
  destruct (received_showing stage w w' mid Hm) as (k & Hr).
  exists k. rewrite Hsh, Hr. reflexivity.
Qed.

Lemma rising_kept (stage : ProcessStage) (w w' : World) :
  slotKept stage w w' -> rising stage w ->
  rising stage w' /\ slot (own w') stage = slot (own w) stage.
Proof.
  intros Hk (Hw & Hn & Hr).
  destruct (slotKept_shown stage w w' Hk Hw) as (Hw' & Hs & k & Hsh).
  split; [|exact Hs]. split; [exact Hw'|]. rewrite Hs, Hsh.
  split; [exact Hn|]. apply nondecreasing_repeat; assumption.
Qed.

(** A report that does not lower the slot. *)
Lemma rising_report (stage : ProcessStage) (value : number) details
    (w : World) :
  rising stage w -> Num.leb (slot (own w) stage) (clamp value) = true ->
  rising stage (published stage value details w)
  /\ slot (own (published stage value details w)) stage = clamp value.
Proof.
  intros (Hw & Hn & Hr) Hle. pose proof (proj1 Hw) as Hwf.
  set (w' := published stage value details w).
  assert (Hown : slot (own w') stage = clamp value).
  { unfold w'. rewrite published_own by exact Hwf. apply slot_setSlot_same. }
  destruct (shown_extends stage w w' [Callback stage (length (heap w)) details])
    as [Hw' Hsh].
  - apply frame_published.
  - exact Hw.
  - apply published_trace.
  - intros s l d [H|[]]. injection H as _ <- _. unfold w'.
    rewrite published_length. lia.
  - split; [|exact Hown]. split; [exact Hw'|]. rewrite Hown.
    split; [eapply leb_right, Hle|]. rewrite Hsh.
    cbn [received flat_map app map]. unfold deref, w'.
    rewrite published_snapshot by exact Hwf. cbn [default from_option id].
    rewrite slot_setSlot_same.
    eapply nondecreasing_raise; eassumption.
Qed.

(** The two reports of the second and of the third stage, from a slot at
    0. *)
Lemma rising_stage (stage : ProcessStage) (request : Event) (w : World) :
  stage <> Converting -> notCallback request ->
  rising stage w -> slot (own w) stage = Num.zero ->
  let w3 := resumed (record request (published stage Num.tenth None w)) in
  rising stage w3 /\ rising stage (published stage Num.one None w3).
Proof.
  intros Hstage Hreq Hr H0 w3.
  pose proof (slotKept_run stage Hstage) as Hrun.
  destruct (rising_report stage Num.tenth None w Hr) as [Hr1 Hs1].
  { rewrite H0, clamp_tenth. reflexivity. }
  set (w1 := published stage Num.tenth None w) in *.
  destruct (rising_kept stage w1 w3) as [Hr3 Hs3]; [|exact Hr1|].
  { transitivity (record request w1);
      [apply run_record, Hreq|apply run_suspension]. }
  split; [exact Hr3|].
  apply rising_report; [exact Hr3|].
  rewrite Hs3, Hs1, clamp_tenth, clamp_one. reflexivity.
Qed.

Lemma rising_transcribeAudio (audioBlob : Blob) (w : World) :
  rising Transcribing w -> slot (own w) Transcribing = Num.zero ->
  rising Transcribing (snd (transcribeAudio audioBlob w)).
Proof.
  intros Hr H0. destruct (signalled w) eqn:Hs.
  - unfold transcribeAudio, bind, get. rewrite Hs. exact Hr.
  - rewrite (transcribeAudio_eq audioBlob w Hs). cbv zeta.
    destruct (rising_stage Transcribing (transcriptionRequest audioBlob) w)
      as [H3 H4]; [discriminate|exact I|exact Hr|exact H0|].
    destruct (fault (env w) (clock w)); assumption.
Qed.

Lemma rising_segmentByTopics (transcription : string) (w : World) :
  rising Analyzing w -> slot (own w) Analyzing = Num.zero ->
  rising Analyzing (snd (segmentByTopics transcription w)).
Proof.
  intros Hr H0. destruct (signalled w) eqn:Hs.
  - unfold segmentByTopics, bind, get. rewrite Hs. exact Hr.
  - rewrite (segmentByTopics_eq transcription w Hs). cbv zeta.
    destruct (rising_stage Analyzing (chatRequest transcription) w)
      as [H3 H4]; [discriminate|exact I|exact Hr|exact H0|].
    destruct (fault (env w) (clock w)); [exact H3|].
    destruct (choices (completion (env w) (clock w))) as [|c rest];
      [exact H4|].
    destruct (JSON.parse (default "null" (content c))); exact H4.
Qed.

(** A call of another method keeps the slot of a stage. *)
Lemma after_slotKept (stage : ProcessStage) (c : Call) (w : World) :
  stage <> Converting -> callsStage stage c = false ->
  slotKept stage w (after c w).
Proof.
  intros Hstage Hc. pose proof (slotKept_run stage Hstage) as Hrun.
  destruct c as [|audioFile|audioBlob|transcription]; cbn [after].
  - apply slotKept_cancelled.
  - apply (runs_convertToWav (slotKept stage) notCallback
                             (fun s => s <> stage)).
    intros e He _. destruct e; try exact I; destruct He.
  - apply (runs_transcribeAudio (slotKept stage) notCallback
                                (fun s => s <> stage)); [exact I|].
    intros <-. discriminate.
  - apply (runs_segmentByTopics (slotKept stage) notCallback
                                (fun s => s <> stage)); [exact I|].
    intros <-. discriminate.
Qed.

Lemma rising_after (stage : ProcessStage) (c : Call) (w : World) :
  stage <> Converting -> callsStage stage c = true ->
  rising stage w -> slot (own w) stage = Num.zero ->
  rising stage (after c w).
Proof.
  intros Hstage Hc Hr H0.
  destruct stage, c; try discriminate; try congruence; cbn [after].
  - apply rising_transcribeAudio; assumption.
  - apply rising_segmentByTopics; assumption.
Qed.

Lemma rising_uncalled (stage : ProcessStage) (cs : list Call) (w : World) :
  stage <> Converting -> timesCalled stage cs = 0%nat ->
  rising stage w ->
  rising stage (afterAll cs w)
  /\ slot (own (afterAll cs w)) stage = slot (own w) stage.
Proof.
  intros Hstage. revert w. induction cs as [|c cs IH]; intros w Hn Hr.
  - split; [exact Hr|reflexivity].
  - unfold timesCalled in Hn. cbn [List.filter] in Hn.
    destruct (callsStage stage c) eqn:Hc; [discriminate|].
    destruct (rising_kept stage w (after c w)) as [Hr1 Hs1];
      [apply after_slotKept; assumption|exact Hr|].
    change (afterAll (c :: cs) w) with (afterAll cs (after c w)).
    destruct (IH (after c w) Hn Hr1) as [Hr2 Hs2].
    split; [exact Hr2|congruence].
Qed.

(** A slot of the second or third stage never goes down in a run that
    calls the method of the stage at most once. *)
Lemma rising_afterAll (stage : ProcessStage) (cs : list Call) (w : World) :
  stage <> Converting -> (timesCalled stage cs <= 1)%nat ->
  rising stage w -> slot (own w) stage = Num.zero ->
  rising stage (afterAll cs w).
Proof.
  intros Hstage. revert w. induction cs as [|c cs IH]; intros w Hn Hr H0.
  - exact Hr.
  - change (afterAll (c :: cs) w) with (afterAll cs (after c w)).
    unfold timesCalled in Hn. cbn [List.filter] in Hn.
    destruct (callsStage stage c) eqn:Hc.
    + apply rising_uncalled; [exact Hstage|cbn [length] in Hn; unfold timesCalled; lia|].
      apply rising_after; assumption.
    + destruct (rising_kept stage w (after c w)) as [Hr1 Hs1];
        [apply after_slotKept; assumption|exact Hr|].
      apply IH; [exact Hn|exact Hr1|congruence].
Qed.

Lemma rising_newAudioProcessor (stage : ProcessStage) (e : Env) :
  rising stage (newAudioProcessor e)
  /\ slot (own (newAudioProcessor e)) stage = Num.zero.
Proof.
  split; [|destruct stage; reflexivity].
  split.
  - split; [apply wf_newAudioProcessor|].
    intros s l d [H|[]]. discriminate.
  - split; [destruct stage; discriminate|destruct stage; reflexivity].
Qed.

(** The run of the three stages is a run of calls, each stage called at
    most once. *)
Lemma pipeline_calls (audioFile : File) (w : World) :
  exists cs,
    snd (pipeline audioFile w) = afterAll cs w
    /\ forall stage, (timesCalled stage cs <= 1)%nat.
Proof.
  unfold pipeline, bind.
  destruct (convertToWav audioFile w) as [[b|x] w1] eqn:H1.
  - destruct (transcribeAudio b w1) as [[t|x] w2] eqn:H2.
    + exists [CallConvertToWav audioFile; CallTranscribeAudio b;
              CallSegmentByTopics t].
      split; [|intros []; cbn; lia].
      cbn [afterAll fold_left after]. rewrite H1. cbn [snd]. rewrite H2.
      reflexivity.
    + exists [CallConvertToWav audioFile; CallTranscribeAudio b].
      split; [|intros []; cbn; lia].
      cbn [afterAll fold_left after]. rewrite H1. cbn [snd]. rewrite H2.
      reflexivity.
  - exists [CallConvertToWav audioFile]. split; [|intros []; cbn; lia].
    cbn [afterAll fold_left after]. rewrite H1. reflexivity.
Qed.

Lemma unitHeap_afterAll (cs : list Call) (w : World) :
  unitHeap w -> unitHeap (afterAll cs w).
Proof.
  revert w. induction cs as [|c cs IH]; intros w Hw; [exact Hw|].
  change (afterAll (c :: cs) w) with (afterAll cs (after c w)). apply IH.
  destruct c as [|audioFile|audioBlob|transcription]; cbn [after].
  - apply (respects_cancel (keeps unitHeap) anyEvent w Hw).
  - apply (respects_convertToWav (keeps unitHeap) anyEvent (fun _ => I)
                                 audioFile w Hw).
  - apply (respects_transcribeAudio (keeps unitHeap) anyEvent audioBlob I
                                    w Hw).
  - apply (respects_segmentByTopics (keeps unitHeap) anyEvent transcription I
                                    w Hw).
Qed.

(** C3, as stated, fails for the first slot.  A slot takes the value last
    reported: an engine that reports a half and then a quarter makes the
    converting slot go down from one snapshot to the next.  And the clamp
    lets NaN through: an engine that reports NaN puts NaN into the slot. *)
Lemma progress_can_decrease :
  map converting
      (snapshots (snd (pipeline sampleFile (newAudioProcessor droppingEnv))))
  = [Finite (1 # 2); Finite (1 # 4)]
  /\ nondecreasing
       (map converting
            (snapshots (snd (pipeline sampleFile
                                      (newAudioProcessor droppingEnv)))))
     = false
  /\ In NaN
        (map converting
             (snapshots (snd (pipeline sampleFile
                                       (newAudioProcessor nanEnv)))))
  /\ ~ Num.in_unit NaN.
Proof.
  split; [vm_compute; reflexivity|].
  split; [vm_compute; reflexivity|].
  split; [vm_compute; left; reflexivity|].
  intros H. exact H.
Qed.

(** C3, amended: a report stores the clamp of its value in the slot of its
    stage and hands out a copy of the record; the clamp of anything but NaN
    lies in the unit interval; so, with an engine that never reports NaN,
    every slot of every snapshot lies in the unit interval, whatever the
    calls made on the processor.  The transcribing and the analyzing slot
    never go down from one snapshot to the next in a run that calls the
    method of the stage at most once, as the run of the three stages does.
    Only the converting slot, which follows the engine's reports, is not
    kept from going down. *)
Theorem progress_slots_within_unit_interval :
  (forall (w : World) stage value details,
      wf w ->
      let w' := published stage value details w in
      slot (own w') stage = clamp value
      /\ heap w' !! length (heap w) = Some (own w')
      /\ (value <> NaN -> Num.in_unit (slot (own w') stage)))
  /\ (forall (e : Env) (audioFile : File),
         numericEnv e ->
         Forall unitRecord
                (snapshots (snd (pipeline audioFile (newAudioProcessor e)))))
  /\ (forall (e : Env) (cs : list Call),
         numericEnv e ->
         Forall unitRecord (snapshots (afterAll cs (newAudioProcessor e))))
  /\ (forall (e : Env) (cs : list Call) (stage : ProcessStage),
         stage <> Converting -> (timesCalled stage cs <= 1)%nat ->
         nondecreasing
           (map (fun p => slot p stage)
                (snapshots (afterAll cs (newAudioProcessor e))))
         = true)
  /\ (forall (e : Env) (audioFile : File),
         let w := snd (pipeline audioFile (newAudioProcessor e)) in
         nondecreasing (map transcribing (snapshots w)) = true
         /\ nondecreasing (map analyzing (snapshots w)) = true).
Proof.
  assert (Hcalls : forall (e : Env) (cs : list Call) (stage : ProcessStage),
             stage <> Converting -> (timesCalled stage cs <= 1)%nat ->
             nondecreasing (shown stage (afterAll cs (newAudioProcessor e)))
             = true).
  { intros e cs stage Hstage Hn.
    destruct (rising_newAudioProcessor stage e) as [Hr H0].
    destruct (rising_afterAll stage cs _ Hstage Hn Hr H0) as (_ & _ & H).
    eapply nondecreasing_init, H. }
  assert (Hunit : forall e, numericEnv e -> unitHeap (newAudioProcessor e)).
  { intros e He. split; [exact He|].
    constructor; [apply unitRecord_noProgress|constructor]. }
  split; [|split; [|split; [|split]]].
  - intros w stage value details Hwf w'. unfold w'.
    rewrite published_own by exact Hwf.
    rewrite published_snapshot by exact Hwf.
    rewrite slot_setSlot_same.
    split; [reflexivity|]. split; [reflexivity|]. apply clamp_in_unit.
  - intros e audioFile He. apply snapshots_Forall. intros l.
    apply deref_Forall; [apply unitRecord_noProgress|].
    apply (respects_pipeline (keeps unitHeap) anyEvent (fun _ => I) audioFile
                             (newAudioProcessor e)).
    apply Hunit, He.
  - intros e cs He. apply snapshots_Forall. intros l.
    apply deref_Forall; [apply unitRecord_noProgress|].
    apply unitHeap_afterAll, Hunit, He.
  - exact Hcalls.
  - intros e audioFile w.
    destruct (pipeline_calls audioFile (newAudioProcessor e)) as (cs & Hw & Hn).
    unfold w. rewrite Hw. split.
    + apply (Hcalls e cs Transcribing); [discriminate|apply Hn].
    + apply (Hcalls e cs Analyzing); [discriminate|apply Hn].
Qed.

Lemma progress_slots_within_unit_interval_witness :
  slot (own (published Converting (Finite (3 # 2)) None
                       (newAudioProcessor sampleEnv))) Converting
  = Num.one
  /\ Forall unitRecord
            (snapshots (snd (pipeline sampleFile (newAudioProcessor wildEnv))))
  /\ Forall unitRecord
            (snapshots (afterAll [CallConvertToWav sampleFile;
                                  CallTranscribeAudio sampleBlob;
                                  CallSegmentByTopics sampleTranscript]
                                 (newAudioProcessor wildEnv)))
  /\ nondecreasing
       (map (fun p => slot p Transcribing)
            (snapshots (afterAll [CallConvertToWav sampleFile;
                                  CallTranscribeAudio sampleBlob;
                                  CallSegmentByTopics sampleTranscript]
                                 (newAudioProcessor droppingEnv))))
     = true.
Proof.
  destruct progress_slots_within_unit_interval
    as (Hreport & Hrun & Hcalls & Hmono & _).
  assert (Hwild : numericEnv wildEnv).
  { apply numericEnv_during; [|apply numericEnv_sampleEnv].
    repeat constructor; discriminate. }
  split; [|split; [|split]].
  - destruct (Hreport (newAudioProcessor sampleEnv) Converting
                      (Finite (3 # 2)) None) as (Hs & _).
    + unfold wf. cbn. lia.
    + exact Hs.
  - apply Hrun, Hwild.
  - apply Hcalls, Hwild.
  - apply Hmono; [discriminate|]. cbn. lia.
Defined.

(** ** Snapshots *)

Lemma frame_publishedAll (us : list Update) (w : World) :
  frame w (publishedAll us w).
Proof.
  revert w. induction us as [|[[stage value] details] us IH]; intros w.
  - reflexivity.
  - cbn [publishedAll]. etransitivity; [apply frame_published|apply IH].
Qed.

Lemma setSlot_same (p : ProcessingProgress) :
  setSlot p Converting (converting p) = p.
Proof. destruct p. reflexivity. Qed.

Lemma settledHeap_own (w : World) :
  settledHeap w -> settled (converting (own w)).
Proof.
  intros Hh.
  apply (own_Forall settledRecord w settledRecord_noProgress Hh).
Qed.

(** The two conditions under which the properties of a report are stated
    hold when a processor is constructed, and every method keeps them. *)
Lemma newAudioProcessor_sound (e : Env) :
  wf (newAudioProcessor e) /\ settledHeap (newAudioProcessor e)
  /\ unsignalled (newAudioProcessor e).
Proof.
  split; [apply wf_newAudioProcessor|]. split; [|reflexivity].
  constructor; [apply settledRecord_noProgress|constructor].
Qed.

Lemma methods_keep_sound (w : World) :
  wf w -> settledHeap w ->
  (wf (cancelled w) /\ settledHeap (cancelled w))
  /\ (forall audioFile,
         wf (snd (convertToWav audioFile w))
         /\ settledHeap (snd (convertToWav audioFile w)))
  /\ (forall audioBlob,
         wf (snd (transcribeAudio audioBlob w))
         /\ settledHeap (snd (transcribeAudio audioBlob w)))
  /\ (forall transcription,
         wf (snd (segmentByTopics transcription w))
         /\ settledHeap (snd (segmentByTopics transcription w))).
Proof.
  intros Hwf Hh. split; [|split; [|split]].
  - rewrite cancelled_eq. split; assumption.
  - intros audioFile. split.
    + apply (respects_convertToWav (keeps wf) anyEvent (fun _ => I)
                                   audioFile w Hwf).
    + apply (respects_convertToWav (keeps settledHeap) anyEvent (fun _ => I)
                                   audioFile w Hh).
  - intros audioBlob. split.
    + apply (respects_transcribeAudio (keeps wf) anyEvent audioBlob I w Hwf).
    + apply (respects_transcribeAudio (keeps settledHeap) anyEvent audioBlob I
                                      w Hh).
  - intros transcription. split.
    + apply (respects_segmentByTopics (keeps wf) anyEvent transcription I
                                      w Hwf).
    + apply (respects_segmentByTopics (keeps settledHeap) anyEvent
                                      transcription I w Hh).
Qed.

(** No method writes a record other than the one [this.progress] refers
    to. *)
Lemma methods_frame (w : World) :
  frame w (cancelled w)
  /\ (forall audioFile, frame w (snd (convertToWav audioFile w)))
  /\ (forall audioBlob, frame w (snd (transcribeAudio audioBlob w)))
  /\ (forall transcription, frame w (snd (segmentByTopics transcription w)))
  /\ (forall audioFile, frame w (snd (pipeline audioFile w))).
Proof.
  split; [apply frame_cancelled|]. split; [|split; [|split]].
  - intros audioFile.
    apply (respects_convertToWav frame anyEvent (fun _ => I)).
  - intros audioBlob. apply (respects_transcribeAudio frame anyEvent _ I).
  - intros transcription.
    apply (respects_segmentByTopics frame anyEvent _ I).
  - intros audioFile. apply (respects_pipeline frame anyEvent (fun _ => I)).
Qed.

(** C9: the callback of a report receives a record of its own, a copy of
    the three slots, which no later report and no later call of a method
    writes; and a bitrate found in the log is reported with the converting
    slot as it stands. *)
Theorem snapshot_is_independent_copy :
  (forall (w : World) stage value details (later : list Update),
      wf w ->
      let l := length (heap w) in
      let w1 := published stage value details w in
      let w2 := publishedAll later w1 in
      trace w1 = trace w ++ [Callback stage l details]
      /\ l <> progress w1
      /\ heap w1 !! l = Some (own w1)
      /\ heap w2 !! l = heap w1 !! l)
  /\ (forall (w : World) (l : nat),
         (l < length (heap w))%nat -> l <> progress w ->
         heap (cancelled w) !! l = heap w !! l
         /\ (forall audioFile,
                heap (snd (convertToWav audioFile w)) !! l = heap w !! l)
         /\ (forall audioBlob,
                heap (snd (transcribeAudio audioBlob w)) !! l = heap w !! l)
         /\ (forall transcription,
                heap (snd (segmentByTopics transcription w)) !! l
                = heap w !! l))
  /\ (forall (w : World) (message g : string),
         wf w -> settledHeap w -> listening (ffmpeg w) = true ->
         Bitrate.search message = Some g ->
         let w' := snd (deliver (LogEvent message) w) in
         trace w' = trace w ++ [Callback Converting (length (heap w))
                                         (Some (bitrateDetails g))]
         /\ own w' = own w
         /\ heap w' !! length (heap w) = Some (own w)).
Proof.
  split; [|split].
  - intros w stage value details later Hwf l w1 w2.
    split; [apply published_trace|].
    split; [unfold w1, l; rewrite progress_published; unfold wf in Hwf; lia|].
    split.
    + unfold w1, l. rewrite published_snapshot, published_own by exact Hwf.
      reflexivity.
    + destruct (frame_publishedAll later w1) as (_ & _ & Hf).
      apply Hf.
      * unfold w1, l. rewrite published_length. lia.
      * unfold w1, l. rewrite progress_published. unfold wf in Hwf. lia.
  - intros w l Hl Hne.
    destruct (methods_frame w) as (Hc & Hconv & Htrans & Hseg & _).
    split; [apply Hc; assumption|].
    split; [intros audioFile; apply (Hconv audioFile); assumption|].
    split; [intros audioBlob; apply (Htrans audioBlob); assumption|].
    intros transcription. apply (Hseg transcription); assumption.
  - intros w message g Hwf Hh Hl Hg w'.
    assert (Hw' : w' = published Converting (converting (own w))
                                 (Some (bitrateDetails g)) w).
    { unfold w', deliver, bind, get. rewrite Hl. unfold onEngineLog.
      rewrite Hg. reflexivity. }
    rewrite Hw'. pose proof (settledHeap_own w Hh) as Hs. unfold settled in Hs.
    split; [apply published_trace|].
    rewrite published_own, published_snapshot by exact Hwf.
    rewrite Hs, setSlot_same. split; reflexivity.
Qed.

Lemma snapshot_is_independent_copy_witness :
  let w := newAudioProcessor sampleEnv in
  let w1 := published Converting (Finite (1 # 2)) None w in
  let w2 := publishedAll [(Converting, Finite (3 # 4), None);
                          (Transcribing, Num.tenth, None)] w1 in
  (heap w2 !! 1%nat = Some (mkProgress (Finite (1 # 2)) Num.zero Num.zero)
   /\ own w2 = mkProgress (Finite (3 # 4)) Num.tenth Num.zero)
  /\ heap (snd (transcribeAudio sampleBlob w1)) !! 1%nat
     = Some (mkProgress (Finite (1 # 2)) Num.zero Num.zero)
  /\ own (snd (deliver (LogEvent "bitrate= 128.0kbits/s")
                       (setFFmpeg (mkFFmpeg 1 true true ∅) w1)))
     = mkProgress (Finite (1 # 2)) Num.zero Num.zero.
Proof.
  intros w w1 w2.
  destruct snapshot_is_independent_copy as (Hcopy & Hframe & Hlog).
  assert (Hwf : wf w) by (unfold wf; cbn; lia).
  split; [|split].
  - destruct (Hcopy w Converting (Finite (1 # 2)) None
                    [(Converting, Finite (3 # 4), None);
                     (Transcribing, Num.tenth, None)] Hwf)
      as (_ & _ & Hsnap & Hkept).
    split; [|reflexivity].
    change (heap w2 !! length (heap w)
            = Some (mkProgress (Finite (1 # 2)) Num.zero Num.zero)).
    unfold w2, w1. rewrite Hkept, Hsnap. reflexivity.
  - destruct (Hframe w1 1%nat) as (_ & _ & Htrans & _).
    + cbn. lia.
    + cbn. lia.
    + rewrite Htrans. reflexivity.
  - destruct (Hlog (setFFmpeg (mkFFmpeg 1 true true ∅) w1)
                   "bitrate= 128.0kbits/s" "128.0") as (_ & Hown & _).
    + unfold wf. cbn. lia.
    + unfold settledHeap. cbn. repeat constructor.
    + reflexivity.
    + vm_compute. reflexivity.
    + rewrite Hown. reflexivity.
Defined.

(** ** The conversion, step by step *)

Lemma bind_returned {A B : Type} (m : M A) (k : A -> M B) (w w' : World)
    (b : B) :
  bind m k w = (Returned b, w') ->
  exists a w1, m w = (Returned a, w1) /\ k a w1 = (Returned b, w').
Proof.
  unfold bind. destruct (m w) as [[a|e] w1]; [eauto|discriminate].
Qed.

Lemma convertToWav_eq (audioFile : File) (w : World) :
  convertToWav audioFile w =
  match ensureFFmpeg (setAbortController freshToken w) with
  | (Threw e, w1) => (Threw (conversionError e), w1)
  | (Returned _, w1) =>
      match abortController w1 with
      | None => (Threw (conversionError (Error readSignalOfNull)), w1)
      | Some c =>
          if aborted c then (Threw (Error operationCancelled), w1)
          else
            match transcode audioFile w1 with
            | (Returned b, w2) => (Returned b, w2)
            | (Threw e, w2) => (Threw (conversionError e), w2)
            end
      end
  end.
Proof.
  assert (Hcatch : forall e w1,
             (if messageIs e operationCancelled then throw e
              else throw (Error ("Failed to convert audio: "
                                   +:+ messageOrUnknown e))) w1
             = (@Threw Blob (conversionError e), w1)).
  { intros e w1. unfold conversionError.
    destruct (messageIs e operationCancelled); reflexivity. }
  unfold convertToWav, bind at 1, modify, tryCatch, bind at 1.
  fold freshToken.
  destruct (ensureFFmpeg (setAbortController freshToken w)) as [[[]|e] w1].
  - unfold bind, get. destruct (abortController w1) as [c|].
    + destruct (aborted c).
      * unfold throw. reflexivity.
      * destruct (transcode audioFile w1) as [[b|e] w2]; [reflexivity|].
        apply Hcatch.
    + unfold throw at 1. apply (Hcatch (Error readSignalOfNull)).
  - apply Hcatch.
Qed.

(** [ensureFFmpeg] with the engine initialised: nothing happens. *)
Lemma ensureFFmpeg_initialized (w : World) :
  initialized w = true -> ensureFFmpeg w = (Returned tt, w).
Proof. intros Hi. unfold ensureFFmpeg, bind, get. rewrite Hi. reflexivity. Qed.

(** [ensureFFmpeg] returns with the engine initialised. *)
Lemma ensureFFmpeg_returned (w w1 : World) (u : unit) :
  ensureFFmpeg w = (Returned u, w1) -> initialized w1 = true.
Proof.
  destruct (initialized w) eqn:Hi.
  - rewrite ensureFFmpeg_initialized by exact Hi. intros H.
    injection H as _ <-. exact Hi.
  - unfold ensureFFmpeg, bind at 1, get. rewrite Hi. unfold tryCatch.
    match goal with
    | |- context [match ?body w with _ => _ end] =>
        destruct (body w) as [[u'|e] w2] eqn:Hbody
    end.
    + intros H. injection H as _ <-.
      repeat (apply bind_returned in Hbody;
              destruct Hbody as (? & ? & _ & Hbody)).
      unfold modify in Hbody. injection Hbody as _ <-. reflexivity.
    + destruct (messageIncludes e "aborted"); [discriminate|].
      destruct (messageIncludes e "failed to fetch"); discriminate.
Qed.

(** The call of the method that is not there. *)
Lemma rm_eq (name : string) (w : World) :
  rm name w = (Threw (Error rmIsNotAFunction), w).
Proof. reflexivity. Qed.

Lemma input_is_not_output (audioFile : File) :
  inputFileNameOf audioFile <> outputFileName.
Proof. unfold inputFileNameOf, outputFileName. cbn. discriminate. Qed.

(** The statements after the test of the token never run to their end:
    when the result has been read back, the first removal throws. *)
Lemma transcode_never_returns (audioFile : File) (w w' : World) (b : Blob) :
  transcode audioFile w <> (Returned b, w').
Proof.
  unfold transcode. cbv zeta. intros H.
  apply bind_returned in H. destruct H as (bytes & w1 & _ & H).
  apply bind_returned in H. destruct H as (? & w2 & _ & H).
  apply bind_returned in H. destruct H as (? & w3 & _ & H).
  apply bind_returned in H. destruct H as (outputData & w4 & _ & H).
  apply bind_returned in H. destruct H as (? & w5 & Hin & _).
  rewrite rm_eq in Hin. discriminate.
Qed.

(** No conversion returns. *)
Lemma convertToWav_never_returns (audioFile : File) (w w' : World) (b : Blob) :
  convertToWav audioFile w <> (Returned b, w').
Proof.
  rewrite convertToWav_eq.
  destruct (ensureFFmpeg (setAbortController freshToken w))
    as [[u|e] w1] eqn:He; [|discriminate].
  destruct (abortController w1) as [c|]; [|discriminate].
  destruct (aborted c); [discriminate|].
  destruct (transcode audioFile w1) as [[b'|e] w2] eqn:Ht; [|discriminate].
  destruct (transcode_never_returns _ _ _ _ Ht).
Qed.

(** What the [catch] clause of [convertToWav] makes of the error of the
    clean-up. *)
Lemma conversionError_cleanup :
  conversionError (Error rmIsNotAFunction) = cleanupError.
Proof. reflexivity. Qed.

#[local] Instance extends_notInitialization
  : Stepwise (extends notInitialization) notInitialization.
Proof. apply extends_stepwise; intros; exact I. Qed.

(** A conversion that finds the engine initialised does nothing that
    initialises an engine. *)
Lemma convertToWav_reuses (audioFile : File) (w : World) :
  initialized w = true ->
  extends notInitialization w (snd (convertToWav audioFile w)).
Proof.
  intros Hi. rewrite convertToWav_eq.
  rewrite ensureFFmpeg_initialized by exact Hi.
  cbn [abortController setAbortController freshToken aborted].
  assert (Ht : extends notInitialization w
                 (snd (transcode audioFile (setAbortController freshToken w)))).
  { transitivity (setAbortController freshToken w).
    - exists []. split; [rewrite app_nil_r; reflexivity|constructor].
    - apply (respects_transcode (extends notInitialization) notInitialization
                                audioFile I I I). }
  destruct (transcode audioFile (setAbortController freshToken w))
    as [[b|e] w2]; exact Ht.
Qed.

(** ** The conversion in an environment that does not disturb it *)

Lemma remoteCall_quiet {A : Type} (value : nat -> M A) (w : World) :
  quietAt w -> remoteCall value w = value (clock w) (resumed w).
Proof. intros [_ Hf]. rewrite remoteCall_eq, Hf. reflexivity. Qed.

Lemma engineCall_quiet {A : Type} (e : Event) (needsLoaded : bool)
    (perform : nat -> M A) (w : World) :
  needsLoaded = false \/ loaded (ffmpeg w) = true ->
  quietAt w ->
  engineCall e needsLoaded perform w
  = perform (clock w) (resumed (record e w)).
Proof.
  intros Hl [Hq Hf]. rewrite engineCall_eq, Hq, Hf.
  destruct Hl as [-> | ->]; [reflexivity|].
  rewrite andb_false_r. reflexivity.
Qed.


Lemma bind_eq_returned {A B : Type} (m : M A) (k : A -> M B) (w w1 : World)
    (a : A) :
  m w = (Returned a, w1) -> bind m k w = k a w1.
Proof. intros H. unfold bind. rewrite H. reflexivity. Qed.

#[local] Instance grows_preorder : PreOrder grows.
Proof.
  split.
  - intros w. exists []. symmetry. apply app_nil_r.
  - intros w1 w2 w3 (s1 & H1) (s2 & H2). exists (s1 ++ s2).
    rewrite H2, H1, app_assoc. reflexivity.
Qed.

Lemma grows_same (w w' : World) : trace w' = trace w -> grows w w'.
Proof. intros H. exists []. rewrite app_nil_r. exact H. Qed.

Lemma grows_resumed (w : World) : grows w (resumed w).
Proof. destruct (resumed_trace w) as (t & _ & Ht). eexists. exact Ht. Qed.

Lemma shows_grows (ev : Event) (w w' : World) : shows ev w w' -> grows w w'.
Proof. intros (s & Hs & _). exists s. exact Hs. Qed.

Lemma shows_before (ev : Event) (w1 w2 w3 : World) :
  shows ev w1 w2 -> grows w2 w3 -> shows ev w1 w3.
Proof.
  intros (s1 & H1 & Hin) (s2 & H2). exists (s1 ++ s2).
  split; [rewrite H2, H1, app_assoc; reflexivity|].
  apply in_or_app. left. exact Hin.
Qed.

Lemma shows_after (ev : Event) (w1 w2 w3 : World) :
  grows w1 w2 -> shows ev w2 w3 -> shows ev w1 w3.
Proof.
  intros (s1 & H1) (s2 & H2 & Hin). exists (s1 ++ s2).
  split; [rewrite H2, H1, app_assoc; reflexivity|].
  apply in_or_app. right. exact Hin.
Qed.


Lemma shows_resumed_record (ev : Event) (w : World) :
  shows ev w (resumed (record ev w)).
Proof.
  apply (shows_before ev w (record ev w)); [|apply grows_resumed].
  exists [ev]. split; [reflexivity|left; reflexivity].
Qed.

Lemma controls_resumed (w : World) e n f i a :
  controls w e n f i a -> quiet e n -> controls (resumed w) e (S n) f i a.
Proof.
  intros (He & Hc & Hf & Hi & Ha) [Hq Hx]. subst e n.
  destruct (resumed_undisturbed w Hq) as (Hf' & Hi' & Ha').
  repeat split; world; congruence.
Qed.

Lemma controls_quietAt (w : World) e n f i a :
  controls w e n f i a -> quiet e n -> quietAt w.
Proof. intros (He & Hc & _) Hq. unfold quietAt. rewrite He, Hc. exact Hq. Qed.

Lemma controls_record (ev : Event) (w : World) e n f i a :
  controls w e n f i a -> controls (record ev w) e n f i a.
Proof. intros H. exact H. Qed.

Lemma fetchFile_quiet (file : File) (w : World) e n f i a :
  controls w e n f i a -> quiet e n ->
  exists w', fetchFile file w = (Returned (fileBytes file), w')
             /\ controls w' e (S n) f i a
             /\ grows w w'.
Proof.
  intros Hc Hq. exists (resumed w).
  split; [|split].
  - unfold fetchFile. rewrite remoteCall_quiet; [reflexivity|].
    eapply controls_quietAt; eassumption.
  - apply controls_resumed; assumption.
  - apply grows_resumed.
Qed.

Lemma toBlobURL_quiet (url mimeType : string) (w : World) e n f i a :
  controls w e n f i a -> quiet e n ->
  exists w', toBlobURL url mimeType w = (Returned ("blob:" +:+ url), w')
             /\ controls w' e (S n) f i a
             /\ shows (Fetch url) w w'.
Proof.
  intros Hc Hq. exists (resumed (record (Fetch url) w)).
  split; [|split].
  - unfold toBlobURL, bind at 1, modify.
    rewrite remoteCall_quiet; [reflexivity|].
    eapply controls_quietAt; [apply controls_record|]; eassumption.
  - apply controls_resumed; [apply controls_record|]; assumption.
  - apply shows_resumed_record.
Qed.

(** A call to the engine that nothing disturbs. *)
Lemma engineCall_controls {A : Type} (ev : Event) (needsLoaded : bool)
    (perform : nat -> M A) (w : World) e n f i a :
  controls w e n f i a -> quiet e n ->
  needsLoaded = false \/ loaded f = true ->
  engineCall ev needsLoaded perform w = perform n (resumed (record ev w)).
Proof.
  intros (He & Hn & Hf & _) Hq Hl. rewrite <- Hn.
  apply engineCall_quiet.
  - rewrite Hf. exact Hl.
  - unfold quietAt. rewrite He, Hn. exact Hq.
Qed.

Lemma controls_resumed_record (ev : Event) (w : World) e n f i a :
  controls w e n f i a -> quiet e n ->
  controls (resumed (record ev w)) e (S n) f i a.
Proof.
  intros Hc Hq. apply controls_resumed; [apply controls_record|]; assumption.
Qed.

Lemma controls_setFiles (w : World) e n f i a fs :
  controls w e n f i a ->
  controls (setFiles fs w) e n (withFiles fs f) i a.
Proof.
  intros (He & Hn & Hf & Hi & Ha). repeat split; try assumption.
  cbn [ffmpeg setFiles setFFmpeg]. rewrite Hf. reflexivity.
Qed.

Lemma load_quiet (coreURL wasmURL workerURL : string) (w : World) e n f i a :
  controls w e n f i a -> quiet e n ->
  exists w', load coreURL wasmURL workerURL w = (Returned tt, w')
             /\ controls w' e (S n)
                         (mkFFmpeg (serial f) true (listening f) (files f)) i a
             /\ shows Load w w'.
Proof.
  intros Hc Hq.
  pose proof (controls_resumed_record Load w e n f i a Hc Hq) as Hc1.
  eexists. split.
  - unfold load.
    rewrite (engineCall_controls _ _ _ w e n f i a Hc Hq) by (left; reflexivity).
    reflexivity.
  - split; [|apply shows_resumed_record]. cbn [snd].
    destruct Hc1 as (He & Hn & Hf & Hi & Ha). repeat split; try assumption.
    cbn [ffmpeg setFFmpeg]. rewrite Hf. reflexivity.
Qed.

Lemma writeFile_quiet (name : string) (data : list Byte.byte) (w : World)
    e n f i a :
  controls w e n f i a -> quiet e n -> loaded f = true ->
  exists w', writeFile name data w = (Returned tt, w')
             /\ controls w' e (S n) (withFiles (<[name := data]> (files f)) f) i a
             /\ shows (WriteFile name) w w'.
Proof.
  intros Hc Hq Hl.
  pose proof (controls_resumed_record (WriteFile name) w e n f i a Hc Hq) as Hc1.
  eexists. split.
  - unfold writeFile.
    rewrite (engineCall_controls _ _ _ w e n f i a Hc Hq) by (right; exact Hl).
    reflexivity.
  - split; [|apply shows_resumed_record]. cbn [snd].
    pose proof Hc1 as (_ & _ & Hf & _). rewrite Hf.
    apply controls_setFiles, Hc1.
Qed.

Lemma exec_quiet (args : list string) (out : list Byte.byte) (w : World)
    e n f i a :
  controls w e n f i a -> quiet e n -> loaded f = true ->
  execOutput e n = Some out ->
  exists w', exec args w = (Returned tt, w')
             /\ controls w' e (S n)
                  (withFiles (<[List.last args EmptyString := out]> (files f)) f)
                  i a
             /\ shows (Exec args) w w'.
Proof.
  intros Hc Hq Hl Ho.
  pose proof (controls_resumed_record (Exec args) w e n f i a Hc Hq) as Hc1.
  pose proof Hc1 as (He & _ & Hf & _).
  eexists. split.
  - unfold exec.
    rewrite (engineCall_controls _ _ _ w e n f i a Hc Hq) by (right; exact Hl).
    unfold bind, get. rewrite He, Ho. reflexivity.
  - split; [|apply shows_resumed_record]. cbn [snd]. try rewrite Hf.
    apply controls_setFiles, Hc1.
Qed.

Lemma readFile_quiet (name : string) (d : list Byte.byte) (w : World)
    e n f i a :
  controls w e n f i a -> quiet e n -> loaded f = true ->
  files f !! name = Some d ->
  exists w', readFile name w = (Returned d, w')
             /\ controls w' e (S n) f i a
             /\ shows (ReadFile name) w w'.
Proof.
  intros Hc Hq Hl Hd.
  pose proof (controls_resumed_record (ReadFile name) w e n f i a Hc Hq) as Hc1.
  pose proof Hc1 as (_ & _ & Hf & _).
  eexists. split.
  - unfold readFile.
    rewrite (engineCall_controls _ _ _ w e n f i a Hc Hq) by (right; exact Hl).
    unfold bind, get. rewrite Hf, Hd. reflexivity.
  - split; [exact Hc1|apply shows_resumed_record].
Qed.

(** The statements after the test of the token, with a loaded engine and
    undisturbed: the input is written, transcoded and read back; then the
    first removal throws, and both entries stay in the working storage. *)
Lemma transcode_undisturbed (audioFile : File) (out : list Byte.byte)
    (w : World) e n f i a :
  controls w e n f i a -> loaded f = true ->
  undisturbed e n 4 -> execOutput e (2 + n) = Some out ->
  exists w',
    transcode audioFile w = (Threw (Error rmIsNotAFunction), w')
    /\ controls w' e (4 + n)
                (withFiles (storageAfter audioFile out (files f)) f) i a
    /\ shows (WriteFile (inputFileNameOf audioFile)) w w'
    /\ shows (Exec (execArgs (inputFileNameOf audioFile))) w w'
    /\ shows (ReadFile outputFileName) w w'.
Proof.
  intros Hc Hl Hu Ho.
  set (input := inputFileNameOf audioFile).
  destruct (fetchFile_quiet audioFile w e n f i a Hc (Hu 0%nat ltac:(lia)))
    as (w1 & R1 & C1 & T1).
  destruct (writeFile_quiet input (fileBytes audioFile) w1 e _ f i a C1
              (Hu 1%nat ltac:(lia)) Hl) as (w2 & R2 & C2 & S2).
  destruct (exec_quiet (execArgs input) out w2 e _ _ i a C2
              (Hu 2%nat ltac:(lia)) Hl Ho) as (w3 & R3 & C3 & S3).
  cbn [files withFiles List.last execArgs] in C3.
  destruct (readFile_quiet outputFileName out w3 e _ _ i a C3
              (Hu 3%nat ltac:(lia)) Hl) as (w4 & R4 & C4 & S4).
  { cbn [files withFiles]. apply lookup_insert_eq. }
  pose proof (shows_grows _ _ _ S2) as T2.
  pose proof (shows_grows _ _ _ S3) as T3.
  pose proof (shows_grows _ _ _ S4) as T4.
  exists w4. split; [|split; [exact C4|]].
  - unfold transcode. cbv zeta. fold input.
    rewrite (bind_eq_returned _ _ _ _ _ R1).
    rewrite (bind_eq_returned _ _ _ _ _ R2).
    rewrite (bind_eq_returned _ _ _ _ _ R3).
    rewrite (bind_eq_returned _ _ _ _ _ R4).
    reflexivity.
  - split; [|split].
    + apply (shows_after _ w w1); [exact T1|].
      apply (shows_before _ w1 w2); [exact S2|]. transitivity w3; assumption.
    + apply (shows_after _ w w2); [transitivity w1; assumption|].
      apply (shows_before _ w2 w3); assumption.
    + apply (shows_after _ w w3); [|exact S4].
      transitivity w1; [exact T1|]. transitivity w2; assumption.
Qed.

Lemma tryCatch_returned {A : Type} (body : M A) (handler : Thrown -> M A)
    (w w' : World) (a : A) :
  body w = (Returned a, w') -> tryCatch body handler w = (Returned a, w').
Proof. intros H. unfold tryCatch. rewrite H. reflexivity. Qed.

Lemma undisturbed_shift (e : Env) (n k1 k2 : nat) :
  undisturbed e n (k1 + k2) -> undisturbed e (k1 + n) k2.
Proof.
  intros Hu j Hj. rewrite Nat.add_assoc. apply Hu. lia.
Qed.

Lemma undisturbed_less (e : Env) (n k k' : nat) :
  (k' <= k)%nat -> undisturbed e n k -> undisturbed e n k'.
Proof. intros Hk Hu j Hj. apply Hu. lia. Qed.

(** The initialisation of the engine, undisturbed: a new engine is made,
    the three components are fetched, the engine is loaded. *)
Lemma ensureFFmpeg_undisturbed (w : World) e n f a :
  controls w e n f false a -> undisturbed e n 4 ->
  exists w',
    ensureFFmpeg w = (Returned tt, w')
    /\ controls w' e (4 + n) (mkFFmpeg (S (serial f)) true true ∅) true a
    /\ shows (NewFFmpeg (S (serial f))) w w'
    /\ shows Load w w'.
Proof.
  intros Hc Hu. pose proof Hc as (He & Hn & Hf & Hi & Ha).
  set (w0 := setFFmpeg (mkFFmpeg (S (serial f)) false true ∅)
               (record (NewFFmpeg (S (serial f)))
                       (setFFmpeg (freshFFmpeg (S (serial f))) w))).
  assert (C0 : controls w0 e n (mkFFmpeg (S (serial f)) false true ∅) false a).
  { repeat split; assumption. }
  assert (S0 : shows (NewFFmpeg (S (serial f))) w w0).
  { exists [NewFFmpeg (S (serial f))]. split; [reflexivity|left; reflexivity]. }
  set (baseURL := "https://unpkg.com/@ffmpeg/core@" +:+ FFMPEG_CORE_VERSION
                    +:+ "/dist/umd").
  destruct (toBlobURL_quiet (baseURL +:+ "/ffmpeg-core.js") "text/javascript"
              w0 e n _ false a C0 (Hu 0%nat ltac:(lia)))
    as (w1 & R1 & C1 & S1).
  destruct (toBlobURL_quiet (baseURL +:+ "/ffmpeg-core.wasm")
              "application/wasm" w1 e _ _ false a C1 (Hu 1%nat ltac:(lia)))
    as (w2 & R2 & C2 & S2).
  destruct (toBlobURL_quiet (baseURL +:+ "/ffmpeg-core.worker.js")
              "text/javascript" w2 e _ _ false a C2 (Hu 2%nat ltac:(lia)))
    as (w3 & R3 & C3 & S3).
  destruct (load_quiet ("blob:" +:+ baseURL +:+ "/ffmpeg-core.js")
              ("blob:" +:+ baseURL +:+ "/ffmpeg-core.wasm")
              ("blob:" +:+ baseURL +:+ "/ffmpeg-core.worker.js")
              w3 e _ _ false a C3 (Hu 3%nat ltac:(lia)))
    as (w4 & R4 & C4 & S4).
  assert (T03 : grows w0 w3).
  { transitivity w1; [eapply shows_grows, S1|].
    transitivity w2; eapply shows_grows; eassumption. }
  assert (T4 : grows w4 (setInitialized true w4))
    by (apply grows_same; reflexivity).
  exists (setInitialized true w4). split; [|split; [|split]].
  - unfold ensureFFmpeg, bind at 1, get. rewrite Hi.
    apply tryCatch_returned. rewrite Hf.
    unfold bind at 1, modify at 1. unfold bind at 1, modify at 1.
    cbn [ffmpeg setFFmpeg record freshFFmpeg serial loaded files].
    fold baseURL. change (setFFmpeg _ (record _ (setFFmpeg _ w))) with w0.
    rewrite (bind_eq_returned _ _ _ _ _ R1).
    rewrite (bind_eq_returned _ _ _ _ _ R2).
    rewrite (bind_eq_returned _ _ _ _ _ R3).
    rewrite (bind_eq_returned _ _ _ _ _ R4).
    reflexivity.
  - destruct C4 as (He4 & Hn4 & Hf4 & Hi4 & Ha4).
    repeat split; assumption.
  - apply (shows_before _ w w0); [exact S0|].
    transitivity w3; [exact T03|].
    transitivity w4; [eapply shows_grows, S4|exact T4].
  - apply (shows_after _ w w3);
      [transitivity w0; [eapply shows_grows, S0|exact T03]|].
    apply (shows_before _ w3 w4); [exact S4|exact T4].
Qed.

(** A conversion on an uninitialised engine, undisturbed: it initialises a
    new engine, transcodes the input and fails in its clean-up; the engine
    stays initialised and the two entries stay in its working storage. *)
Lemma convertToWav_undisturbed (audioFile : File) (out : list Byte.byte)
    (w : World) :
  initialized w = false ->
  undisturbed (env w) (clock w) 8 ->
  execOutput (env w) (6 + clock w) = Some out ->
  exists w',
    convertToWav audioFile w = (Threw cleanupError, w')
    /\ shows (NewFFmpeg (S (serial (ffmpeg w)))) w w'
    /\ shows Load w w'
    /\ shows (WriteFile (inputFileNameOf audioFile)) w w'
    /\ shows (Exec (execArgs (inputFileNameOf audioFile))) w w'
    /\ initialized w' = true
    /\ files (ffmpeg w') = storageAfter audioFile out ∅.
Proof.
  intros Hi Hu Ho.
  set (w0 := setAbortController freshToken w).
  assert (C0 : controls w0 (env w) (clock w) (ffmpeg w) false freshToken)
    by (repeat split; exact Hi).
  assert (T0 : grows w w0) by (apply grows_same; reflexivity).
  destruct (ensureFFmpeg_undisturbed _ _ _ _ _ C0
              (undisturbed_less _ _ 8 4 ltac:(lia) Hu))
    as (w1 & R1 & C1 & N1 & L1).
  destruct (transcode_undisturbed audioFile out w1 _ _ _ _ _ C1 eq_refl
              (undisturbed_shift _ _ 4 4 Hu) Ho)
    as (w2 & R2 & C2 & W2 & E2 & D2).
  pose proof (shows_grows _ _ _ N1) as T1.
  pose proof (shows_grows _ _ _ W2) as T2.
  exists w2. split.
  - rewrite convertToWav_eq. fold w0. rewrite R1.
    destruct C1 as (_ & _ & _ & _ & ->).
    cbn [freshToken aborted]. rewrite R2, conversionError_cleanup.
    reflexivity.
  - destruct C2 as (_ & _ & Hf & Hi2 & _).
    split; [apply (shows_before _ w w1); [exact N1|exact T2]|].
    split; [apply (shows_before _ w w1); [exact L1|exact T2]|].
    split; [apply (shows_after _ w w1); [exact T1|exact W2]|].
    split; [apply (shows_after _ w w1); [exact T1|exact E2]|].
    split; [exact Hi2|]. rewrite Hf. reflexivity.
Qed.

Lemma undisturbed_sampleEnv (n k : nat) : undisturbed sampleEnv n k.
Proof. intros j _. split; reflexivity. Qed.

(** ** The token

    [cancel()] is the only method that signals a token, and it drops the
    token at once: no method ever finds a signalled one, and the two
    service stages never throw the error of a cancellation. *)

Lemma token_never_signalled (w : World) :
  unsignalled w ->
  unsignalled (cancelled w)
  /\ (forall audioFile, unsignalled (snd (convertToWav audioFile w)))
  /\ (forall audioBlob, unsignalled (snd (transcribeAudio audioBlob w)))
  /\ (forall transcription,
         unsignalled (snd (segmentByTopics transcription w)))
  /\ (forall audioFile, unsignalled (snd (pipeline audioFile w))).
Proof.
  intros Hs. split; [rewrite cancelled_eq; reflexivity|].
  split; [|split; [|split]].
  - intros audioFile.
    apply (respects_convertToWav (keeps unsignalled) anyEvent (fun _ => I)
                                 audioFile w Hs).
  - intros audioBlob.
    apply (respects_transcribeAudio (keeps unsignalled) anyEvent audioBlob I
                                    w Hs).
  - intros transcription.
    apply (respects_segmentByTopics (keeps unsignalled) anyEvent transcription
                                    I w Hs).
  - intros audioFile.
    apply (respects_pipeline (keeps unsignalled) anyEvent (fun _ => I)
                             audioFile w Hs).
Qed.

Lemma service_stages_never_cancelled (w : World) :
  unsignalled w ->
  (forall audioBlob,
      fst (transcribeAudio audioBlob w) <> Threw (Error operationCancelled))
  /\ (forall transcription,
         fst (segmentByTopics transcription w)
         <> Threw (Error operationCancelled)).
Proof.
  intros Hs.
  assert (Ht : forall x, transcriptionError x <> Error operationCancelled).
  { intros [m|];
      unfold transcriptionError; cbn [messageIncludes messageOrUnknown]; [|discriminate].
    destruct (Str.includes m "API key"); discriminate. }
  assert (Ha : forall x, analysisError x <> Error operationCancelled).
  { intros [m|];
      unfold analysisError; cbn [messageIncludes messageOrUnknown]; [|discriminate].
    destruct (Str.includes m "API key"); discriminate. }
  split.
  - intros audioBlob. rewrite transcribeAudio_eq by exact Hs. cbv zeta.
    destruct (fault (env w) (clock w)) as [x|]; cbn [fst]; [|discriminate].
    intros H. injection H as H. exact (Ht _ H).
  - intros transcription.
    pose proof (segmentByTopics_cause transcription w Hs) as Hc.
    destruct (analysisCause w) as [x|].
    + rewrite Hc. intros H. injection H as H. exact (Ha _ H).
    + destruct Hc as (v & ->). discriminate.
Qed.

(** ** Cancellation before a conversion *)

(** C1 fails on the code.  [cancel()] signals the token it holds and drops
    it in the next statement, and [convertToWav] starts by installing a
    fresh one; so the test of the token in [convertToWav] and the tests at
    the entry of the two service stages never find a signalled token.
    After [cancel()] no service stage fails with the error of a
    cancellation; a conversion called after [cancel()] initialises an
    engine, writes the input and transcodes it, and fails only in its
    clean-up, with the wrapper of a failed conversion; a transcription and
    an analysis called after a conversion and [cancel()] return. *)
Theorem cancel_before_convert_is_not_seen :
  (forall w : World,
      signalled (cancelled w) = false
      /\ (forall audioBlob,
             fst (transcribeAudio audioBlob (cancelled w))
             <> Threw (Error operationCancelled))
      /\ (forall transcription,
             fst (segmentByTopics transcription (cancelled w))
             <> Threw (Error operationCancelled)))
  /\ (let w := cancelled (newAudioProcessor sampleEnv) in
      let run := convertToWav sampleFile w in
      fst run
      = Threw (Error "Failed to convert audio: ffmpeg.rm is not a function")
      /\ fst run <> Threw (Error operationCancelled)
      /\ loads (trace w) = 0%nat
      /\ loads (trace (snd run)) = 1%nat
      /\ In (WriteFile "input.mp3") (trace (snd run))
      /\ In (Exec (execArgs "input.mp3")) (trace (snd run)))
  /\ (let w :=
        cancelled (snd (convertToWav sampleFile
                                     (newAudioProcessor sampleEnv))) in
      fst (transcribeAudio sampleBlob w) = Returned sampleTranscript
      /\ fst (segmentByTopics sampleTranscript w) = Returned budgetMinutes).
Proof.
  split; [|split].
  - intros w.
    assert (Hs : unsignalled (cancelled w))
      by (rewrite cancelled_eq; reflexivity).
    split; [exact Hs|]. apply service_stages_never_cancelled, Hs.
  - cbv zeta. split; [vm_compute; reflexivity|].
    split; [vm_compute; discriminate|].
    split; [vm_compute; reflexivity|].
    split; [vm_compute; reflexivity|].
    split; vm_compute; repeat (first [left; reflexivity | right]).
  - cbv zeta. split; vm_compute; reflexivity.
Qed.

(** ** The life of the engine *)








(** ** The transcode that fails, and the transcode that is cancelled *)

Lemma bind_eq_threw {A B : Type} (m : M A) (k : A -> M B) (w w1 : World)
    (x : Thrown) :
  m w = (Threw x, w1) -> bind m k w = (Threw x, w1).
Proof. intros H. unfold bind. rewrite H. reflexivity. Qed.

Lemma exec_rejected (args : list string) (x : Thrown) (w : World) e n f i a :
  controls w e n f i a -> loaded f = true ->
  cancelRequested (interlude e n) = false -> fault e n = Some x ->
  exists w', exec args w = (Threw x, w') /\ controls w' e (S n) f i a.
Proof.
  intros Hc Hl Hq Hx. pose proof Hc as (He & Hn & Hf & _).
  exists (resumed (record (Exec args) w)). split.
  - unfold exec. rewrite engineCall_eq, Hf, Hl, He, Hn, Hq, Hx. reflexivity.
  - destruct Hc as (_ & _ & _ & Hi & Ha).
    destruct (resumed_undisturbed (record (Exec args) w))
      as (Hf' & Hi' & Ha').
    + cbn [env clock record]. rewrite He, Hn. exact Hq.
    + cbn [ffmpeg initialized abortController record] in Hf', Hi', Ha'.
      split; [rewrite resumed_env; exact He|].
      split; [rewrite resumed_clock; cbn [clock record]; congruence|].
      repeat split; congruence.
Qed.

Lemma exec_cancelled (args : list string) (w : World) e n f i a :
  controls w e n f i a -> loaded f = true ->
  cancelRequested (interlude e n) = true ->
  exists w', exec args w = (Threw (terminatedError e), w')
             /\ initialized w' = false /\ abortController w' = None
             /\ files (ffmpeg w') = ∅.
Proof.
  intros (He & Hn & Hf & _) Hl Hq.
  exists (resumed (record (Exec args) w)). split.
  - unfold exec. rewrite engineCall_eq, Hf, Hl, He, Hn, Hq. reflexivity.
  - destruct (resumed_cancelled (record (Exec args) w))
      as (_ & Hfs & _ & Hi & Ha).
    + cbn [env clock record]. rewrite He, Hn. exact Hq.
    + auto.
Qed.

(** Whatever the engine rejects the transcode with, the input stays in
    working storage. *)
Lemma transcode_rejected_leaves_input (audioFile : File) (x : Thrown)
    (w : World) e n f i a :
  controls w e n f i a -> loaded f = true -> undisturbed e n 2 ->
  cancelRequested (interlude e (2 + n)) = false -> fault e (2 + n) = Some x ->
  exists w',
    transcode audioFile w = (Threw x, w')
    /\ files (ffmpeg w') !! inputFileNameOf audioFile
       = Some (fileBytes audioFile).
Proof.
  intros Hc Hl Hu Hq Hx.
  destruct (fetchFile_quiet audioFile w e n f i a Hc (Hu 0%nat ltac:(lia)))
    as (w1 & R1 & C1 & T1).
  destruct (writeFile_quiet (inputFileNameOf audioFile) (fileBytes audioFile)
              w1 e _ f i a C1 (Hu 1%nat ltac:(lia)) Hl)
    as (w2 & R2 & C2 & _).
  destruct (exec_rejected (execArgs (inputFileNameOf audioFile)) x w2 e _ _ i a
              C2 Hl Hq Hx) as (w3 & R3 & C3).
  exists w3. split.
  - unfold transcode. cbv zeta.
    rewrite (bind_eq_returned _ _ _ _ _ R1).
    rewrite (bind_eq_returned _ _ _ _ _ R2).
    apply bind_eq_threw. exact R3.
  - destruct C3 as (_ & _ & -> & _). cbn [files withFiles].
    apply lookup_insert_eq.
Qed.

(** A [cancel()] while the transcode is pending: the conversion throws what
    the engine rejects the pending call with, wrapped by the [catch]
    clause. *)
Lemma convertToWav_cancelled_during_exec (audioFile : File) (w : World) :
  initialized w = true -> loaded (ffmpeg w) = true ->
  undisturbed (env w) (clock w) 2 ->
  cancelRequested (interlude (env w) (2 + clock w)) = true ->
  fst (convertToWav audioFile w)
  = Threw (conversionError (terminatedError (env w)))
  /\ initialized (snd (convertToWav audioFile w)) = false.
Proof.
  intros Hi Hl Hu Hq.
  set (w0 := setAbortController freshToken w).
  assert (C0 : controls w0 (env w) (clock w) (ffmpeg w) true freshToken)
    by (repeat split; exact Hi).
  destruct (fetchFile_quiet audioFile w0 _ _ _ _ _ C0 (Hu 0%nat ltac:(lia)))
    as (w1 & R1 & C1 & T1).
  destruct (writeFile_quiet (inputFileNameOf audioFile) (fileBytes audioFile)
              w1 _ _ _ _ _ C1 (Hu 1%nat ltac:(lia)) Hl)
    as (w2 & R2 & C2 & _).
  destruct (exec_cancelled (execArgs (inputFileNameOf audioFile)) w2 _ _ _ _ _
              C2 Hl Hq) as (w3 & R3 & Hi3 & _).
  assert (Ht : transcode audioFile w0 = (Threw (terminatedError (env w)), w3)).
  { unfold transcode. cbv zeta.
    rewrite (bind_eq_returned _ _ _ _ _ R1).
    rewrite (bind_eq_returned _ _ _ _ _ R2).
    apply bind_eq_threw. exact R3. }
  rewrite convertToWav_eq. fold w0.
  rewrite (ensureFFmpeg_initialized w0 Hi).
  cbn [w0 abortController setAbortController freshToken aborted].
  fold freshToken. fold w0. rewrite Ht. cbn [fst snd]. auto.
Qed.

(** ** The working storage after a failure *)

(** C2 fails on the code: when the transcode fails, or when it leaves no
    output and the read-back fails, [convertToWav] throws with the input
    still in working storage. *)
Theorem failed_transcode_leaves_input :
  (let run := convertToWav sampleFile (newAudioProcessor execFails) in
   fst run = Threw (Error "Failed to convert audio: Conversion failed")
   /\ files (ffmpeg (snd run)) !! "input.mp3" = Some (fileBytes sampleFile))
  /\ (let run := convertToWav sampleFile (newAudioProcessor noOutput) in
      fst run = Threw (Error "Failed to convert audio: Unknown error")
      /\ files (ffmpeg (snd run)) !! "input.mp3" = Some (fileBytes sampleFile)).
Proof.
  cbv zeta. split; split; vm_compute; reflexivity.
Qed.

(** ** Cancellation during a conversion *)

(** C6 fails on the code: a [cancel()] while the transcode is pending makes
    [convertToWav] throw the wrapper of a failed conversion around the
    engine's rejection, not the error of a cancellation; and a [cancel()]
    while a component is being fetched lets the engine load afterwards, so
    that the conversion fails on the token that is gone and the engine is
    left initialised. *)
Theorem cancel_in_flight_is_conversion_error :
  (let run := convertToWav sampleFile (newAudioProcessor cancelDuringExec) in
   fst run
   = Threw (Error "Failed to convert audio: called FFmpeg.terminate()")
   /\ fst run <> Threw (Error operationCancelled)
   /\ initialized (snd run) = false)
  /\ (let run := convertToWav sampleFile (newAudioProcessor cancelDuringFetch) in
      fst run
      = Threw (Error "Failed to convert audio: Cannot read properties of null (reading 'signal')")
      /\ initialized (snd run) = true).
Proof.
  cbv zeta. split.
  - split; [vm_compute; reflexivity|].
    split; [vm_compute; discriminate|vm_compute; reflexivity].
  - split; vm_compute; reflexivity.
Qed.

(** * Further properties *)

(** ** Strings *)

Lemma append_nil_l (s : string) : EmptyString +:+ s = s.
Proof. reflexivity. Qed.

Lemma append_cons (a : ascii) (s t : string) :
  String a s +:+ t = String a (s +:+ t).
Proof. reflexivity. Qed.

Lemma append_nil_r (s : string) : s +:+ EmptyString = s.
Proof.
  induction s as [|a s IH]; [reflexivity|].
  rewrite append_cons, IH. reflexivity.
Qed.

Lemma append_assoc (s t u : string) : (s +:+ t) +:+ u = s +:+ (t +:+ u).
Proof.
  induction s as [|a s IH]; [reflexivity|].
  rewrite !append_cons, IH. reflexivity.
Qed.

Lemma length_append (s t : string) :
  String.length (s +:+ t) = (String.length s + String.length t)%nat.
Proof.
  induction s as [|a s IH]; [reflexivity|].
  rewrite append_cons. cbn [String.length]. rewrite IH. reflexivity.
Qed.

Lemma prefix_append (p r : string) : String.prefix p (p +:+ r) = true.
Proof.
  induction p as [|a p IH]; [destruct r; reflexivity|].
  rewrite append_cons. cbn [String.prefix].
  destruct (ascii_dec a a); [exact IH|congruence].
Qed.

Lemma prefix_inv (p s : string) :
  String.prefix p s = true -> exists r, s = p +:+ r.
Proof.
  revert s. induction p as [|a p IH]; intros s H.
  - exists s. reflexivity.
  - destruct s as [|b s]; [discriminate|]. cbn [String.prefix] in H.
    destruct (ascii_dec a b) as [->|]; [|discriminate].
    destruct (IH _ H) as [r ->]. exists r. reflexivity.
Qed.

(** A prefix is decided by the first characters. *)
Lemma prefix_cut (p s t : string) :
  (String.length p <= String.length s)%nat ->
  String.prefix p (s +:+ t) = String.prefix p s.
Proof.
  revert s. induction p as [|a p IH]; intros s Hl.
  - destruct s, t; reflexivity.
  - destruct s as [|b s]; [cbn in Hl; lia|].
    rewrite append_cons. cbn [String.prefix].
    destruct (ascii_dec a b); [|reflexivity].
    apply IH. cbn in Hl. lia.
Qed.

Lemma strip_append (p r : string) : Str.strip p (p +:+ r) = Some r.
Proof.
  induction p as [|a p IH]; [reflexivity|].
  rewrite append_cons. cbn [Str.strip]. rewrite Ascii.eqb_refl. exact IH.
Qed.

Lemma strip_inv (p s r : string) : Str.strip p s = Some r -> s = p +:+ r.
Proof.
  revert s. induction p as [|a p IH]; intros s H.
  - cbn in H. injection H as ->. reflexivity.
  - destruct s as [|b s]; [discriminate|]. cbn [Str.strip] in H.
    destruct (Ascii.eqb_spec a b) as [->|]; [|discriminate].
    rewrite (IH _ H). reflexivity.
Qed.

Lemma strip_prefix (p s : string) :
  String.prefix p s = false -> Str.strip p s = None.
Proof.
  intros H. destruct (Str.strip p s) as [r|] eqn:Hs; [|reflexivity].
  apply strip_inv in Hs. subst s. rewrite prefix_append in H. discriminate.
Qed.

Lemma includes_prefix (s sub : string) :
  Str.includes s sub = false -> String.prefix sub s = false.
Proof.
  destruct s; cbn [Str.includes]; intros H; apply orb_false_iff in H; tauto.
Qed.

Lemma includes_tail (a : ascii) (s sub : string) :
  Str.includes (String a s) sub = false -> Str.includes s sub = false.
Proof. cbn [Str.includes]. intros H. apply orb_false_iff in H. tauto. Qed.

Lemma span_append (f : ascii -> bool) (t r : string) :
  every f t = true -> stops f r -> Str.span f (t +:+ r) = (t, r).
Proof.
  intros Ht Hr. induction t as [|a t IH].
  - rewrite append_nil_l. destruct r as [|b r]; [reflexivity|].
    cbn [Str.span]. cbn in Hr. rewrite Hr. reflexivity.
  - cbn [every] in Ht. apply andb_true_iff in Ht as [Ha Ht].
    rewrite append_cons. cbn [Str.span]. rewrite Ha, (IH Ht). reflexivity.
Qed.

Lemma span_inv (f : ascii -> bool) (s t r : string) :
  Str.span f s = (t, r) -> s = t +:+ r /\ every f t = true /\ stops f r.
Proof.
  revert t r. induction s as [|a s IH]; intros t r H.
  - cbn in H. injection H as <- <-. repeat split.
  - cbn [Str.span] in H. destruct (f a) eqn:Ha.
    + destruct (Str.span f s) as [t' r'] eqn:Hs. injection H as <- <-.
      destruct (IH _ _ eq_refl) as (-> & Ht & Hr).
      repeat split; [|exact Hr]. cbn [every]. rewrite Ha, Ht. reflexivity.
    + injection H as <- <-. repeat split. exact Ha.
Qed.

(** ** The name of the input in the working storage *)

Lemma lastIndexOf_absent (s : string) (c : ascii) :
  Str.includes s (String c EmptyString) = false -> Str.lastIndexOf s c = None.
Proof.
  induction s as [|a s IH]; intros H; [reflexivity|].
  cbn [Str.lastIndexOf]. rewrite (IH (includes_tail _ _ _ H)).
  apply includes_prefix in H. cbn [String.prefix] in H.
  destruct (Ascii.eqb_spec a c) as [->|]; [|reflexivity].
  destruct (ascii_dec c c); [|congruence]. destruct s; discriminate.
Qed.

Lemma lastIndexOf_last (base ext : string) (c : ascii) :
  Str.includes ext (String c EmptyString) = false ->
  Str.lastIndexOf (base +:+ String c ext) c = Some (String.length base).
Proof.
  intros H. induction base as [|a base IH].
  - rewrite append_nil_l. cbn [Str.lastIndexOf String.length].
    rewrite (lastIndexOf_absent _ _ H), Ascii.eqb_refl. reflexivity.
  - rewrite append_cons. cbn [Str.lastIndexOf String.length].
    rewrite IH. reflexivity.
Qed.

Lemma drop_append (s t : string) : Str.drop (String.length s) (s +:+ t) = t.
Proof.
  induction s as [|a s IH]; [destruct t; reflexivity|].
  rewrite append_cons. cbn [String.length Str.drop]. exact IH.
Qed.

(** X1.  The input is stored under the name input followed by what the
    uploaded file's name holds from its last dot on: a name that ends in a
    dot and an extension without a dot gives input, the dot and that
    extension, whatever precedes it; a name without any dot is appended
    whole. *)
Theorem input_name_keeps_last_extension :
  (forall (base ext : string) (bytes : list Byte.byte),
      Str.includes ext "." = false ->
      inputFileNameOf (mkFile (base +:+ "." +:+ ext) bytes) = "input." +:+ ext)
  /\ (forall (name : string) (bytes : list Byte.byte),
         Str.includes name "." = false ->
         inputFileNameOf (mkFile name bytes) = "input" +:+ name).
Proof.
  split.
  - intros base ext bytes H. unfold inputFileNameOf, Str.fromLastDot.
    cbn [fileName]. change ("." +:+ ext) with (String "." ext).
    rewrite (lastIndexOf_last base ext "." H), drop_append. reflexivity.
  - intros name bytes H. unfold inputFileNameOf, Str.fromLastDot.
    cbn [fileName]. rewrite (lastIndexOf_absent _ _ H). reflexivity.
Qed.

Lemma input_name_keeps_last_extension_witness :
  inputFileNameOf (mkFile ("team.sync.2024" +:+ "." +:+ "m4a") []) = "input." +:+ "m4a"
  /\ inputFileNameOf (mkFile "recording" []) = "input" +:+ "recording".
Proof.
  split.
  - apply (proj1 input_name_keeps_last_extension). reflexivity.
  - apply (proj2 input_name_keeps_last_extension). reflexivity.
Defined.

(** ** The bitrate pattern *)

Lemma digit_not_space (a : ascii) :
  Str.isDigit a = true -> Str.isSpace a = false.
Proof.
  unfold Str.isDigit, Str.isSpace. intros H.
  apply andb_true_iff in H as [H1 H2].
  apply Nat.leb_le in H1. apply Nat.leb_le in H2.
  apply orb_false_iff. split.
  - apply andb_false_iff. right. apply Nat.leb_gt. lia.
  - apply Nat.eqb_neq. lia.
Qed.

Lemma space_not_digit (a : ascii) :
  Str.isSpace a = true -> Str.isDigit a = false.
Proof.
  intros H. destruct (Str.isDigit a) eqn:Hd; [|reflexivity].
  rewrite (digit_not_space _ Hd) in H. discriminate.
Qed.

(** The pattern anchored at the start, with the test for the dot written as
    a comparison. *)
Lemma matchHere_eq (s : string) :
  Bitrate.matchHere s =
  match Str.strip "bitrate=" s with
  | None => None
  | Some r =>
      let (d1, r1) := Str.span Str.isDigit (snd (Str.span Str.isSpace r)) in
      if Str.isEmpty d1 then None
      else
        match
          match r1 with
          | String c r2 =>
              if Ascii.eqb c "." then
                let (d2, r3) := Str.span Str.isDigit r2 in
                if Str.isEmpty d2 then None
                else if Bitrate.unitFollows r3 then Some (d1 +:+ "." +:+ d2)
                else None
              else None
          | EmptyString => None
          end
        with
        | Some g => Some g
        | None => if Bitrate.unitFollows r1 then Some d1 else None
        end
  end.
Proof.
  unfold Bitrate.matchHere. destruct (Str.strip "bitrate=" s); [|reflexivity].
  destruct (Str.span Str.isDigit _) as [d1 r1].
  destruct (Str.isEmpty d1); [reflexivity|].
  destruct r1 as [|[[] [] [] [] [] [] [] []] r2]; reflexivity.
Qed.

Lemma unitFollows_intro (ws post : string) :
  every Str.isSpace ws = true ->
  Bitrate.unitFollows (ws +:+ "kbits/s" +:+ post) = true.
Proof.
  intros H. unfold Bitrate.unitFollows.
  rewrite (span_append Str.isSpace ws ("kbits/s" +:+ post) H); [|reflexivity].
  apply prefix_append.
Qed.

Lemma unitFollows_inv (r : string) :
  Bitrate.unitFollows r = true ->
  exists ws post, r = ws +:+ "kbits/s" +:+ post /\ every Str.isSpace ws = true.
Proof.
  unfold Bitrate.unitFollows. intros H.
  destruct (Str.span Str.isSpace r) as [ws r'] eqn:Hs.
  apply span_inv in Hs as (-> & Hws & _). cbn [snd] in H.
  apply prefix_inv in H as [post ->]. eauto.
Qed.

(** What follows the numeral stops a run of digits. *)
Lemma unit_stops_digits (ws post : string) :
  every Str.isSpace ws = true ->
  stops Str.isDigit (ws +:+ "kbits/s" +:+ post).
Proof.
  intros H. destruct ws as [|a ws]; [reflexivity|].
  rewrite append_cons. cbn [stops]. cbn [every] in H.
  apply andb_true_iff in H as [H _]. exact (space_not_digit _ H).
Qed.

Lemma isDigits_inv (s : string) :
  isDigits s = true ->
  every Str.isDigit s = true /\ Str.isEmpty s = false
  /\ exists a s', s = String a s' /\ Str.isDigit a = true.
Proof.
  unfold isDigits. intros H. apply andb_true_iff in H as [He Hd].
  destruct s as [|a s']; [discriminate|]. repeat split; [exact Hd|].
  exists a, s'. split; [reflexivity|]. cbn [every] in Hd.
  apply andb_true_iff in Hd. tauto.
Qed.

(** The shape of a numeral. *)
Lemma isNumeral_inv (g : string) :
  isNumeral g = true ->
  exists a r, g = a +:+ r /\ isDigits a = true
              /\ (r = EmptyString \/ exists b, r = String "." b /\ isDigits b = true).
Proof.
  unfold isNumeral. destruct (Str.span Str.isDigit g) as [a r] eqn:Hs.
  apply span_inv in Hs as (-> & Ha & _). intros H.
  apply andb_true_iff in H as [He H]. exists a, r.
  split; [reflexivity|]. split; [unfold isDigits; rewrite He, Ha; reflexivity|].
  destruct r as [|c b]; [left; reflexivity|]. right.
  apply andb_true_iff in H as [Hc Hb]. apply Ascii.eqb_eq in Hc as ->. eauto.
Qed.

Lemma isNumeral_digits (a : string) : isDigits a = true -> isNumeral a = true.
Proof.
  intros H. destruct (isDigits_inv _ H) as (Hd & He & _). unfold isNumeral.
  rewrite <- (append_nil_r a) at 1.
  rewrite (span_append Str.isDigit a EmptyString Hd I), He. reflexivity.
Qed.

Lemma isNumeral_decimal (a b : string) :
  isDigits a = true -> isDigits b = true ->
  isNumeral (a +:+ "." +:+ b) = true.
Proof.
  intros Ha Hb. destruct (isDigits_inv _ Ha) as (Hd & He & _). unfold isNumeral.
  change ("." +:+ b) with (String "." b).
  rewrite (span_append Str.isDigit a (String "." b) Hd); [|reflexivity].
  rewrite He, Hb. reflexivity.
Qed.

(** The pattern matches a formatted bitrate at the start of a text. *)
Lemma matchHere_formatted (ws1 g ws2 post : string) :
  every Str.isSpace ws1 = true -> isNumeral g = true ->
  every Str.isSpace ws2 = true ->
  Bitrate.matchHere
    ("bitrate=" +:+ ws1 +:+ g +:+ ws2 +:+ "kbits/s" +:+ post) = Some g.
Proof.
  intros H1 Hg H2. rewrite matchHere_eq, strip_append.
  destruct (isNumeral_inv _ Hg) as (a & r & -> & Ha & Hr).
  destruct (isDigits_inv _ Ha) as (Had & Hae & a0 & a' & -> & Ha0).
  rewrite (span_append Str.isSpace ws1 _ H1);
    [|rewrite !append_cons; exact (digit_not_space _ Ha0)].
  cbn [snd]. rewrite append_assoc.
  pose proof (unit_stops_digits ws2 post H2) as Hstop.
  pose proof (unitFollows_intro ws2 post H2) as Hunit.
  destruct Hr as [->|(b & -> & Hb)].
  - rewrite append_nil_l, append_nil_r.
    rewrite (span_append Str.isDigit _ _ Had Hstop).
    cbn [Str.isEmpty]. rewrite Hunit.
    destruct (ws2 +:+ "kbits/s" +:+ post) as [|c r2]; [reflexivity|].
    cbn [stops] in Hstop.
    destruct (Ascii.eqb_spec c ".") as [->|]; [discriminate|reflexivity].
  - destruct (isDigits_inv _ Hb) as (Hbd & Hbe & _).
    rewrite (append_cons "." b).
    rewrite (span_append Str.isDigit _ (String "." _) Had); [|reflexivity].
    cbn [Str.isEmpty]. rewrite Ascii.eqb_refl.
    rewrite (span_append Str.isDigit b _ Hbd Hstop), Hbe, Hunit.
    reflexivity.
Qed.

Lemma search_here (s g : string) :
  Bitrate.matchHere s = Some g -> Bitrate.search s = Some g.
Proof. intros H. destruct s; cbn [Bitrate.search]; rewrite H; reflexivity. Qed.

(** The search passes over a text in which the pattern cannot start. *)
Lemma search_skip (pre r : string) :
  Str.includes (pre +:+ "bitrate") "bitrate=" = false ->
  Bitrate.search (pre +:+ "bitrate=" +:+ r)
  = Bitrate.search ("bitrate=" +:+ r).
Proof.
  induction pre as [|c pre IH]; intros H; [reflexivity|].
  rewrite append_cons in H |- *. cbn [Bitrate.search].
  rewrite <- (IH (includes_tail _ _ _ H)).
  assert (Hm : Bitrate.matchHere (String c (pre +:+ "bitrate=" +:+ r)) = None).
  { unfold Bitrate.matchHere. rewrite strip_prefix; [reflexivity|].
    change ("bitrate=" +:+ r) with ("bitrate" +:+ "=" +:+ r).
    rewrite <- append_assoc, <- append_cons.
    rewrite prefix_cut; [exact (includes_prefix _ _ H)|].
    cbn [String.length]. rewrite length_append. cbn. lia. }
  rewrite Hm. reflexivity.
Qed.

(** X2.  The log handler finds the bitrate of a progress line of the
    engine: in a text that holds [bitrate=], white space, a numeral (digits,
    or digits, a dot and digits), white space and [kbits/s], and in which
    [bitrate=] does not occur before, the match is the whole numeral. *)
Theorem bitrate_of_progress_line :
  forall (pre ws1 g ws2 post : string),
    Str.includes (pre +:+ "bitrate") "bitrate=" = false ->
    every Str.isSpace ws1 = true ->
    isNumeral g = true ->
    every Str.isSpace ws2 = true ->
    Bitrate.search
      (pre +:+ "bitrate=" +:+ ws1 +:+ g +:+ ws2 +:+ "kbits/s" +:+ post)
    = Some g.
Proof.
  intros pre ws1 g ws2 post Hpre H1 Hg H2.
  rewrite (search_skip pre _ Hpre).
  apply search_here, matchHere_formatted; assumption.
Qed.

Lemma bitrate_of_progress_line_witness :
  Bitrate.search
    ("size=     128kB time=00:00:08.19 " +:+ "bitrate=" +:+ " " +:+ "128.0"
       +:+ EmptyString +:+ "kbits/s" +:+ " speed=21.5x")
  = Some "128.0".
Proof.
  apply (bitrate_of_progress_line
           "size=     128kB time=00:00:08.19 " " " "128.0" EmptyString
           " speed=21.5x"); reflexivity.
Defined.

Lemma matchHere_inv (s g : string) :
  Bitrate.matchHere s = Some g ->
  isNumeral g = true
  /\ exists ws1 ws2 post,
       s = "bitrate=" +:+ ws1 +:+ g +:+ ws2 +:+ "kbits/s" +:+ post
       /\ every Str.isSpace ws1 = true /\ every Str.isSpace ws2 = true.
Proof.
  rewrite matchHere_eq.
  destruct (Str.strip "bitrate=" s) as [r|] eqn:Hstrip; [|discriminate].
  apply strip_inv in Hstrip as ->.
  destruct (Str.span Str.isSpace r) as [ws1 r0] eqn:Hs1.
  apply span_inv in Hs1 as (-> & Hws1 & _). cbn [snd].
  destruct (Str.span Str.isDigit r0) as [d1 r1] eqn:Hd1.
  apply span_inv in Hd1 as (-> & Hd1 & _).
  destruct (Str.isEmpty d1) eqn:He1; [discriminate|].
  assert (Hdigits : isDigits d1 = true)
    by (unfold isDigits; rewrite He1, Hd1; reflexivity).
  assert (Hint : Bitrate.unitFollows r1 = true ->
                 g = d1 ->
                 isNumeral g = true
                 /\ exists ws1' ws2 post,
                      "bitrate=" +:+ ws1 +:+ d1 +:+ r1
                      = "bitrate=" +:+ ws1' +:+ g +:+ ws2 +:+ "kbits/s" +:+ post
                      /\ every Str.isSpace ws1' = true
                      /\ every Str.isSpace ws2 = true).
  { intros Hu ->. split; [exact (isNumeral_digits _ Hdigits)|].
    apply unitFollows_inv in Hu as (ws2 & post & -> & Hws2).
    exists ws1, ws2, post. auto. }
  destruct r1 as [|c r2].
  - destruct (Bitrate.unitFollows EmptyString) eqn:Hu; [|discriminate].
    intros H. injection H as <-. apply Hint; reflexivity.
  - destruct (Ascii.eqb_spec c ".") as [->|Hc].
    + destruct (Str.span Str.isDigit r2) as [d2 r3] eqn:Hd2.
      apply span_inv in Hd2 as (-> & Hd2 & _).
      assert (Hdot : Bitrate.unitFollows (String "." (d2 +:+ r3)) = false)
        by reflexivity.
      rewrite Hdot.
      destruct (Str.isEmpty d2) eqn:He2; [discriminate|].
      destruct (Bitrate.unitFollows r3) eqn:Hu; [|discriminate].
      intros H. injection H as <-.
      split.
      * apply isNumeral_decimal; [exact Hdigits|].
        unfold isDigits. rewrite He2, Hd2. reflexivity.
      * apply unitFollows_inv in Hu as (ws2 & post & -> & Hws2).
        exists ws1, ws2, post. split; [|auto].
        rewrite !append_assoc. reflexivity.
    + destruct (Bitrate.unitFollows (String c r2)) eqn:Hu; [|discriminate].
      intros H. injection H as <-. apply Hint; reflexivity.
Qed.

(** X3.  Whatever the log handler reports as a bitrate is a numeral the
    message holds between [bitrate=] and [kbits/s], with nothing but white
    space around it; a message without such a place yields no report.  The
    message is one of characters below 128, for which the white space of the
    pattern is the one-byte white space. *)
Theorem reported_bitrate_is_in_message :
  forall (message g : string),
    every isAscii message = true ->
    Bitrate.search message = Some g ->
    isNumeral g = true
    /\ exists pre ws1 ws2 post,
         message
         = pre +:+ "bitrate=" +:+ ws1 +:+ g +:+ ws2 +:+ "kbits/s" +:+ post
         /\ every Str.isSpace ws1 = true /\ every Str.isSpace ws2 = true.
Proof.
  intros message g _. induction message as [|c m IH]; cbn [Bitrate.search].
  - discriminate.
  - destruct (Bitrate.matchHere (String c m)) as [g'|] eqn:Hm.
    + intros H. injection H as ->.
      destruct (matchHere_inv _ _ Hm) as (Hg & ws1 & ws2 & post & -> & H1 & H2).
      split; [exact Hg|]. exists EmptyString, ws1, ws2, post. auto.
    + intros H. destruct (IH H) as (Hg & pre & ws1 & ws2 & post & -> & H1 & H2).
      split; [exact Hg|]. exists (String c pre), ws1, ws2, post. auto.
Qed.

Lemma reported_bitrate_is_in_message_witness :
  isNumeral "96" = true
  /\ exists pre ws1 ws2 post,
       "time=00:01:02.50 bitrate=  96 kbits/s"
       = pre +:+ "bitrate=" +:+ ws1 +:+ "96" +:+ ws2 +:+ "kbits/s" +:+ post
       /\ every Str.isSpace ws1 = true /\ every Str.isSpace ws2 = true.
Proof.
  apply (reported_bitrate_is_in_message
           "time=00:01:02.50 bitrate=  96 kbits/s" "96"); reflexivity.
Defined.

(** ** The clean-up of a conversion *)

(** X4.  No conversion returns.  The clean-up calls a method the engine
    does not have, inside the [try] block: a conversion that gets that far
    throws there, and the [catch] clause wraps the error.  So the run of
    the three stages ends in the first, and the consumer never gets to show
    minutes.  A conversion on an uninitialised engine whose eight awaited
    calls pass and whose transcode leaves an output fails with exactly that
    error, leaves the engine initialised and both entries in its working
    storage. *)
Theorem conversion_never_returns :
  (forall (audioFile : File) (w : World),
      exists x w',
        convertToWav audioFile w = (Threw x, w')
        /\ pipeline audioFile w = (Threw x, w'))
  /\ (forall (e : Env) (audioFile : File) (minutes : json),
         fst (handleClientFormSubmit e audioFile) <> MinutesShown minutes)
  /\ (forall (audioFile : File) (out : list Byte.byte) (w : World),
         initialized w = false ->
         undisturbed (env w) (clock w) 8 ->
         execOutput (env w) (6 + clock w) = Some out ->
         let run := convertToWav audioFile w in
         fst run
         = Threw (Error "Failed to convert audio: ffmpeg.rm is not a function")
         /\ initialized (snd run) = true
         /\ files (ffmpeg (snd run)) !! inputFileNameOf audioFile
            = Some (fileBytes audioFile)
         /\ files (ffmpeg (snd run)) !! outputFileName = Some out).
Proof.
  assert (Hthrows : forall (audioFile : File) (w : World),
             exists x w',
               convertToWav audioFile w = (Threw x, w')
               /\ pipeline audioFile w = (Threw x, w')).
  { intros audioFile w. unfold pipeline, bind.
    destruct (convertToWav audioFile w) as [[b|x] w'] eqn:H.
    - destruct (convertToWav_never_returns _ _ _ _ H).
    - exists x, w'. split; reflexivity. }
  split; [exact Hthrows|]. split.
  - intros e audioFile minutes. unfold handleClientFormSubmit.
    destruct (keyMissing e); [discriminate|].
    destruct (Hthrows audioFile (newAudioProcessor e)) as (x & w' & _ & ->).
    destruct (String.eqb _ operationCancelled); discriminate.
  - intros audioFile out w Hi Hu Ho run.
    destruct (convertToWav_undisturbed audioFile out w Hi Hu Ho)
      as (w' & Hrun & _ & _ & _ & _ & Hi' & Hf).
    unfold run. rewrite Hrun. cbn [fst snd].
    split; [reflexivity|]. split; [exact Hi'|]. rewrite Hf.
    unfold storageAfter. split.
    + rewrite lookup_insert_ne by (apply not_eq_sym, input_is_not_output).
      apply lookup_insert_eq.
    + apply lookup_insert_eq.
Qed.

Lemma conversion_never_returns_witness :
  let run := convertToWav sampleFile (newAudioProcessor sampleEnv) in
  fst run = Threw (Error "Failed to convert audio: ffmpeg.rm is not a function")
  /\ files (ffmpeg (snd run)) !! "output.wav" = Some sampleWav.
Proof.
  intros run.
  destruct (proj2 (proj2 conversion_never_returns) sampleFile
              sampleWav (newAudioProcessor sampleEnv) eq_refl
              (undisturbed_sampleEnv _ _) eq_refl)
    as (Hx & _ & _ & Ho).
  split; [exact Hx|exact Ho].
Defined.

Lemma toBlobURL_eq (url mimeType : string) (w : World) :
  toBlobURL url mimeType w =
  match fault (env w) (clock w) with
  | Some e => (Threw e, resumed (record (Fetch url) w))
  | None => (Returned ("blob:" +:+ url), resumed (record (Fetch url) w))
  end.
Proof.
  unfold toBlobURL, bind at 1, modify. rewrite remoteCall_eq.
  cbn [env clock record]. destruct (fault (env w) (clock w)); reflexivity.
Qed.

(** A fetch that returns: nothing failed, and a token that is still there
    was there before, so that nobody cancelled meanwhile. *)
(** ** An initialisation that fails *)

Lemma resumed_uninitialized (w : World) :
  initialized w = false -> initialized (resumed w) = false.
Proof.
  intros Hi. destruct (cancelRequested (interlude (env w) (clock w))) eqn:Hq.
  - apply (resumed_cancelled w Hq).
  - destruct (resumed_undisturbed w Hq) as (_ & Hi' & _). congruence.
Qed.

(** X5.  When the initialisation of the engine fails, the processor stays
    uninitialised, so that the next conversion tries again, and what is
    thrown is one of three fixed messages chosen by the message of the
    cause: the rejection of one of the four awaited calls, or the engine's
    own rejection of a load during which it was terminated. *)
Theorem initialisation_failure_is_normalised :
  forall (w w' : World) (x : Thrown),
    ensureFFmpeg w = (Threw x, w') ->
    initialized w' = false
    /\ exists cause,
         ((exists j, (j < 4)%nat /\ fault (env w) (j + clock w) = Some cause)
          \/ (cause = terminatedError (env w)
              /\ cancelRequested (interlude (env w) (3 + clock w)) = true))
         /\ x = Error (if messageIncludes cause "aborted"
                       then operationCancelled
                       else if messageIncludes cause "failed to fetch"
                       then loadFailedOffline
                       else loadFailed).
Proof.
  intros w w' x. unfold ensureFFmpeg, bind at 1, get.
  destruct (initialized w) eqn:Hi; [discriminate|].
  assert (Hcatch : forall (cause : Thrown) (w1 : World),
             (if messageIncludes cause "aborted"
              then throw (Error operationCancelled)
              else if messageIncludes cause "failed to fetch"
              then throw (Error loadFailedOffline)
              else throw (Error loadFailed)) w1
             = (@Threw unit
                  (Error (if messageIncludes cause "aborted"
                          then operationCancelled
                          else if messageIncludes cause "failed to fetch"
                          then loadFailedOffline
                          else loadFailed)), w1)).
  { intros cause w1. destruct (messageIncludes cause "aborted");
      [reflexivity|].
    destruct (messageIncludes cause "failed to fetch"); reflexivity. }
  unfold tryCatch.
  unfold bind at 1, modify at 1. unfold bind at 1, modify at 1.
  set (w0 := setFFmpeg _ (record _ (setFFmpeg _ w))).
  assert (I0 : initialized w0 = false) by exact Hi.
  assert (E0 : env w0 = env w) by reflexivity.
  assert (C0 : clock w0 = clock w) by reflexivity.
  clearbody w0.
  unfold bind at 1. rewrite toBlobURL_eq, E0, C0.
  destruct (fault (env w) (clock w)) as [e1|] eqn:F1.
  { rewrite Hcatch. intros H. injection H as <- <-.
    split; [apply resumed_uninitialized; exact I0|].
    exists e1. split; [|reflexivity]. left. exists 0%nat. split; [lia|exact F1]. }
  set (w1 := resumed (record _ w0)).
  assert (I1 : initialized w1 = false)
    by (apply resumed_uninitialized; exact I0).
  assert (E1 : env w1 = env w) by (unfold w1; world; exact E0).
  assert (C1 : clock w1 = S (clock w)) by (unfold w1; world; congruence).
  clearbody w1.
  unfold bind at 1. rewrite toBlobURL_eq, E1, C1.
  destruct (fault (env w) (S (clock w))) as [e2|] eqn:F2.
  { rewrite Hcatch. intros H. injection H as <- <-.
    split; [apply resumed_uninitialized; exact I1|].
    exists e2. split; [|reflexivity]. left. exists 1%nat. split; [lia|exact F2]. }
  set (w2 := resumed (record _ w1)).
  assert (I2 : initialized w2 = false)
    by (apply resumed_uninitialized; exact I1).
  assert (E2 : env w2 = env w) by (unfold w2; world; exact E1).
  assert (C2 : clock w2 = S (S (clock w))) by (unfold w2; world; congruence).
  clearbody w2.
  unfold bind at 1. rewrite toBlobURL_eq, E2, C2.
  destruct (fault (env w) (S (S (clock w)))) as [e3|] eqn:F3.
  { rewrite Hcatch. intros H. injection H as <- <-.
    split; [apply resumed_uninitialized; exact I2|].
    exists e3. split; [|reflexivity]. left. exists 2%nat. split; [lia|exact F3]. }
  set (w3 := resumed (record _ w2)).
  assert (I3 : initialized w3 = false)
    by (apply resumed_uninitialized; exact I2).
  assert (E3 : env w3 = env w) by (unfold w3; world; exact E2).
  assert (C3 : clock w3 = S (S (S (clock w))))
    by (unfold w3; world; congruence).
  clearbody w3.
  unfold bind at 1, load. rewrite engineCall_eq, E3, C3. cbn [andb].
  destruct (cancelRequested (interlude (env w) (S (S (S (clock w))))))
    eqn:Q4.
  { rewrite Hcatch. intros H. injection H as <- <-.
    split; [apply resumed_uninitialized; exact I3|].
    exists (terminatedError (env w)). split; [|reflexivity]. right.
    split; [reflexivity|exact Q4]. }
  destruct (fault (env w) (S (S (S (clock w))))) as [e4|] eqn:F4.
  { rewrite Hcatch. intros H. injection H as <- <-.
    split; [apply resumed_uninitialized; exact I3|].
    exists e4. split; [|reflexivity]. left. exists 3%nat. split; [lia|exact F4]. }
  discriminate.
Qed.

Lemma initialisation_failure_is_normalised_witness :
  initialized
    (snd (ensureFFmpeg
            (newAudioProcessor
               (failing 1 (Error "Failed to fetch") sampleEnv))))
  = false.
Proof.
  apply (initialisation_failure_is_normalised
           (newAudioProcessor (failing 1 (Error "Failed to fetch") sampleEnv))
           _ (Error loadFailed)).
  vm_compute. reflexivity.
Defined.

(** ** What the methods throw *)

Lemma conversionError_labelled (e : Thrown) :
  exists m, conversionError e = Error m
            /\ (m = operationCancelled
                \/ String.prefix "Failed to convert audio: " m = true).
Proof.
  unfold conversionError. destruct (messageIs e operationCancelled) eqn:Hm.
  - destruct e as [m|]; [|discriminate]. cbn [messageIs] in Hm.
    apply String.eqb_eq in Hm. eauto.
  - eexists. split; [reflexivity|]. right. apply prefix_append.
Qed.

Lemma transcriptionError_labelled (e : Thrown) :
  exists m, transcriptionError e = Error m
            /\ (m = invalidApiKey
                \/ String.prefix "Failed to transcribe audio: " m = true).
Proof.
  unfold transcriptionError. destruct (messageIncludes e "API key").
  - eauto.
  - eexists. split; [reflexivity|]. right. apply prefix_append.
Qed.

Lemma analysisError_labelled (e : Thrown) :
  exists m, analysisError e = Error m
            /\ (m = invalidApiKey
                \/ String.prefix "Failed to analyze transcription: " m = true).
Proof.
  unfold analysisError. destruct (messageIncludes e "API key").
  - eauto.
  - eexists. split; [reflexivity|]. right. apply prefix_append.
Qed.

Lemma convertToWav_threw (audioFile : File) (w w' : World) (x : Thrown) :
  convertToWav audioFile w = (Threw x, w') ->
  exists m, x = Error m
            /\ (m = operationCancelled
                \/ String.prefix "Failed to convert audio: " m = true).
Proof.
  rewrite convertToWav_eq.
  destruct (ensureFFmpeg (setAbortController freshToken w)) as [[u|e] w1].
  - destruct (abortController w1) as [c|].
    + destruct (aborted c).
      * intros H. injection H as <- _. eauto.
      * destruct (transcode audioFile w1) as [[b|e] w2]; [discriminate|].
        intros H. injection H as <- _. apply conversionError_labelled.
    + intros H. injection H as <- _. apply conversionError_labelled.
  - intros H. injection H as <- _. apply conversionError_labelled.
Qed.

Lemma transcribeAudio_threw (audioBlob : Blob) (w w' : World) (x : Thrown) :
  transcribeAudio audioBlob w = (Threw x, w') ->
  exists m, x = Error m
            /\ (m = operationCancelled \/ m = invalidApiKey
                \/ String.prefix "Failed to transcribe audio: " m = true).
Proof.
  destruct (signalled w) eqn:Hs.
  - unfold transcribeAudio, bind, get. rewrite Hs. intros H.
    injection H as <- _. eauto.
  - rewrite (transcribeAudio_eq _ _ Hs). cbv zeta.
    destruct (fault (env w) (clock w)) as [e|]; [|discriminate].
    intros H. injection H as <- _.
    destruct (transcriptionError_labelled e) as (m & -> & Hm). eauto.
Qed.

Lemma segmentByTopics_threw (transcription : string) (w w' : World)
    (x : Thrown) :
  segmentByTopics transcription w = (Threw x, w') ->
  exists m, x = Error m
            /\ (m = operationCancelled \/ m = invalidApiKey
                \/ String.prefix "Failed to analyze transcription: " m = true).
Proof.
  destruct (signalled w) eqn:Hs.
  - unfold segmentByTopics, bind, get. rewrite Hs. intros H.
    injection H as <- _. eauto.
  - intros H.
    assert (Hx : exists e, x = analysisError e).
    { revert H. rewrite (segmentByTopics_eq _ _ Hs). cbv zeta.
      destruct (fault (env w) (clock w)) as [e|].
      - intros H. injection H as <- _. eauto.
      - destruct (choices (completion (env w) (clock w))) as [|c rest].
        + intros H. injection H as <- _. eauto.
        + destruct (JSON.parse (default "null" (content c))); [discriminate|].
          intros H. injection H as <- _. eauto. }
    destruct Hx as [e ->].
    destruct (analysisError_labelled e) as (m & -> & Hm). eauto.
Qed.

(** X6.  Whatever goes wrong in a stage, what is thrown is an [Error]
    whose message is the text of a cancellation, the text about the API
    key, or the message of the cause behind the label of the stage.  As no
    conversion returns, an error the consumer shows is its own text about
    the key or the message of a failed conversion; it never falls back to
    its text for a thrown value that is no [Error]. *)
Theorem failures_are_labelled_errors :
  (forall (audioFile : File) (w w' : World) (x : Thrown),
      convertToWav audioFile w = (Threw x, w') ->
      exists m, x = Error m
                /\ (m = operationCancelled
                    \/ String.prefix "Failed to convert audio: " m = true))
  /\ (forall (audioBlob : Blob) (w w' : World) (x : Thrown),
         transcribeAudio audioBlob w = (Threw x, w') ->
         exists m, x = Error m
                   /\ (m = operationCancelled \/ m = invalidApiKey
                       \/ String.prefix "Failed to transcribe audio: " m
                          = true))
  /\ (forall (transcription : string) (w w' : World) (x : Thrown),
         segmentByTopics transcription w = (Threw x, w') ->
         exists m, x = Error m
                   /\ (m = operationCancelled \/ m = invalidApiKey
                       \/ String.prefix "Failed to analyze transcription: " m
                          = true))
  /\ (forall (e : Env) (audioFile : File) (m : string),
         fst (handleClientFormSubmit e audioFile) = ErrorShown m ->
         (m = keyNotConfigured
          \/ String.prefix "Failed to convert audio: " m = true)
         /\ m <> "An error occurred").
Proof.
  split; [exact convertToWav_threw|]. split; [exact transcribeAudio_threw|].
  split; [exact segmentByTopics_threw|].
  intros e audioFile m. unfold handleClientFormSubmit.
  destruct (keyMissing e).
  - intros H. injection H as <-. split; [left; reflexivity|discriminate].
  - unfold pipeline, bind.
    destruct (convertToWav audioFile (newAudioProcessor e)) as [[b|x] w] eqn:Hc.
    + destruct (convertToWav_never_returns _ _ _ _ Hc).
    + apply convertToWav_threw in Hc as (m' & -> & Hm).
      cbn [errorMessageOf].
      destruct (String.eqb_spec m' operationCancelled) as [->|Hne];
        [discriminate|].
      intros H. injection H as <-. destruct Hm as [Hm|Hm]; [congruence|].
      split; [right; exact Hm|]. intros ->. discriminate.
Qed.

Lemma failures_are_labelled_errors_witness :
  (exists m, Error "Failed to convert audio: Conversion failed" = Error m
             /\ (m = operationCancelled
                 \/ String.prefix "Failed to convert audio: " m = true))
  /\ ("Failed to convert audio: Conversion failed" = keyNotConfigured
      \/ String.prefix "Failed to convert audio: "
                       "Failed to convert audio: Conversion failed" = true).
Proof.
  destruct failures_are_labelled_errors as (Hconv & _ & _ & Hshown).
  split.
  - apply (Hconv sampleFile (newAudioProcessor execFails)
             (snd (convertToWav sampleFile (newAudioProcessor execFails)))).
    vm_compute. reflexivity.
  - apply (Hshown execFails sampleFile). vm_compute. reflexivity.
Defined.

(** ** The checks of the token *)

Lemma after_sound (c : Call) (w : World) :
  wf w /\ settledHeap w /\ unsignalled w ->
  wf (after c w) /\ settledHeap (after c w) /\ unsignalled (after c w).
Proof.
  intros (Hwf & Hs & Hu).
  destruct (methods_keep_sound w Hwf Hs) as (Hc & Hv & Ht & Ha).
  destruct (token_never_signalled w Hu) as (Tc & Tv & Tt & Ta & _).
  destruct c as [|audioFile|audioBlob|transcription]; cbn [after].
  - split; [apply Hc|split; [apply Hc|exact Tc]].
  - split; [apply Hv|split; [apply Hv|apply Tv]].
  - split; [apply Ht|split; [apply Ht|apply Tt]].
  - split; [apply Ha|split; [apply Ha|apply Ta]].
Qed.

Lemma afterAll_sound (cs : list Call) (w : World) :
  wf w /\ settledHeap w /\ unsignalled w ->
  wf (afterAll cs w) /\ settledHeap (afterAll cs w)
  /\ unsignalled (afterAll cs w).
Proof.
  revert w. induction cs as [|c cs IH]; intros w H; [exact H|].
  apply (IH (after c w)), after_sound, H.
Qed.

(** X7.  On a processor, whatever calls were made before and however they
    ended, the token is never found signalled: [cancel()] signals it and
    drops it in one step.  So the checks at the entry of the two service
    stages never fire: the stages never throw the error of a cancellation and
    always issue their request. *)
Theorem entry_checks_never_fire :
  forall (e : Env) (cs : list Call),
    let w := afterAll cs (newAudioProcessor e) in
    signalled w = false
    /\ (forall audioBlob,
           fst (transcribeAudio audioBlob w) <> Threw (Error operationCancelled)
           /\ In (transcriptionRequest audioBlob)
                 (trace (snd (transcribeAudio audioBlob w))))
    /\ (forall transcription,
           fst (segmentByTopics transcription w)
           <> Threw (Error operationCancelled)
           /\ In (chatRequest transcription)
                 (trace (snd (segmentByTopics transcription w)))).
Proof.
  intros e cs w.
  destruct (afterAll_sound cs _ (newAudioProcessor_sound e)) as (_ & _ & Hu).
  fold w in Hu. unfold unsignalled in Hu.
  destruct (service_stages_never_cancelled w Hu) as [Ht Ha].
  split; [exact Hu|]. split.
  - intros audioBlob. split; [apply Ht|].
    rewrite (transcribeAudio_eq _ _ Hu). cbv zeta.
    destruct (fault (env w) (clock w)); cbn [snd].
    + apply resumed_keeps_trace, record_in_trace.
    + apply published_keeps_trace, resumed_keeps_trace, record_in_trace.
  - intros transcription. split; [apply Ha|].
    rewrite (segmentByTopics_eq _ _ Hu). cbv zeta.
    destruct (fault (env w) (clock w)); cbn [snd].
    + apply resumed_keeps_trace, record_in_trace.
    + destruct (choices (completion (env w) (clock w))) as [|c rest];
        [|destruct (JSON.parse (default "null" (content c)))];
        cbn [snd];
        apply published_keeps_trace, resumed_keeps_trace, record_in_trace.
Qed.

(** ** The progress of a stage that fails *)

Lemma reported_slot (stage : ProcessStage) (value : number) (w : World) :
  wf w -> slot (own (published stage value None w)) stage = clamp value.
Proof.
  intros Hwf. rewrite published_own by exact Hwf. apply slot_setSlot_same.
Qed.

(** The slot of a service stage across its request. *)
Lemma pending_slot (stage : ProcessStage) (request : Event) (w : World) :
  wf w -> stage <> Converting ->
  let w3 := resumed (record request (published stage Num.tenth None w)) in
  wf w3 /\ slot (own w3) stage = Num.tenth.
Proof.
  intros Hwf Hstage. cbv zeta.
  set (w1 := published stage Num.tenth None w).
  assert (Hwf1 : wf w1)
    by (eapply frame_wf; [apply frame_published|exact Hwf]).
  assert (Hwf2 : wf (record request w1)) by exact Hwf1.
  destruct (aside_resumed _ Hwf2) as (F & Hs & _).
  split; [eapply frame_wf; eassumption|].
  rewrite (Hs stage Hstage). change (own (record request w1)) with (own w1).
  unfold w1. rewrite (reported_slot _ _ _ Hwf). reflexivity.
Qed.

(** X8.  A service stage that fails leaves its progress where the failure
    found it: a transcription that fails stays at 0.1; an analysis whose
    request fails stays at 0.1, and one whose answer cannot be read has
    already been reported as complete. *)
Theorem failed_stage_progress :
  forall (w : World),
    wf w -> signalled w = false ->
    (forall (audioBlob : Blob) (x : Thrown) (w' : World),
        transcribeAudio audioBlob w = (Threw x, w') ->
        slot (own w') Transcribing = Num.tenth)
    /\ (forall (transcription : string) (x : Thrown) (w' : World),
           segmentByTopics transcription w = (Threw x, w') ->
           slot (own w') Analyzing
           = match fault (env w) (clock w) with
             | Some _ => Num.tenth
             | None => Num.one
             end).
Proof.
  intros w Hwf Hs. split.
  - intros audioBlob x w'. rewrite (transcribeAudio_eq _ _ Hs). cbv zeta.
    destruct (fault (env w) (clock w)); [|discriminate].
    intros H. injection H as _ <-.
    apply (pending_slot Transcribing _ w Hwf). discriminate.
  - intros transcription x w'. rewrite (segmentByTopics_eq _ _ Hs). cbv zeta.
    destruct (pending_slot Analyzing (chatRequest transcription) w Hwf
                ltac:(discriminate)) as [Hwf3 Hslot].
    destruct (fault (env w) (clock w)).
    + intros H. injection H as _ <-. exact Hslot.
    + destruct (choices (completion (env w) (clock w))) as [|c rest];
        [|destruct (JSON.parse (default "null" (content c)));
          [discriminate|]];
        intros H; injection H as _ <-;
        rewrite (reported_slot _ _ _ Hwf3); reflexivity.
Qed.

Lemma failed_stage_progress_witness :
  slot (own (snd (transcribeAudio sampleBlob
                    (newAudioProcessor (failing 0 NonError sampleEnv)))))
       Transcribing
  = Num.tenth
  /\ slot (own (snd (segmentByTopics sampleTranscript
                       (newAudioProcessor
                          (answering (mkCompletion []) sampleEnv)))))
          Analyzing
     = Num.one.
Proof.
  split.
  - apply (proj1 (failed_stage_progress
                    (newAudioProcessor (failing 0 NonError sampleEnv))
                    (wf_newAudioProcessor _) eq_refl)
             sampleBlob (Error "Failed to transcribe audio: Unknown error")).
    vm_compute. reflexivity.
  - apply (proj2 (failed_stage_progress
                    (newAudioProcessor (answering (mkCompletion []) sampleEnv))
                    (wf_newAudioProcessor _) eq_refl)
             sampleTranscript
             (Error "Failed to analyze transcription: Cannot read properties of undefined (reading 'message')")).
    vm_compute. reflexivity.
Defined.

(** ** What a conversion reports *)

(** X9.  A conversion reports nothing on its own: every callback made
    while it runs comes from one of the two handlers of the engine's events
    (it is for the first stage and carries the label of the handlers), and
    no request goes to a service.  With an engine that emits nothing there
    is no callback at all and the progress record stays as it was, so that
    the first stage never shows as complete. *)
Theorem conversion_reports_only_through_engine :
  forall (audioFile : File) (w : World),
    let w' := snd (convertToWav audioFile w) in
    extends conversionEvent w w'
    /\ (silent (env w) -> own w' = own w /\ extends notCallback w w').
Proof.
  intros audioFile w w'. split.
  - assert (Hrun : Run (extends conversionEvent)
                       (fun e => isCall e /\ conversionEvent e)
                       (fun _ => False)).
    { apply extends_run.
      - intros [] H; try destruct H. exact H.
      - exact I.
      - intros ev [_ H]. exact H.
      - intros stage l []. }
    apply (runs_convertToWav _ _ _ (fun e H1 H2 => conj H1 H2) audioFile w).
  - intros Hs.
    pose proof unreported_run as Hrun.
    destruct (runs_convertToWav _ _ _ (fun e H1 _ => H1) audioFile w)
      as (_ & H).
    destruct (H Hs) as (Hh & Hp & Hx). split; [|exact Hx].
    unfold own, w'. rewrite Hh, Hp. reflexivity.
Qed.

Lemma conversion_reports_only_through_engine_witness :
  own (snd (convertToWav sampleFile (newAudioProcessor sampleEnv))) = noProgress.
Proof.
  apply (proj2 (conversion_reports_only_through_engine
                  sampleFile (newAudioProcessor sampleEnv))).
  intros n. reflexivity.
Defined.

(** X10.  Each method leaves the progress of the other stages alone:
    [cancel()] changes no slot (it does not reset the progress), a
    conversion changes neither the transcribing nor the analyzing slot, a
    transcription leaves the analyzing slot and an analysis the transcribing
    slot. *)
Theorem stages_write_their_own_slot :
  forall (w : World),
    wf w ->
    own (cancelled w) = own w
    /\ (forall audioFile s,
           s <> Converting ->
           slot (own (snd (convertToWav audioFile w))) s = slot (own w) s)
    /\ (forall audioBlob,
           slot (own (snd (transcribeAudio audioBlob w))) Analyzing
           = slot (own w) Analyzing)
    /\ (forall transcription,
           slot (own (snd (segmentByTopics transcription w))) Transcribing
           = slot (own w) Transcribing).
Proof.
  intros w Hwf. split; [rewrite cancelled_eq; reflexivity|].
  split; [|split].
  - intros audioFile s Hs.
    pose proof (onlyStages_run (fun s => s = Converting) eq_refl) as Hrun.
    pose proof (runs_convertToWav (onlyStages (fun s => s = Converting))
                  anyEvent (fun s => s = Converting) (fun e _ _ => I)
                  audioFile w) as H.
    apply (H Hwf). exact Hs.
  - intros audioBlob.
    assert (Hc : Converting <> Analyzing) by discriminate.
    assert (Ht : Transcribing <> Analyzing) by discriminate.
    pose proof (onlyStages_run (fun s => s <> Analyzing) Hc) as Hrun.
    pose proof (runs_transcribeAudio (onlyStages (fun s => s <> Analyzing))
                  anyEvent (fun s => s <> Analyzing) audioBlob I Ht w) as H.
    apply (H Hwf). intros Hn. apply Hn. reflexivity.
  - intros transcription.
    assert (Hc : Converting <> Transcribing) by discriminate.
    assert (Ha : Analyzing <> Transcribing) by discriminate.
    pose proof (onlyStages_run (fun s => s <> Transcribing) Hc) as Hrun.
    pose proof (runs_segmentByTopics
                  (onlyStages (fun s => s <> Transcribing))
                  anyEvent (fun s => s <> Transcribing) transcription I Ha w)
      as H.
    apply (H Hwf). intros Hn. apply Hn. reflexivity.
Qed.

Lemma stages_write_their_own_slot_witness :
  let w := snd (transcribeAudio sampleBlob (newAudioProcessor sampleEnv)) in
  slot (own (snd (convertToWav sampleFile w))) Transcribing = Num.one.
Proof.
  intros w.
  assert (Hwf : wf w) by (unfold wf; vm_compute; lia).
  assert (Hs : Transcribing <> Converting) by discriminate.
  rewrite (proj1 (proj2 (stages_write_their_own_slot w Hwf))
             sampleFile Transcribing Hs).
  vm_compute. reflexivity.
Defined.

(** ** The engine is terminated only on request *)

(** X11.  No stage terminates the engine on its own, whatever fails: the
    trace of a conversion, of a transcription or of an analysis gains the
    event of a termination if and only if the consumer asked for a
    cancellation at one of the suspensions the call met. *)
Theorem engine_terminated_exactly_on_cancel :
  forall (c : Call) (w : World),
    c <> CallCancel ->
    let w' := after c w in
    env w' = env w
    /\ exists s,
         trace w' = trace w ++ s
         /\ (In Terminate s
             <-> exists n, (clock w <= n < clock w')%nat
                           /\ cancelRequested (interlude (env w) n) = true).
Proof.
  intros c w Hc w'. pose proof cancelMarked_run as Hrun.
  assert (H : cancelMarked w w').
  { unfold w'. destruct c as [|audioFile|audioBlob|transcription];
      cbn [after]; [congruence|..].
    - apply (runs_convertToWav cancelMarked isCall (fun _ => True)).
      intros e He _. exact He.
    - apply (runs_transcribeAudio cancelMarked isCall (fun _ => True));
        exact I.
    - apply (runs_segmentByTopics cancelMarked isCall (fun _ => True));
        exact I. }
  destruct H as (He & _ & H). split; [exact He|exact H].
Qed.

Lemma engine_terminated_exactly_on_cancel_witness :
  exists s,
    trace (after (CallConvertToWav sampleFile)
                 (newAudioProcessor cancelDuringExec))
    = trace (newAudioProcessor cancelDuringExec) ++ s
    /\ In Terminate s.
Proof.
  destruct (engine_terminated_exactly_on_cancel
              (CallConvertToWav sampleFile)
              (newAudioProcessor cancelDuringExec))
    as (_ & s & Hs & Hin); [discriminate|].
  exists s. split; [exact Hs|]. apply Hin. exists 6%nat.
  split; [vm_compute; lia|reflexivity].
Defined.

(** ** A cancellation that is not awaited *)

Lemma cancelBegin_eq (w : World) :
  cancelBegin w =
  (Returned tt,
   mkWorld (env w) (clock w)
           (mkFFmpeg (serial (ffmpeg w)) false (listening (ffmpeg w)) ∅)
           (initialized w) None (progress w) (heap w)
           (trace w ++ [Terminate])).
Proof.
  unfold cancelBegin, bind, get, terminate, modify, ret.
  destruct w as [e c f i a p h t]. destruct a; reflexivity.
Qed.

(** X12.  [cancel()] has to be awaited.  Between the termination of the
    engine and the assignment that clears the flag lies the [await] of
    [cancel()]; a conversion called there, on a processor whose engine was
    initialised, finds the flag set: it makes and loads no engine, and its
    first call to the engine is rejected by an engine that is not loaded.
    The flag is cleared too late for it.  After a [cancel()] that is
    awaited the flag is clear when the conversion starts. *)
Theorem cancel_has_to_be_awaited :
  forall (audioFile : File) (w : World),
    initialized w = true -> quietAt w ->
    let w1 := snd (cancelBegin w) in
    let run := convertToWav audioFile w1 in
    fst run = Threw (conversionError (notLoadedError (env w)))
    /\ extends notInitialization w1 (snd run)
    /\ initialized (snd (cancelEnd (snd run))) = false
    /\ initialized (snd (cancel w)) = false.
Proof.
  intros audioFile w Hi Hq w1 run.
  assert (Hw1 : w1 = mkWorld (env w) (clock w)
                       (mkFFmpeg (serial (ffmpeg w)) false
                                 (listening (ffmpeg w)) ∅)
                       true None (progress w) (heap w)
                       (trace w ++ [Terminate])).
  { unfold w1. rewrite cancelBegin_eq, Hi. reflexivity. }
  assert (Hi1 : initialized w1 = true) by (rewrite Hw1; reflexivity).
  set (w0 := setAbortController freshToken w1).
  assert (C0 : controls w0 (env w) (clock w)
                        (mkFFmpeg (serial (ffmpeg w)) false
                                  (listening (ffmpeg w)) ∅)
                        true freshToken).
  { unfold w0. rewrite Hw1. repeat split. }
  destruct (fetchFile_quiet audioFile w0 _ _ _ _ _ C0 Hq)
    as (w2 & R2 & C2 & _).
  assert (Ht : transcode audioFile w0
               = (Threw (notLoadedError (env w)),
                  record (WriteFile (inputFileNameOf audioFile)) w2)).
  { unfold transcode. cbv zeta. rewrite (bind_eq_returned _ _ _ _ _ R2).
    apply bind_eq_threw. unfold writeFile. rewrite engineCall_eq.
    destruct C2 as (-> & _ & -> & _). reflexivity. }
  assert (Hrun : run = (Threw (conversionError (notLoadedError (env w))),
                        record (WriteFile (inputFileNameOf audioFile)) w2)).
  { unfold run. rewrite convertToWav_eq. fold w0.
    rewrite (ensureFFmpeg_initialized w0 Hi1).
    cbn [w0 abortController setAbortController freshToken aborted].
    fold freshToken. fold w0. rewrite Ht. reflexivity. }
  split; [rewrite Hrun; reflexivity|].
  split; [apply convertToWav_reuses, Hi1|].
  split; [reflexivity|]. rewrite cancel_eq. reflexivity.
Qed.

Lemma cancel_has_to_be_awaited_witness :
  let w := snd (convertToWav sampleFile (newAudioProcessor sampleEnv)) in
  fst (convertToWav sampleFile (snd (cancelBegin w)))
  = Threw (conversionError (notLoadedError sampleEnv)).
Proof.
  intros w.
  apply (cancel_has_to_be_awaited sampleFile w).
  - vm_compute. reflexivity.
  - split; reflexivity.
Defined.

(** ** The screen of the consumer *)

(** What holds of the state of [App] before the events of a run holds
    after them, if each event keeps it. *)
Lemma observed (P : App.State -> Prop) (h : list ProcessingProgress)
    (t : list Event) (s : App.State) :
  (forall s ev, P s -> P (App.observe h s ev)) ->
  P s -> P (fold_left (App.observe h) t s).
Proof.
  intros Hstep. revert s. induction t as [|ev t IH]; intros s Hs;
    [exact Hs|].
  cbn [fold_left]. apply IH, Hstep, Hs.
Qed.

Lemma observe_minutes (h : list ProcessingProgress) (s : App.State)
    (ev : Event) :
  App.minutes s = None -> App.minutes (App.observe h s ev) = None.
Proof.
  intros Hs. destruct ev; cbn [App.observe]; try exact Hs.
  unfold App.handleCancel. destruct (App.audioProcessor s);
    [reflexivity|exact Hs].
Qed.

Lemma pipeline_throws (audioFile : File) (w : World) :
  exists x w',
    convertToWav audioFile w = (Threw x, w')
    /\ pipeline audioFile w = (Threw x, w').
Proof.
  unfold pipeline, bind.
  destruct (convertToWav audioFile w) as [[b|x] w'] eqn:H.
  - destruct (convertToWav_never_returns _ _ _ _ H).
  - exists x, w'. split; reflexivity.
Qed.

Lemma handleClientFormSubmit_minutes (e : Env) (data : App.ClientData)
    (audioFile : File) (s : App.State) :
  App.minutes s = None ->
  App.minutes (App.handleClientFormSubmit e data audioFile s) = None.
Proof.
  intros Hs. unfold App.handleClientFormSubmit.
  destruct (keyMissing e); [exact Hs|]. cbv zeta.
  destruct (pipeline_throws audioFile (newAudioProcessor e))
    as (x & w' & _ & ->). cbn [fst snd].
  destruct (String.eqb (errorMessageOf x) operationCancelled);
    [reflexivity|].
  cbn [App.minutes App.setProcessing App.setError].
  apply observed; [intros s0 ev; apply observe_minutes|exact Hs].
Qed.

Lemma act_minutes (e : Env) (a : App.Action) (s : App.State) :
  App.minutes s = None -> App.minutes (App.act e a s) = None.
Proof.
  intros Hs. destruct a as [acceptedFiles|data]; cbn [App.act].
  - destruct (App.uploaderShown (App.render e s)); [|exact Hs].
    destruct acceptedFiles; exact Hs.
  - destruct (App.reviewed (App.render e s)); [|exact Hs].
    apply handleClientFormSubmit_minutes, Hs.
Qed.

(** X13.  The consumer never shows minutes.  Whatever the user does, from
    the first screen on, and whatever the engine, the network and the
    services do, the state of [App] holds no minutes and the panel of the
    minutes is not rendered: every run ends in its conversion. *)
Theorem minutes_are_never_shown :
  forall (actions : list (Env * App.Action)),
    let s := App.session actions App.initialState in
    App.minutes s = None
    /\ forall (e : Env) (m : json) (d : App.ClientData),
         ~ In (App.MinutesDisplayPanel m d) (App.render e s).
Proof.
  intros actions s.
  assert (Hs : App.minutes s = None).
  { unfold s, App.session.
    assert (H : forall s0, App.minutes s0 = None ->
                App.minutes
                  (fold_left (fun s ea => App.act (fst ea) (snd ea) s)
                             actions s0) = None).
    { induction actions as [|[e a] actions IH]; intros s0 H0; [exact H0|].
      cbn [fold_left fst snd]. apply IH, act_minutes, H0. }
    apply H. reflexivity. }
  split; [exact Hs|]. intros e m d. unfold App.render.
  destruct (keyMissing e); [intros [H|[]]; discriminate|].
  rewrite Hs, !in_app_iff. unfold App.when.
  intros [H|[H|[H|[H|H]]]].
  - destruct (App.error s) as [msg|]; [|destruct H].
    destruct (negb (Str.isEmpty msg)); [|destruct H].
    destruct H as [H|[]]. discriminate.
  - destruct (App.step s =? 1)%nat; [|destruct H].
    destruct H as [H|[]]. discriminate.
  - destruct (App.step s =? 2)%nat; [|destruct H].
    destruct (App.audioFile s); [|destruct H].
    destruct H as [H|[]]. discriminate.
  - destruct ((App.step s =? 3)%nat && App.processing s); [|destruct H].
    destruct H as [H|[]]. discriminate.
  - destruct ((App.step s =? 3)%nat && negb (App.processing s)); destruct H.
Qed.

(** The events of a run in which nobody cancels leave the state of [App]
    as it is, but for the progress status. *)
Lemma observed_uncancelled (h : list ProcessingProgress) (t : list Event)
    (s : App.State) :
  ~ In Terminate t ->
  exists p, fold_left (App.observe h) t s = App.setProgressStatus p s.
Proof.
  revert s. induction t as [|ev t IH]; intros s Hn.
  - exists (App.progressStatus s). destruct s. reflexivity.
  - cbn [fold_left].
    assert (Ht : ~ In Terminate t) by (intros H; apply Hn; right; exact H).
    destruct ev as [n|url| |name|args|name| |file model language
                   |model system user|stage l details];
      cbn [App.observe]; try (apply IH, Ht).
    + destruct Hn. left. reflexivity.
    + destruct (IH (App.setProgressStatus
                      (App.mkProgressStatus stage (deref h l) details) s) Ht)
        as (p & ->).
      exists p. reflexivity.
Qed.


Lemma conversion_message_not_empty (m : string) :
  String.prefix "Failed to convert audio: " m = true ->
  Str.isEmpty m = false.
Proof. destruct m; [discriminate|reflexivity]. Qed.

(** The run of [handleClientFormSubmit]: what it throws, and its world. *)
Lemma submission_eq (e : Env) (audioFile : File) :
  keyMissing e = false ->
  exists x w,
    pipeline audioFile (newAudioProcessor e) = (Threw x, w)
    /\ handleClientFormSubmit e audioFile
       = (if String.eqb (errorMessageOf x) operationCancelled
          then StateReset else ErrorShown (errorMessageOf x), trace w)
    /\ (String.eqb (errorMessageOf x) operationCancelled = false ->
        String.prefix "Failed to convert audio: " (errorMessageOf x) = true).
Proof.
  intros Hk.
  destruct (pipeline_throws audioFile (newAudioProcessor e))
    as (x & w & Hc & Hp).
  exists x, w. split; [exact Hp|]. split.
  - unfold handleClientFormSubmit. rewrite Hk, Hp.
    destruct (String.eqb (errorMessageOf x) operationCancelled); reflexivity.
  - intros Hne. apply convertToWav_threw in Hc as (m & -> & [->|Hm]).
    + cbn [errorMessageOf] in Hne. rewrite String.eqb_refl in Hne.
      discriminate.
    + exact Hm.
Qed.

(** X14.  A run that fails, with nobody cancelling, is a dead end.  The
    state of [App] is left at the third step, not processing and without
    minutes: the screen shows the message of the failed conversion and
    nothing else, and no action of the user changes the state any more.
    Only a failure with the text of a cancellation brings the first
    screen back. *)
Theorem failed_run_is_a_dead_end :
  forall (e : Env) (data : App.ClientData) (audioFile : File)
         (s : App.State),
    keyMissing e = false ->
    App.minutes s = None ->
    uncancelledFrom e 0 ->
    let s' := App.handleClientFormSubmit e data audioFile s in
    match fst (handleClientFormSubmit e audioFile) with
    | ErrorShown m =>
        App.render e s' = [App.ErrorBanner m]
        /\ forall a : App.Action, App.act e a s' = s'
    | StateReset => s' = App.initialState
    | MinutesShown _ => False
    end.
Proof.
  intros e data audioFile s Hk Hmin Hq s'.
  destruct (submission_eq e audioFile Hk) as (x & w & Hp & Hshown & Hm).
  rewrite Hshown. cbn [fst].
  unfold s', App.handleClientFormSubmit. rewrite Hk. cbv zeta.
  rewrite Hp. cbn [fst snd].
  destruct (String.eqb (errorMessageOf x) operationCancelled) eqn:Hx;
    [reflexivity|].
  specialize (Hm eq_refl).
  assert (Hn : ~ In Terminate (trace w)).
  { pose proof cancelMarked_run as Hrun.
    destruct (pipeline_throws audioFile (newAudioProcessor e))
      as (x' & w' & Hc & Hp').
    rewrite Hp in Hp'. injection Hp' as _ <-.
    pose proof (runs_convertToWav cancelMarked isCall (fun _ => True)
                  (fun ev H _ => H) audioFile (newAudioProcessor e)) as H.
    rewrite Hc in H. cbn [snd] in H. destruct H as (_ & _ & t & Ht & Hiff).
    rewrite Ht, in_app_iff. intros [[H|[]]|H]; [discriminate|].
    apply Hiff in H as (n & _ & Hn). cbn [env newAudioProcessor] in Hn.
    rewrite Hq in Hn by lia. discriminate. }
  destruct (observed_uncancelled (heap w) (trace w)
              (App.mkState (App.audioFile s) (Some data) (App.minutes s) true
                           None 3 true (App.progressStatus s)) Hn)
    as (p & ->).
  assert (Hr : App.render e
                 (App.setProcessing false
                    (App.setError (Some (errorMessageOf x))
                       (App.setProgressStatus p
                          (App.mkState (App.audioFile s) (Some data)
                                       (App.minutes s) true None 3 true
                                       (App.progressStatus s)))))
               = [App.ErrorBanner (errorMessageOf x)]).
  { unfold App.render. rewrite Hk.
    cbn [App.error App.step App.processing App.minutes App.clientData
         App.audioFile App.setProcessing App.setError App.setProgressStatus
         Nat.eqb andb negb App.when].
    rewrite (conversion_message_not_empty _ Hm), Hmin. reflexivity. }
  split; [exact Hr|].
  intros [acceptedFiles|data']; cbn [App.act]; rewrite Hr; reflexivity.
Qed.

Lemma failed_run_is_a_dead_end_witness :
  App.render execFails
             (App.handleClientFormSubmit
                execFails (App.mkClientData "Acme" "Kick-off" "2024-05-06")
                sampleFile
                (App.handleFileSelect sampleFile App.initialState))
  = [App.ErrorBanner "Failed to convert audio: Conversion failed"].
Proof.
  pose proof (failed_run_is_a_dead_end
                execFails (App.mkClientData "Acme" "Kick-off" "2024-05-06")
                sampleFile
                (App.handleFileSelect sampleFile App.initialState)) as H.
  cbv zeta in H.
  replace (fst (handleClientFormSubmit execFails sampleFile))
    with (ErrorShown "Failed to convert audio: Conversion failed") in H
    by (vm_compute; reflexivity).
  apply H; [reflexivity|reflexivity|]. intros k _. reflexivity.
Defined.


